(** * Payment requests service: idempotency, batch creation, status
      transitions and cursor pagination

    A shallow embedding of the TypeScript services
    ([PaymentService], [BatchPaymentService]) and of the idempotency
    middleware, with the properties the design document states about them.

    Conventions.
    - JavaScript strings are byte strings (their UTF-8 encoding), which is
      what the hash function consumes.
    - Numbers that the code uses as counters, indices, limits and
      timestamps are integers ([Z], or [nat] for array indices).
    - Asynchronous functions are trees of store and runtime calls
      ([Task]); every call is a point where another task may run. *)

From Stdlib Require Import ZArith List String Ascii Lia Bool DecimalString.
From Stdlib Require Import Permutation Sorted.
Import ListNotations.

#[local] Set Warnings "-register-all".

Open Scope string_scope.
Open Scope Z_scope.

(* ================================================================== *)
(** * The JavaScript runtime: strings, numbers, JSON                   *)
(* ================================================================== *)

Module JS.

(** [String(n)] for an integer [n]. *)
Definition of_Z (n : Z) : string := NilZero.string_of_int (Z.to_int n).

(** [String(n)] for an array index. *)
Definition of_nat (n : nat) : string := of_Z (Z.of_nat n).

(** [a || b] on strings: the empty string is falsy. *)
Definition or_string (a b : string) : string :=
  match a with
  | EmptyString => b
  | _ => a
  end.

(** [a || b] where [a] may be [undefined]. *)
Definition or_default (a : option string) (b : string) : string :=
  match a with
  | Some s => or_string s b
  | None => b
  end.

(** [haystack.includes(needle)]. *)
Fixpoint includes (haystack needle : string) : bool :=
  if String.prefix needle haystack then true
  else match haystack with
       | EmptyString => false
       | String _ rest => includes rest needle
       end.

Fixpoint join (sep : string) (parts : list string) : string :=
  match parts with
  | [] => ""
  | [p] => p
  | p :: rest => p ++ sep ++ join sep rest
  end.

(** JSON values. An object lists its own properties in the order the
    engine enumerates them (insertion order for the property names that
    occur in this program); a property whose value is [undefined] is
    simply absent. Numbers are the integers. *)
Inductive json : Type :=
| JNull
| JBool (b : bool)
| JNum (n : Z)
| JStr (s : string)
| JArr (items : list json)
| JObj (fields : list (string * json)).

Definition hex_digit (n : N) : ascii :=
  match n with
  | 0 => "0" | 1 => "1" | 2 => "2" | 3 => "3" | 4 => "4" | 5 => "5"
  | 6 => "6" | 7 => "7" | 8 => "8" | 9 => "9" | 10 => "a" | 11 => "b"
  | 12 => "c" | 13 => "d" | 14 => "e" | _ => "f"
  end%N%char.

(** The double quote. *)
Definition dquote_char : ascii := ascii_of_nat 34.
Definition dquote : string := String dquote_char "".

(** One character of [QuoteJSONString]. *)
Definition escape_char (c : ascii) : string :=
  let n := N_of_ascii c in
  if (n =? 34)%N then "\" ++ dquote
  else if (n =? 92)%N then "\\"
  else if (n =? 8)%N then "\b"
  else if (n =? 12)%N then "\f"
  else if (n =? 10)%N then "\n"
  else if (n =? 13)%N then "\r"
  else if (n =? 9)%N then "\t"
  else if (n <? 32)%N then
    "\u00" ++ String (hex_digit (n / 16)) (String (hex_digit (n mod 16)) "")
  else String c "".

Fixpoint escape (s : string) : string :=
  match s with
  | EmptyString => ""
  | String c rest => escape_char c ++ escape rest
  end.

Definition quote (s : string) : string := dquote ++ escape s ++ dquote.

(** [JSON.stringify(v)], without indentation. *)
Fixpoint JSON_stringify (v : json) : string :=
  match v with
  | JNull => "null"
  | JBool true => "true"
  | JBool false => "false"
  | JNum n => of_Z n
  | JStr s => quote s
  | JArr items => "[" ++ join "," (map JSON_stringify items) ++ "]"
  | JObj fields =>
      "{" ++ join "," (map (fun kv : string * json =>
                              let (k, x) := kv in
                              quote k ++ ":" ++ JSON_stringify x) fields)
          ++ "}"
  end.

(** [obj[name]]: the value of an own property, if present. *)
Fixpoint get (name : string) (fields : list (string * json)) : option json :=
  match fields with
  | [] => None
  | (k, x) :: rest => if String.eqb k name then Some x else get name rest
  end.

(** A thrown [Error]; only its [message] is ever read. *)
Record Error : Type := mkError { message : string }.

(** [arr[i] = x] on an array: writing past the end leaves holes
    ([None]) between the old end and [i]. *)
Fixpoint set_index {A : Type} (arr : list (option A)) (i : nat) (x : A)
  : list (option A) :=
  match i, arr with
  | O, [] => [Some x]
  | O, _ :: rest => Some x :: rest
  | S j, [] => None :: set_index [] j x
  | S j, y :: rest => y :: set_index rest j x
  end.

(** [arr.slice(i, j)] for indices that are not negative. *)
Definition slice {A : Type} (arr : list A) (i j : nat) : list A :=
  firstn (j - i) (skipn i arr).

(** [arr.slice(0, n)] for any integer [n]: a negative [n] counts from
    the end. *)
Definition slice0 {A : Type} (arr : list A) (n : Z) : list A :=
  if 0 <=? n then firstn (Z.to_nat n) arr
  else firstn (Z.to_nat (Z.of_nat (List.length arr) + n)) arr.

(** ** Dates: [date.toISOString()] and [new Date(text)]

    A date is its time value, the milliseconds since the epoch (UTC). *)

Definition zero_padded (width : nat) (n : Z) : string :=
  let digits := of_Z n in
  String.concat "" (repeat "0" (width - String.length digits)) ++ digits.

(** Year, month and day of the day that is [days] days after
    1970-01-01, in the proleptic Gregorian calendar. *)
Definition civil_of_days (days : Z) : Z * Z * Z :=
  let z := days + 719468 in
  let era := z / 146097 in
  let doe := z - era * 146097 in
  let yoe := (doe - doe / 1460 + doe / 36524 - doe / 146096) / 365 in
  let doy := doe - (365 * yoe + yoe / 4 - yoe / 100) in
  let mp := (5 * doy + 2) / 153 in
  let d := doy - (153 * mp + 2) / 5 + 1 in
  let m := if mp <? 10 then mp + 3 else mp - 9 in
  (yoe + era * 400 + (if m <=? 2 then 1 else 0), m, d).

Definition days_of_civil (y m d : Z) : Z :=
  let y' := if m <=? 2 then y - 1 else y in
  let era := y' / 400 in
  let yoe := y' - era * 400 in
  let doy := (153 * (if 2 <? m then m - 3 else m + 9) + 2) / 5 + d - 1 in
  era * 146097 + (yoe * 365 + yoe / 4 - yoe / 100 + doy) - 719468.

Definition ms_per_day : Z := 86400000.

Definition toISOString (t : Z) : string :=
  let '(y, m, d) := civil_of_days (t / ms_per_day) in
  let ms := t mod ms_per_day in
  (if (0 <=? y) && (y <=? 9999) then zero_padded 4 y
   else (if y <? 0 then "-" else "+") ++ zero_padded 6 (Z.abs y))
  ++ "-" ++ zero_padded 2 m ++ "-" ++ zero_padded 2 d
  ++ "T" ++ zero_padded 2 (ms / 3600000)
  ++ ":" ++ zero_padded 2 (ms / 60000 mod 60)
  ++ ":" ++ zero_padded 2 (ms / 1000 mod 60)
  ++ "." ++ zero_padded 3 (ms mod 1000) ++ "Z".

Fixpoint digits_value (acc : Z) (s : string) : option Z :=
  match s with
  | EmptyString => Some acc
  | String c rest =>
      let n := Z.of_N (N_of_ascii c) in
      if (48 <=? n) && (n <=? 57) then digits_value (10 * acc + (n - 48)) rest
      else None
  end.

Definition field (s : string) (from len : nat) : option Z :=
  digits_value 0 (String.substring from len s).

Definition date_part (s : string) : option Z :=
  match field s 0 4, field s 5 2, field s 8 2 with
  | Some y, Some m, Some d =>
      if String.eqb (String.substring 4 1 s) "-"
         && String.eqb (String.substring 7 1 s) "-"
         && (1 <=? m) && (m <=? 12) && (1 <=? d) && (d <=? 31)
      then Some (days_of_civil y m d * ms_per_day)
      else None
  | _, _, _ => None
  end.

Definition time_part (s : string) : option Z :=
  match field s 11 2, field s 14 2, field s 17 2, field s 20 3 with
  | Some h, Some mi, Some sec, Some ms =>
      if String.eqb (String.substring 10 1 s) "T"
         && String.eqb (String.substring 13 1 s) ":"
         && String.eqb (String.substring 16 1 s) ":"
         && String.eqb (String.substring 19 1 s) "."
         && String.eqb (String.substring 23 1 s) "Z"
         && (h <=? 23) && (mi <=? 59) && (sec <=? 59)
      then Some (h * 3600000 + mi * 60000 + sec * 1000 + ms)
      else None
  | _, _, _, _ => None
  end.

(** The time value of [new Date(text)], for the two spellings this
    service produces and documents: [YYYY-MM-DDTHH:mm:ss.sssZ] and
    [YYYY-MM-DD]. [None] is the invalid date. *)
Definition Date_parse (text : string) : option Z :=
  if Nat.eqb (String.length text) 24 then
    match date_part text, time_part text with
    | Some day, Some time => Some (day + time)
    | _, _ => None
    end
  else if Nat.eqb (String.length text) 10 then date_part text
  else None.

End JS.

(* ================================================================== *)
(** * SHA-256 (FIPS 180-4), as [crypto.createHash('sha256')]           *)
(* ================================================================== *)

Module Sha256.

Definition w32 (x : Z) : Z := x mod 2 ^ 32.

Definition rotr (n x : Z) : Z :=
  Z.lor (Z.shiftr x n) (w32 (Z.shiftl x (32 - n))).

Definition Ch (x y z : Z) : Z :=
  Z.lxor (Z.land x y) (Z.land (Z.lxor x (2 ^ 32 - 1)) z).

Definition Maj (x y z : Z) : Z :=
  Z.lxor (Z.lxor (Z.land x y) (Z.land x z)) (Z.land y z).

Definition Sigma0 (x : Z) : Z := Z.lxor (Z.lxor (rotr 2 x) (rotr 13 x)) (rotr 22 x).
Definition Sigma1 (x : Z) : Z := Z.lxor (Z.lxor (rotr 6 x) (rotr 11 x)) (rotr 25 x).
Definition sigma0 (x : Z) : Z := Z.lxor (Z.lxor (rotr 7 x) (rotr 18 x)) (Z.shiftr x 3).
Definition sigma1 (x : Z) : Z := Z.lxor (Z.lxor (rotr 17 x) (rotr 19 x)) (Z.shiftr x 10).

(** The round constants are the fractional parts of the cube roots of the
    first 64 primes, the initial hash value those of the square roots of
    the first 8; both tables are computed here rather than quoted. *)
Definition is_prime (n : nat) : bool :=
  forallb (fun d => negb (Nat.eqb (n mod d) 0)) (seq 2 (n - 2)).

Definition primes : list Z :=
  Eval vm_compute in map Z.of_nat (filter is_prime (seq 2 310)).

(** Largest [r] in [[lo, lo + 2^fuel)] with [r^3 <= n], by bisection. *)
Fixpoint cbrt_from (fuel : nat) (lo n : Z) : Z :=
  match fuel with
  | O => lo
  | S f =>
      let mid := lo + 2 ^ Z.of_nat f in
      if mid * mid * mid <=? n then cbrt_from f mid n else cbrt_from f lo n
  end.

Definition K : list Z :=
  Eval vm_compute in map (fun p => w32 (cbrt_from 40 0 (p * 2 ^ 96))) primes.

Definition H0 : list Z :=
  Eval vm_compute in map (fun p => w32 (Z.sqrt (p * 2 ^ 64))) (firstn 8 primes).

Definition bytes_of (s : string) : list Z :=
  map (fun c => Z.of_N (N_of_ascii c)) (list_ascii_of_string s).

(** Big-endian bytes of [x], [n] of them. *)
Fixpoint be_bytes (n : nat) (x : Z) : list Z :=
  match n with
  | O => []
  | S m => (Z.shiftr x (8 * Z.of_nat m)) mod 256 :: be_bytes m x
  end.

Definition pad (msg : list Z) : list Z :=
  let len := Z.of_nat (List.length msg) in
  let zeros := Z.to_nat ((55 - len) mod 64) in
  (msg ++ [128] ++ repeat 0 zeros ++ be_bytes 8 (8 * len))%list.

Fixpoint words_of (fuel : nat) (bytes : list Z) : list Z :=
  match fuel, bytes with
  | S f, b0 :: b1 :: b2 :: b3 :: rest =>
      (b0 * 2 ^ 24 + b1 * 2 ^ 16 + b2 * 2 ^ 8 + b3) :: words_of f rest
  | _, _ => []
  end.

(** Message schedule; [recent] holds W[t-1], W[t-2], ... *)
Fixpoint schedule (fuel : nat) (recent : list Z) : list Z :=
  match fuel with
  | O => recent
  | S f =>
      let w := w32 (sigma1 (nth 1 recent 0) + nth 6 recent 0
                    + sigma0 (nth 14 recent 0) + nth 15 recent 0) in
      schedule f (w :: recent)
  end.

Definition state : Type := (Z * Z * Z * Z * Z * Z * Z * Z)%type.

Definition round (s : state) (kw : Z * Z) : state :=
  let '(a, b, c, d, e, f, g, h) := s in
  let (k, w) := kw in
  let T1 := h + Sigma1 e + Ch e f g + k + w in
  let T2 := Sigma0 a + Maj a b c in
  (w32 (T1 + T2), a, b, c, w32 (d + T1), e, f, g).

Definition compress (s : state) (block : list Z) : state :=
  let W := rev (schedule 48 (rev block)) in
  let '(a, b, c, d, e, f, g, h) := s in
  let '(a', b', c', d', e', f', g', h') := fold_left round (combine K W) s in
  (w32 (a + a'), w32 (b + b'), w32 (c + c'), w32 (d + d'),
   w32 (e + e'), w32 (f + f'), w32 (g + g'), w32 (h + h')).

Fixpoint blocks (fuel : nat) (words : list Z) (s : state) : state :=
  match fuel, words with
  | S f, _ :: _ => blocks f (skipn 16 words) (compress s (firstn 16 words))
  | _, _ => s
  end.

Definition initial : state :=
  match H0 with
  | [a; b; c; d; e; f; g; h] => (a, b, c, d, e, f, g, h)
  | _ => (0, 0, 0, 0, 0, 0, 0, 0)
  end.

Definition hex_byte (b : Z) : string :=
  String (JS.hex_digit (Z.to_N (b / 16)))
         (String (JS.hex_digit (Z.to_N (b mod 16))) "").

Definition hex_word (w : Z) : string :=
  String.concat "" (map hex_byte (be_bytes 4 w)).

(** [createHash('sha256').update(s).digest('hex')]. *)
Definition digest_hex (s : string) : string :=
  let bytes := pad (bytes_of s) in
  let words := words_of (List.length bytes) bytes in
  let '(a, b, c, d, e, f, g, h) := blocks (List.length words) words initial in
  String.concat "" (map hex_word [a; b; c; d; e; f; g; h]).

End Sha256.


(* ================================================================== *)
(** * The data model (Sequelize models)                                *)
(* ================================================================== *)

Inductive Status : Type := pending | paid | reversed.
Inductive Currency : Type := USD | ARS.

Definition Status_eqb (a b : Status) : bool :=
  match a, b with
  | pending, pending | paid, paid | reversed, reversed => true
  | _, _ => false
  end.

(** The string a status is when it is spliced into a template literal or
    serialized. *)
Definition Status_str (s : Status) : string :=
  match s with
  | pending => "pending"
  | paid => "paid"
  | reversed => "reversed"
  end.

Definition Currency_str (c : Currency) : string :=
  match c with
  | USD => "USD"
  | ARS => "ARS"
  end.

Module Payment.
Record t : Type := {
  id : string;
  description : string;
  dueDate : string;
  amountCents : Z;
  currency : Currency;
  payerName : string;
  payerEmail : string;
  status : Status;
  checkoutUrl : string;
  idempotencyKey : string;
  createdAt : Z;
  updatedAt : Z
}.

(** The attributes [Payment.create] is called with; the store adds the
    two timestamps. *)
Record attrs : Type := {
  a_id : string;
  a_description : string;
  a_dueDate : string;
  a_amountCents : Z;
  a_currency : Currency;
  a_payerName : string;
  a_payerEmail : string;
  a_status : Status;
  a_checkoutUrl : string;
  a_idempotencyKey : string
}.

Definition build (a : attrs) (now : Z) : t :=
  {| id := a_id a; description := a_description a; dueDate := a_dueDate a;
     amountCents := a_amountCents a; currency := a_currency a;
     payerName := a_payerName a; payerEmail := a_payerEmail a;
     status := a_status a; checkoutUrl := a_checkoutUrl a;
     idempotencyKey := a_idempotencyKey a;
     createdAt := now; updatedAt := now |}.

Definition with_status (p : t) (s : Status) (now : Z) : t :=
  {| id := id p; description := description p; dueDate := dueDate p;
     amountCents := amountCents p; currency := currency p;
     payerName := payerName p; payerEmail := payerEmail p;
     status := s; checkoutUrl := checkoutUrl p;
     idempotencyKey := idempotencyKey p;
     createdAt := createdAt p; updatedAt := now |}.
End Payment.

Module PaymentHistory.
Record t : Type := {
  id : string;
  paymentId : string;
  oldStatus : Status;
  newStatus : Status;
  reason : option string;
  createdAt : Z
}.

Record attrs : Type := {
  a_paymentId : string;
  a_oldStatus : Status;
  a_newStatus : Status;
  a_reason : option string
}.
End PaymentHistory.

Module IdempotencyKey.
Record t : Type := {
  id : string;
  key : string;
  requestHash : string;
  responseData : string;
  expiresAt : Z;
  createdAt : Z
}.

Record attrs : Type := {
  a_key : string;
  a_requestHash : string;
  a_responseData : string;
  a_expiresAt : Z
}.
End IdempotencyKey.

(* ================================================================== *)
(** * The store and the runtime, as the services see them              *)
(* ================================================================== *)

(** A store call that settles: with a value, or rejected with an error. *)
Inductive result (X : Type) : Type :=
| Ok (x : X)
| Err (e : JS.Error).
Arguments Ok {X} x.
Arguments Err {X} e.

(** The options of [Payment.findAll]; the order is always
    [createdAt DESC]. *)
Record FindOptions : Type := {
  where_status : option Status;
  where_createdAt_lt : option Z;
  limit : Z
}.

(** The calls a service makes to the world outside it. *)
Inductive Op : Type :=
| uuidv4
| Date_now
| setTimeout (ms : Z)
| Payment_create (a : Payment.attrs)
| Payment_findByPk (id : string)
| Payment_update (id : string) (status : Status)
| Payment_findAll (options : FindOptions)
| PaymentHistory_create (a : PaymentHistory.attrs)
| IdempotencyKey_findOne (key : string)
| IdempotencyKey_create (a : IdempotencyKey.attrs).

Definition Resp (op : Op) : Type :=
  match op with
  | uuidv4 => string
  | Date_now => Z
  | setTimeout _ => unit
  | Payment_create _ => result Payment.t
  | Payment_findByPk _ => result (option Payment.t)
  | Payment_update _ _ => result unit
  | Payment_findAll _ => result (list Payment.t)
  | PaymentHistory_create _ => result PaymentHistory.t
  | IdempotencyKey_findOne _ => result (option IdempotencyKey.t)
  | IdempotencyKey_create _ => result IdempotencyKey.t
  end.

(** The world: the three tables (rows in insertion order), the clock, the
    UUID generator, the failures the storage engine is going to have (the
    [n]-th store call fails with message [m] when [db_fault n = Some m];
    row validators and engine errors are all of this kind), and the log of
    the timers that were set. *)
Record World : Type := {
  payments : list Payment.t;
  payment_histories : list PaymentHistory.t;
  idempotency_keys : list IdempotencyKey.t;
  now : Z;
  uuid_at : nat -> string;
  uuid_next : nat;
  db_fault : nat -> option string;
  db_calls : nat;
  timeouts : list Z
}.

Module Store.

Definition set_payments (w : World) (rows : list Payment.t) : World :=
  {| payments := rows; payment_histories := payment_histories w;
     idempotency_keys := idempotency_keys w; now := now w;
     uuid_at := uuid_at w; uuid_next := uuid_next w;
     db_fault := db_fault w; db_calls := db_calls w;
     timeouts := timeouts w |}.

Definition set_histories (w : World) (rows : list PaymentHistory.t) : World :=
  {| payments := payments w; payment_histories := rows;
     idempotency_keys := idempotency_keys w; now := now w;
     uuid_at := uuid_at w; uuid_next := uuid_next w;
     db_fault := db_fault w; db_calls := db_calls w;
     timeouts := timeouts w |}.

Definition set_keys (w : World) (rows : list IdempotencyKey.t) : World :=
  {| payments := payments w; payment_histories := payment_histories w;
     idempotency_keys := rows; now := now w;
     uuid_at := uuid_at w; uuid_next := uuid_next w;
     db_fault := db_fault w; db_calls := db_calls w;
     timeouts := timeouts w |}.

(** One more store call has been issued. *)
Definition tick (w : World) : World :=
  {| payments := payments w; payment_histories := payment_histories w;
     idempotency_keys := idempotency_keys w; now := now w;
     uuid_at := uuid_at w; uuid_next := uuid_next w;
     db_fault := db_fault w; db_calls := S (db_calls w);
     timeouts := timeouts w |}.

Definition draw_uuid (w : World) : string * World :=
  (uuid_at w (uuid_next w),
   {| payments := payments w; payment_histories := payment_histories w;
      idempotency_keys := idempotency_keys w; now := now w;
      uuid_at := uuid_at w; uuid_next := S (uuid_next w);
      db_fault := db_fault w; db_calls := db_calls w;
      timeouts := timeouts w |}).

(** The timer fires [ms] milliseconds later. *)
Definition sleep (ms : Z) (w : World) : World :=
  {| payments := payments w; payment_histories := payment_histories w;
     idempotency_keys := idempotency_keys w; now := now w + Z.max ms 0;
     uuid_at := uuid_at w; uuid_next := uuid_next w;
     db_fault := db_fault w; db_calls := db_calls w;
     timeouts := (timeouts w ++ [ms])%list |}.

(** [ORDER BY createdAt DESC], by insertion. Rows with the same
    timestamp come out latest inserted first, as a backward scan of the
    [created_at] index yields them; the engine promises no particular
    order among them. *)
Fixpoint insert_desc (p : Payment.t) (sorted : list Payment.t) : list Payment.t :=
  match sorted with
  | [] => [p]
  | q :: rest =>
      if Payment.createdAt q <? Payment.createdAt p then p :: q :: rest
      else q :: insert_desc p rest
  end.

Definition order_desc (rows : list Payment.t) : list Payment.t :=
  fold_right insert_desc [] rows.

Definition matches (o : FindOptions) (p : Payment.t) : bool :=
  (match where_status o with
   | Some s => Status_eqb (Payment.status p) s
   | None => true
   end)
  && (match where_createdAt_lt o with
      | Some c => Payment.createdAt p <? c
      | None => true
      end).

(** [LIMIT n]; a negative [n] is no bound at all (SQLite). *)
Definition take_limit {A : Type} (n : Z) (rows : list A) : list A :=
  if n <? 0 then rows else firstn (Z.to_nat n) rows.

Definition findAll (o : FindOptions) (rows : list Payment.t) : list Payment.t :=
  take_limit (limit o) (order_desc (filter (matches o) rows)).

Definition findByPk (id : string) (rows : list Payment.t) : option Payment.t :=
  find (fun p => String.eqb (Payment.id p) id) rows.

Definition findKey (key : string) (rows : list IdempotencyKey.t)
  : option IdempotencyKey.t :=
  find (fun r => String.eqb (IdempotencyKey.key r) key) rows.

(** The unique-constraint failure Sequelize reports. *)
Definition unique_violation : JS.Error := JS.mkError "Validation error".

(** A store call: first the engine may fail, then the call acts. *)
Definition guarded {X : Type} (w : World) (act : World -> result X * World)
  : result X * World :=
  match db_fault w (db_calls w) with
  | Some m => (Err (JS.mkError m), tick w)
  | None => act (tick w)
  end.

Definition handle (op : Op) (w : World) : Resp op * World :=
  match op return Resp op * World with
  | uuidv4 => draw_uuid w
  | Date_now => (now w, w)
  | setTimeout ms => (tt, sleep ms w)
  | Payment_create a =>
      guarded w (fun w =>
        if existsb (fun p => String.eqb (Payment.id p) (Payment.a_id a)
                             || String.eqb (Payment.idempotencyKey p)
                                           (Payment.a_idempotencyKey a))
                   (payments w)
        then (Err unique_violation, w)
        else let row := Payment.build a (now w) in
             (Ok row, set_payments w (payments w ++ [row])%list))
  | Payment_findByPk id =>
      guarded w (fun w => (Ok (findByPk id (payments w)), w))
  | Payment_update id st =>
      guarded w (fun w =>
        (Ok tt,
         set_payments w
           (map (fun p => if String.eqb (Payment.id p) id
                          then Payment.with_status p st (now w) else p)
                (payments w))))
  | Payment_findAll o =>
      guarded w (fun w => (Ok (findAll o (payments w)), w))
  | PaymentHistory_create a =>
      guarded w (fun w =>
        let (u, w1) := draw_uuid w in
        let row := {| PaymentHistory.id := u;
                      PaymentHistory.paymentId := PaymentHistory.a_paymentId a;
                      PaymentHistory.oldStatus := PaymentHistory.a_oldStatus a;
                      PaymentHistory.newStatus := PaymentHistory.a_newStatus a;
                      PaymentHistory.reason := PaymentHistory.a_reason a;
                      PaymentHistory.createdAt := now w |} in
        (Ok row, set_histories w1 (payment_histories w1 ++ [row])%list))
  | IdempotencyKey_findOne key =>
      guarded w (fun w => (Ok (findKey key (idempotency_keys w)), w))
  | IdempotencyKey_create a =>
      guarded w (fun w =>
        if existsb (fun r => String.eqb (IdempotencyKey.key r)
                                        (IdempotencyKey.a_key a))
                   (idempotency_keys w)
        then (Err unique_violation, w)
        else
          let (u, w1) := draw_uuid w in
          let row := {| IdempotencyKey.id := u;
                        IdempotencyKey.key := IdempotencyKey.a_key a;
                        IdempotencyKey.requestHash := IdempotencyKey.a_requestHash a;
                        IdempotencyKey.responseData := IdempotencyKey.a_responseData a;
                        IdempotencyKey.expiresAt := IdempotencyKey.a_expiresAt a;
                        IdempotencyKey.createdAt := now w |} in
          (Ok row, set_keys w1 (idempotency_keys w1 ++ [row])%list))
  end.

End Store.

(* ================================================================== *)
(** * Asynchronous functions                                           *)
(* ================================================================== *)

(** An [async] function body that has run up to some point: it has
    returned, it has thrown, or it waits for a call to answer. *)
Inductive Task (A : Type) : Type :=
| Ret (a : A)
| Throw (e : JS.Error)
| Call (op : Op) (k : Resp op -> Task A).
Arguments Ret {A} a.
Arguments Throw {A} e.
Arguments Call {A} op k.

Inductive Settled (A : Type) : Type :=
| Fulfilled (value : A)
| Rejected (reason : JS.Error).
Arguments Fulfilled {A} value.
Arguments Rejected {A} reason.

Module Async.

Fixpoint bind {A B : Type} (t : Task A) (f : A -> Task B) : Task B :=
  match t with
  | Ret a => f a
  | Throw e => Throw e
  | Call op k => Call op (fun x => bind (k x) f)
  end.

(** [try { t } catch (e) { handler e }]. *)
Fixpoint try_catch {A : Type} (t : Task A) (handler : JS.Error -> Task A) : Task A :=
  match t with
  | Ret a => Ret a
  | Throw e => handler e
  | Call op k => Call op (fun x => try_catch (k x) handler)
  end.

Definition call (op : Op) : Task (Resp op) := Call op Ret.

(** [await] of a store promise: a rejection is thrown. *)
Definition await {X : Type} (t : Task (result X)) : Task X :=
  bind t (fun r => match r with
                   | Ok x => Ret x
                   | Err e => Throw e
                   end).

(** The task runs until its next call has been answered. *)
Definition step {A : Type} (t : Task A) (w : World) : Task A * World :=
  match t with
  | Call op k => let (x, w') := Store.handle op w in (k x, w')
  | _ => (t, w)
  end.

(** The task runs alone until it settles. *)
Fixpoint run {A : Type} (t : Task A) (w : World) : Settled A * World :=
  match t with
  | Ret a => (Fulfilled a, w)
  | Throw e => (Rejected e, w)
  | Call op k => let (x, w') := Store.handle op w in run (k x) w'
  end.

Fixpoint replace {A : Type} (j : nat) (x : A) (l : list A) : list A :=
  match j, l with
  | _, [] => []
  | O, _ :: rest => x :: rest
  | S i, y :: rest => y :: replace i x rest
  end.

(** The event loop resumes the tasks in the order [picks] names them,
    one call at a time. *)
Fixpoint resume {A : Type} (picks : list nat) (ts : list (Task A)) (w : World)
  : list (Task A) * World :=
  match picks with
  | [] => (ts, w)
  | j :: rest =>
      match nth_error ts j with
      | Some t => let (t', w') := step t w in resume rest (replace j t' ts) w'
      | None => resume rest ts w
      end
  end.

(** Whatever has not settled yet runs to its end. *)
Fixpoint drain {A : Type} (ts : list (Task A)) (w : World)
  : list (Settled A) * World :=
  match ts with
  | [] => ([], w)
  | t :: rest =>
      let (s, w1) := run t w in
      let (ss, w2) := drain rest w1 in
      (s :: ss, w2)
  end.

(** [await Promise.allSettled(ts)]: the tasks interleave as [picks]
    says, all of them settle, and the outcomes come back in the order
    of [ts]. *)
Definition allSettled {A : Type} (picks : list nat) (ts : list (Task A)) (w : World)
  : list (Settled A) * World :=
  let (ts', w') := resume picks ts w in drain ts' w'.

End Async.

Notation "x <- t ;; k" := (Async.bind t (fun x => k))
  (at level 61, t at next level, right associativity).
Notation "t ;;; k" := (Async.bind t (fun _ => k))
  (at level 61, right associativity).

(* ================================================================== *)
(** * HTTP requests and responses (Express)                            *)
(* ================================================================== *)

Module Http.

(** What the middleware and the controllers read of a request:
    [req.headers['idempotency-key']], [req.body], and the two fields the
    idempotency middleware adds. *)
Record Request : Type := {
  header_idempotency_key : option string;
  body : JS.json;
  idempotencyKey : option string;
  requestHash : option string
}.

(** [res.status(code).json(payload)]. *)
Record Response : Type := {
  status_code : Z;
  payload : JS.json
}.

Definition error_payload (error detail : string) : JS.json :=
  JS.JObj [("error", JS.JStr error); ("details", JS.JArr [JS.JStr detail])].

(** A middleware either answers or hands the request on with [next()]. *)
Inductive Outcome : Type :=
| Responded (r : Response)
| Next (req : Request).

End Http.

(* ================================================================== *)
(** * middleware/idempotency.ts                                        *)
(* ================================================================== *)

Module Idempotency.

Definition is_hex (c : ascii) : bool :=
  let n := N_of_ascii c in
  ((48 <=? n) && (n <=? 57) || (97 <=? n) && (n <=? 102)
   || (65 <=? n) && (n <=? 70))%N.

Definition is_dash (c : ascii) : bool := (N_of_ascii c =? 45)%N.

(** [[1-5]] *)
Definition is_version (c : ascii) : bool :=
  let n := N_of_ascii c in ((49 <=? n) && (n <=? 53))%N.

(** [[89ab]], case-insensitive *)
Definition is_variant (c : ascii) : bool :=
  let n := N_of_ascii c in
  ((n =? 56) || (n =? 57) || (n =? 97) || (n =? 98) || (n =? 65) || (n =? 66))%N.

(** The character classes of
    [/^[0-9a-f]{8}-[0-9a-f]{4}-[1-5][0-9a-f]{3}-[89ab][0-9a-f]{3}-[0-9a-f]{12}$/i],
    position by position. *)
Definition uuid_pattern : list (ascii -> bool) :=
  (repeat is_hex 8 ++ [is_dash] ++ repeat is_hex 4 ++ [is_dash]
   ++ [is_version] ++ repeat is_hex 3 ++ [is_dash]
   ++ [is_variant] ++ repeat is_hex 3 ++ [is_dash] ++ repeat is_hex 12)%list.

Fixpoint matches (pattern : list (ascii -> bool)) (s : string) : bool :=
  match pattern, s with
  | [], EmptyString => true
  | class :: pattern', String c s' => class c && matches pattern' s'
  | _, _ => false
  end.

Definition uuidRegex_test (s : string) : bool := matches uuid_pattern s.

(** The hash of the request body, as [checkIdempotency] computes it. *)
Definition requestHash_of (body : JS.json) : string :=
  Sha256.digest_hex (JS.JSON_stringify body).

Definition hours_24 : Z := 24 * 60 * 60 * 1000.

Definition storeIdempotencyResponse
    (idempotencyKey requestHash : string) (responseData : JS.json) : Task unit :=
  Async.try_catch
    (expiresAt <- Async.call Date_now ;;
     _ <- Async.await (Async.call (IdempotencyKey_create
            {| IdempotencyKey.a_key := idempotencyKey;
               IdempotencyKey.a_requestHash := requestHash;
               IdempotencyKey.a_responseData := JS.JSON_stringify responseData;
               IdempotencyKey.a_expiresAt := expiresAt + hours_24 |})) ;;
     Ret tt)
    (fun _ => Ret tt).

Section WithParser.

(** [JSON.parse]; [None] when it throws. *)
Variable JSON_parse : string -> option JS.json.

Definition checkIdempotency (req : Http.Request) : Task Http.Outcome :=
  match Http.header_idempotency_key req with
  | None | Some EmptyString =>
      Ret (Http.Responded
             {| Http.status_code := 400;
                Http.payload := Http.error_payload "Missing idempotency key"
                                  "Idempotency-Key header is required" |})
  | Some idempotencyKey =>
      if negb (uuidRegex_test idempotencyKey) then
        Ret (Http.Responded
               {| Http.status_code := 400;
                  Http.payload := Http.error_payload "Invalid idempotency key format"
                                    "Idempotency key must be a valid UUID" |})
      else
        Async.try_catch
          (let requestHash := requestHash_of (Http.body req) in
           existingKey <- Async.await (Async.call (IdempotencyKey_findOne idempotencyKey)) ;;
           match existingKey with
           | Some existingKey =>
               if String.eqb (IdempotencyKey.requestHash existingKey) requestHash then
                 match JSON_parse (IdempotencyKey.responseData existingKey) with
                 | Some cachedResponse =>
                     Ret (Http.Responded {| Http.status_code := 200;
                                            Http.payload := cachedResponse |})
                 | None => Throw (JS.mkError "Unexpected token in JSON")
                 end
               else
                 Ret (Http.Responded
                        {| Http.status_code := 409;
                           Http.payload := Http.error_payload "Idempotency key conflict"
                             "The provided idempotency key is already used with different data" |})
           | None =>
               Ret (Http.Next {| Http.header_idempotency_key := Http.header_idempotency_key req;
                                 Http.body := Http.body req;
                                 Http.idempotencyKey := Some idempotencyKey;
                                 Http.requestHash := Some requestHash |})
           end)
          (fun _ =>
             Ret (Http.Responded
                    {| Http.status_code := 500;
                       Http.payload := Http.error_payload "Internal server error"
                                         "Failed to process idempotency check" |}))
  end.

End WithParser.

End Idempotency.

(* ================================================================== *)
(** * services/PaymentService.ts                                       *)
(* ================================================================== *)

Record CreatePaymentRequest : Type := {
  description : string;
  due_date : string;
  amount_cents : Z;
  currency : Currency;
  payer_name : string;
  payer_email : string
}.

Record CreatePaymentResponse : Type := {
  paymentId : string;
  status : Status;
  checkoutUrl : string
}.

Record ListPaymentsQuery : Type := {
  q_status : option Status;
  q_limit : option Z;
  q_cursor : option string
}.

Record ListItem : Type := {
  i_id : string;
  i_description : string;
  i_dueDate : string;
  i_amountCents : Z;
  i_currency : Currency;
  i_payerName : string;
  i_payerEmail : string;
  i_status : Status;
  i_checkoutUrl : string;
  i_createdAt : string
}.

Record ListPaymentsResponse : Type := {
  items : list ListItem;
  nextCursor : option string
}.

Record WebhookUpdateRequest : Type := {
  u_paymentId : string;
  u_newStatus : Status;
  u_reason : option string
}.

Definition CreatePaymentResponse_json (r : CreatePaymentResponse) : JS.json :=
  JS.JObj [("paymentId", JS.JStr (paymentId r));
           ("status", JS.JStr (Status_str (status r)));
           ("checkoutUrl", JS.JStr (checkoutUrl r))].

Module PaymentService.

Section WithRuntime.

(** [this.checkoutBaseUrl], from the configuration. *)
Variable checkoutBaseUrl : string.

Definition createPayment (request : CreatePaymentRequest)
    (idempotencyKey requestHash : string) : Task CreatePaymentResponse :=
  Async.try_catch
    (paymentId <- Async.call uuidv4 ;;
     let checkoutUrl := checkoutBaseUrl ++ "/" ++ paymentId in
     payment <- Async.await (Async.call (Payment_create
       {| Payment.a_id := paymentId;
          Payment.a_description := description request;
          Payment.a_dueDate := due_date request;
          Payment.a_amountCents := amount_cents request;
          Payment.a_currency := currency request;
          Payment.a_payerName := payer_name request;
          Payment.a_payerEmail := payer_email request;
          Payment.a_status := pending;
          Payment.a_checkoutUrl := checkoutUrl;
          Payment.a_idempotencyKey := idempotencyKey |})) ;;
     let response := {| paymentId := Payment.id payment;
                        status := Payment.status payment;
                        checkoutUrl := Payment.checkoutUrl payment |} in
     Idempotency.storeIdempotencyResponse idempotencyKey requestHash
       (CreatePaymentResponse_json response) ;;;
     Ret response)
    (fun error => Throw error).

(** [Math.min(query.limit || 20, 100)]: a limit of [0] is falsy. *)
Definition effective_limit (query : ListPaymentsQuery) : Z :=
  Z.min (match q_limit query with
         | Some 0 | None => 20
         | Some n => n
         end) 100.

Definition to_item (payment : Payment.t) : ListItem :=
  {| i_id := Payment.id payment;
     i_description := Payment.description payment;
     i_dueDate := Payment.dueDate payment;
     i_amountCents := Payment.amountCents payment;
     i_currency := Payment.currency payment;
     i_payerName := Payment.payerName payment;
     i_payerEmail := Payment.payerEmail payment;
     i_status := Payment.status payment;
     i_checkoutUrl := Payment.checkoutUrl payment;
     i_createdAt := JS.toISOString (Payment.createdAt payment) |}.

(** The options of the query; [None] when the cursor is not a date
    (the query is then not modelled any further and is rejected). *)
Definition find_options (query : ListPaymentsQuery) : option FindOptions :=
  let limit := effective_limit query + 1 in
  match q_cursor query with
  | None | Some EmptyString =>
      Some {| where_status := q_status query; where_createdAt_lt := None;
              limit := limit |}
  | Some cursor =>
      match JS.Date_parse cursor with
      | Some date =>
          Some {| where_status := q_status query;
                  where_createdAt_lt := Some date; limit := limit |}
      | None => None
      end
  end.

(** What [listPayments] makes of the rows the store returned. *)
Definition page_of (query : ListPaymentsQuery) (payments : list Payment.t)
  : ListPaymentsResponse :=
  let limit := effective_limit query in
  let hasNextPage := Z.of_nat (List.length payments) >? limit in
  let items := map to_item (JS.slice0 payments limit) in
  let nextCursor :=
    if hasNextPage && negb (Nat.eqb (List.length items) 0) then
      match nth_error items (List.length items - 1) with
      | Some lastItem => Some (i_createdAt lastItem)
      | None => None
      end
    else None in
  {| items := items;
     nextCursor := match nextCursor with
                   | Some EmptyString | None => None
                   | Some c => Some c
                   end |}.

Definition listPayments (query : ListPaymentsQuery) : Task ListPaymentsResponse :=
  match find_options query with
  | Some options =>
      payments <- Async.await (Async.call (Payment_findAll options)) ;;
      Ret (page_of query payments)
  | None => Throw (JS.mkError "Invalid date")
  end.

(** [validTransitions], a table keyed by the current status. *)
Definition validTransitions (currentStatus : Status) : list Status :=
  match currentStatus with
  | pending => [paid]
  | paid => [reversed]
  | reversed => []
  end.

Definition isValidStatusTransition (currentStatus newStatus : Status) : bool :=
  existsb (Status_eqb newStatus) (validTransitions currentStatus) || false.

Definition updatePaymentStatus (request : WebhookUpdateRequest) : Task unit :=
  payment <- Async.await (Async.call (Payment_findByPk (u_paymentId request))) ;;
  match payment with
  | None => Throw (JS.mkError "Payment not found")
  | Some payment =>
      if negb (isValidStatusTransition (Payment.status payment) (u_newStatus request))
      then Throw (JS.mkError ("Invalid status transition from "
                              ++ Status_str (Payment.status payment) ++ " to "
                              ++ Status_str (u_newStatus request)))
      else
        let oldStatus := Payment.status payment in
        Async.await (Async.call (Payment_update (Payment.id payment)
                                                (u_newStatus request))) ;;;
        Async.await (Async.call (PaymentHistory_create
          {| PaymentHistory.a_paymentId := Payment.id payment;
             PaymentHistory.a_oldStatus := oldStatus;
             PaymentHistory.a_newStatus := u_newStatus request;
             PaymentHistory.a_reason :=
               Some (JS.or_default (u_reason request) "") |})) ;;;
        Ret tt
  end.

End WithRuntime.

End PaymentService.

(* ================================================================== *)
(** * services/BatchPaymentService.ts                                  *)
(* ================================================================== *)

Record BatchError : Type := {
  code : string;
  message : string
}.

Record BatchPaymentResult : Type := {
  index : nat;
  r_paymentId : option string;
  r_status : option Status;
  error : option BatchError
}.

Record BatchPaymentResponse : Type := {
  results : list (option BatchPaymentResult);
  failed : Z;
  succeeded : Z
}.

(** The worker count and the attempt count are whole numbers (the
    configuration asks for at least 1 of each). *)
Record BatchProcessingOptions : Type := {
  maxConcurrentWorkers : nat;
  maxRetryAttempts : nat;
  retryDelayMs : Z
}.

Definition option_field (name : string) (x : option JS.json) : list (string * JS.json) :=
  match x with
  | Some v => [(name, v)]
  | None => []
  end.

Definition BatchPaymentResult_json (r : BatchPaymentResult) : JS.json :=
  JS.JObj ([("index", JS.JNum (Z.of_nat (index r)))]
           ++ option_field "paymentId" (option_map JS.JStr (r_paymentId r))
           ++ option_field "status"
                (option_map (fun s => JS.JStr (Status_str s)) (r_status r))
           ++ option_field "error"
                (option_map (fun e => JS.JObj [("code", JS.JStr (code e));
                                               ("message", JS.JStr (message e))])
                            (error r)))%list.

Definition BatchPaymentResponse_json (r : BatchPaymentResponse) : JS.json :=
  JS.JObj [("results",
            JS.JArr (map (fun slot => match slot with
                                      | Some x => BatchPaymentResult_json x
                                      | None => JS.JNull
                                      end) (results r)));
           ("failed", JS.JNum (failed r));
           ("succeeded", JS.JNum (succeeded r))].

Module BatchPaymentService.

Section WithService.

(** [this.paymentService.createPayment] and [this.options]. *)
Variable createPayment :
  CreatePaymentRequest -> string -> string -> Task CreatePaymentResponse.
Variable options : BatchProcessingOptions.

Definition delay (ms : Z) : Task unit := Async.call (setTimeout ms).

(** The loop of [processPaymentWithRetry] from attempt [attempt] on,
    [remaining] being the attempts still allowed, that one included. *)
Fixpoint attempts_from (remaining : nat) (attempt : nat)
    (lastError : option JS.Error)
    (payment : CreatePaymentRequest) (index : nat) : Task BatchPaymentResult :=
  match remaining with
  | O =>
      Ret {| index := index; r_paymentId := None; r_status := None;
             error := Some
               {| code := "max_retries_exceeded";
                  message := JS.or_default (option_map JS.message lastError)
                               "Payment processing failed after all retry attempts" |} |}
  | S remaining' =>
      Async.try_catch
        (u <- Async.call uuidv4 ;;
         let paymentIdempotencyKey := u ++ "-" ++ JS.of_nat index in
         let requestHash := "batch-payment" in
         result <- createPayment payment paymentIdempotencyKey requestHash ;;
         Ret {| index := index;
                r_paymentId := Some (paymentId result);
                r_status := Some (status result);
                error := None |})
        (fun error =>
           (if (attempt <? maxRetryAttempts options)%nat
            then delay (retryDelayMs options * Z.of_nat attempt)
            else Ret tt) ;;;
           attempts_from remaining' (S attempt) (Some error) payment index)
  end.

Definition processPaymentWithRetry (payment : CreatePaymentRequest) (index : nat)
  : Task BatchPaymentResult :=
  attempts_from (maxRetryAttempts options) 1 None payment index.

(** [arr.map((x, i) => f x i)], the indices starting at [from]. *)
Fixpoint map_indexed {A B : Type} (f : A -> nat -> B) (from : nat) (arr : list A)
  : list B :=
  match arr with
  | [] => []
  | x :: rest => f x from :: map_indexed f (S from) rest
  end.

(** The running totals of [processBatch]. *)
Record Totals : Type := {
  t_results : list (option BatchPaymentResult);
  t_succeeded : Z;
  t_failed : Z
}.

(** The body of [chunkResults.forEach]. *)
Definition record_settled (totals : Totals) (globalIndex : nat)
    (result : Settled BatchPaymentResult) : Totals :=
  match result with
  | Fulfilled value =>
      {| t_results := JS.set_index (t_results totals) globalIndex value;
         t_succeeded := match error value with
                        | Some _ => t_succeeded totals
                        | None => t_succeeded totals + 1
                        end;
         t_failed := match error value with
                     | Some _ => t_failed totals + 1
                     | None => t_failed totals
                     end |}
  | Rejected reason =>
      {| t_results := JS.set_index (t_results totals) globalIndex
           {| index := globalIndex; r_paymentId := None; r_status := None;
              error := Some {| code := "processing_error";
                               message := JS.or_string (JS.message reason)
                                            "Unknown error occurred" |} |};
         t_succeeded := t_succeeded totals;
         t_failed := t_failed totals + 1 |}
  end.

Fixpoint forEach_settled (totals : Totals) (i : nat)
    (chunkResults : list (Settled BatchPaymentResult)) : Totals :=
  match chunkResults with
  | [] => totals
  | result :: rest => forEach_settled (record_settled totals i result) (S i) rest
  end.

(** The [for (let i = 0; i < payments.length; i += W)] loop; [sched i]
    is the order in which the event loop resumes the tasks of the chunk
    that starts at [i]. [None]: the loop is still running after [fuel]
    rounds. *)
Fixpoint chunks_from (fuel : nat) (sched : nat -> list nat)
    (payments : list CreatePaymentRequest) (i : nat) (totals : Totals) (w : World)
  : option (Totals * World) :=
  match fuel with
  | O => None
  | S fuel' =>
      if (i <? List.length payments)%nat then
        let chunk := JS.slice payments i (i + maxConcurrentWorkers options) in
        let chunkPromises := map_indexed processPaymentWithRetry i chunk in
        let (chunkResults, w1) := Async.allSettled (sched i) chunkPromises w in
        chunks_from fuel' sched payments (i + maxConcurrentWorkers options)
          (forEach_settled totals i chunkResults) w1
      else Some (totals, w)
  end.

(** [processBatch]; [None] when the chunk loop never ends (a worker
    count of 0 with a batch that is not empty). *)
Definition processBatch (sched : nat -> list nat)
    (payments : list CreatePaymentRequest)
    (idempotencyKey requestHash : string) (w : World)
  : option (Settled BatchPaymentResponse * World) :=
  if (100 <? List.length payments)%nat then
    Some (Rejected (JS.mkError "Maximum 100 payments allowed per batch"), w)
  else
    match chunks_from (S (List.length payments)) sched payments 0
            {| t_results := []; t_succeeded := 0; t_failed := 0 |} w with
    | None => None
    | Some (totals, w1) =>
        let response := {| results := t_results totals;
                           failed := t_failed totals;
                           succeeded := t_succeeded totals |} in
        match Async.run (Idempotency.storeIdempotencyResponse idempotencyKey
                           requestHash (BatchPaymentResponse_json response)) w1 with
        | (Fulfilled _, w2) => Some (Fulfilled response, w2)
        | (Rejected e, w2) => Some (Rejected e, w2)
        end
    end.

End WithService.

End BatchPaymentService.

(* ================================================================== *)
(** * controllers                                                      *)
(* ================================================================== *)

Module PaymentController.

Section WithService.

Variable createPayment_service :
  CreatePaymentRequest -> string -> string -> Task CreatePaymentResponse.

(** How the service reads the validated body: plain property access. *)
Definition as_string (x : option JS.json) : option string :=
  match x with
  | Some (JS.JStr s) => Some s
  | _ => None
  end.

Definition body_request (body : JS.json) : option CreatePaymentRequest :=
  match body with
  | JS.JObj fields =>
      match as_string (JS.get "description" fields),
            as_string (JS.get "due_date" fields),
            JS.get "amount_cents" fields,
            as_string (JS.get "currency" fields),
            JS.get "payer" fields with
      | Some d, Some due, Some (JS.JNum cents), Some cur, Some (JS.JObj payer) =>
          match (if String.eqb cur "USD" then Some USD
                 else if String.eqb cur "ARS" then Some ARS else None),
                as_string (JS.get "name" payer),
                as_string (JS.get "email" payer) with
          | Some c, Some name, Some email =>
              Some {| description := d; due_date := due; amount_cents := cents;
                      currency := c; payer_name := name; payer_email := email |}
          | _, _, _ => None
          end
      | _, _, _, _, _ => None
      end
  | _ => None
  end.

Definition internal_error (detail : string) : Http.Response :=
  {| Http.status_code := 500;
     Http.payload := Http.error_payload "Internal server error" detail |}.

Definition createPayment (req : Http.Request) : Task Http.Response :=
  Async.try_catch
    (match Http.idempotencyKey req, Http.requestHash req with
     | Some (String c k), Some (String c' h) =>
         match body_request (Http.body req) with
         | Some request =>
             result <- createPayment_service request (String c k) (String c' h) ;;
             Ret {| Http.status_code := 201;
                    Http.payload := CreatePaymentResponse_json result |}
         | None => Throw (JS.mkError "Cannot read properties of undefined")
         end
     | _, _ => Ret (internal_error "Idempotency information missing")
     end)
    (fun _ => Ret (internal_error "Failed to create payment")).

End WithService.

End PaymentController.

Module WebhookController.

Section WithService.

Variable updatePaymentStatus : WebhookUpdateRequest -> Task unit.

(** [simulateStatusUpdate], from the request fields on; the answer is
    the status code and the message. *)
Definition simulateStatusUpdate (request : WebhookUpdateRequest) : Task Http.Response :=
  Async.try_catch
    (updatePaymentStatus request ;;;
     Ret {| Http.status_code := 200;
            Http.payload :=
              JS.JObj ([("message", JS.JStr "Payment status updated successfully");
                        ("payment_id", JS.JStr (u_paymentId request));
                        ("new_status", JS.JStr (Status_str (u_newStatus request)))]
                       ++ option_field "reason" (option_map JS.JStr (u_reason request)))%list |})
    (fun error =>
       if JS.includes (JS.message error) "Payment not found" then
         Ret {| Http.status_code := 404;
                Http.payload := Http.error_payload "Payment not found" (JS.message error) |}
       else if JS.includes (JS.message error) "Invalid status transition" then
         Ret {| Http.status_code := 422;
                Http.payload := Http.error_payload "Invalid status transition"
                                  (JS.message error) |}
       else
         Ret {| Http.status_code := 500;
                Http.payload := Http.error_payload "Internal server error"
                                  "Failed to update payment status" |}).

End WithService.

End WebhookController.

(** The route [POST /payments]: [checkIdempotency], then the schema
    validation, then the controller. [schema_errors] is what Joi finds
    wrong with a body (nothing, for a valid one). *)
Module Routes.

Section WithRuntime.

Variable JSON_parse : string -> option JS.json.
Variable schema_errors : JS.json -> list string.
Variable checkoutBaseUrl : string.

Definition validateRequest (req : Http.Request) : option Http.Response :=
  match schema_errors (Http.body req) with
  | [] => None
  | details =>
      Some {| Http.status_code := 400;
              Http.payload := JS.JObj [("error", JS.JStr "Validation failed");
                                       ("details", JS.JArr (map JS.JStr details))] |}
  end.

Definition post_payments (req : Http.Request) : Task Http.Response :=
  outcome <- Idempotency.checkIdempotency JSON_parse req ;;
  match outcome with
  | Http.Responded r => Ret r
  | Http.Next req' =>
      match validateRequest req' with
      | Some r => Ret r
      | None =>
          PaymentController.createPayment
            (PaymentService.createPayment checkoutBaseUrl) req'
      end
  end.

End WithRuntime.

End Routes.

(* ================================================================== *)
(** * The rest of the payment service                                  *)
(* ================================================================== *)

Module PaymentLookup.


End PaymentLookup.

(* ================================================================== *)
(** * middleware/auth.ts and routes/webhookRoutes.ts                   *)
(* ================================================================== *)

Module Webhook.

(** What the webhook middleware and the controller read of a request:
    [req.headers['x-webhook-token']], [req.body], and the field that
    [authenticateWebhook] adds. *)
Record Request : Type := {
  header_x_webhook_token : option string;
  body : JS.json;
  webhookToken : option string
}.

Inductive Outcome : Type :=
| Responded (r : Http.Response)
| Next (req : Request).

Section WithEnvironment.

(** [process.env.WEBHOOK_TOKEN] *)
Variable WEBHOOK_TOKEN : option string.

Definition authenticateWebhook (req : Request) : Outcome :=
  match header_x_webhook_token req with
  | None | Some EmptyString =>
      Responded {| Http.status_code := 401;
                   Http.payload := Http.error_payload "Missing webhook token"
                                     "X-Webhook-Token header is required" |}
  | Some webhookToken =>
      match WEBHOOK_TOKEN with
      | None | Some EmptyString =>
          Responded {| Http.status_code := 500;
                       Http.payload := Http.error_payload "Server configuration error"
                                         "Webhook token not configured" |}
      | Some expectedToken =>
          if negb (String.eqb webhookToken expectedToken) then
            Responded {| Http.status_code := 401;
                         Http.payload := Http.error_payload "Invalid webhook token"
                                           "The provided webhook token is invalid" |}
          else
            Next {| header_x_webhook_token := header_x_webhook_token req;
                    body := body req;
                    webhookToken := Some webhookToken |}
      end
  end.

(** What Joi finds wrong with a body under [webhookSchema]. *)
Variable schema_errors : JS.json -> list string.

(** [validateRequest(webhookSchema)] *)
Definition validateRequest (req : Request) : option Http.Response :=
  match schema_errors (body req) with
  | [] => None
  | details =>
      Some {| Http.status_code := 400;
              Http.payload := JS.JObj [("error", JS.JStr "Validation failed");
                                       ("details", JS.JArr (map JS.JStr details))] |}
  end.

Definition status_of (s : string) : option Status :=
  if String.eqb s "pending" then Some pending
  else if String.eqb s "paid" then Some paid
  else if String.eqb s "reversed" then Some reversed
  else None.

(** [const { payment_id, new_status, reason } = req.body], for the
    bodies whose [payment_id] is a string, whose [new_status] is one of
    the three statuses and whose [reason] is a string or absent. *)
Definition body_update (body : JS.json) : option WebhookUpdateRequest :=
  match body with
  | JS.JObj fields =>
      match PaymentController.as_string (JS.get "payment_id" fields),
            PaymentController.as_string (JS.get "new_status" fields) with
      | Some payment_id, Some new_status =>
          match status_of new_status, JS.get "reason" fields with
          | Some s, None =>
              Some {| u_paymentId := payment_id; u_newStatus := s; u_reason := None |}
          | Some s, Some (JS.JStr reason) =>
              Some {| u_paymentId := payment_id; u_newStatus := s;
                      u_reason := Some reason |}
          | _, _ => None
          end
      | _, _ => None
      end
  | _ => None
  end.

(** The route [POST /webhooks/simulate]: [authenticateWebhook], then
    the schema validation, then the controller. [None] for a body that
    passed the validation and is not one [body_update] reads. *)
Definition post_simulate (req : Request) : option (Task Http.Response) :=
  match authenticateWebhook req with
  | Responded r => Some (Ret r)
  | Next req' =>
      match validateRequest req' with
      | Some r => Some (Ret r)
      | None =>
          option_map (WebhookController.simulateStatusUpdate
                        PaymentService.updatePaymentStatus)
                     (body_update (body req'))
      end
  end.

End WithEnvironment.

End Webhook.

(* ================================================================== *)
(** * controllers/BatchPaymentController.ts                            *)
(* ================================================================== *)

Module BatchPaymentController.

(** What the controller reads of the request: the two fields the
    idempotency middleware added, and [req.body.payments]. *)
Record Request : Type := {
  idempotencyKey : option string;
  requestHash : option string;
  body_payments : list CreatePaymentRequest
}.

Section WithService.

(** [this.batchPaymentService.processBatch]; [None] when it never
    settles. *)
Variable processBatch_service :
  list CreatePaymentRequest -> string -> string -> World ->
  option (Settled BatchPaymentResponse * World).

Definition processBatch (req : Request) (w : World) : option (Http.Response * World) :=
  match idempotencyKey req, requestHash req with
  | Some (String c k), Some (String c' h) =>
      match processBatch_service (body_payments req) (String c k) (String c' h) w with
      | Some (Fulfilled result, w') =>
          Some ({| Http.status_code := 200;
                   Http.payload := BatchPaymentResponse_json result |}, w')
      | Some (Rejected error, w') =>
          Some (if JS.includes (JS.message error) "Maximum 100 payments" then
                  {| Http.status_code := 400;
                     Http.payload := Http.error_payload "Validation failed"
                                       (JS.message error) |}
                else PaymentController.internal_error "Failed to process batch payments",
                w')
      | None => None
      end
  | _, _ => Some (PaymentController.internal_error "Idempotency information missing", w)
  end.

End WithService.

End BatchPaymentController.

(* ================================================================== *)
(** * controllers/PaymentController.ts: listPayments                   *)
(* ================================================================== *)

Definition ListItem_json (item : ListItem) : JS.json :=
  JS.JObj [("id", JS.JStr (i_id item));
           ("description", JS.JStr (i_description item));
           ("dueDate", JS.JStr (i_dueDate item));
           ("amountCents", JS.JNum (i_amountCents item));
           ("currency", JS.JStr (Currency_str (i_currency item)));
           ("payerName", JS.JStr (i_payerName item));
           ("payerEmail", JS.JStr (i_payerEmail item));
           ("status", JS.JStr (Status_str (i_status item)));
           ("checkoutUrl", JS.JStr (i_checkoutUrl item));
           ("createdAt", JS.JStr (i_createdAt item))].

Definition ListPaymentsResponse_json (r : ListPaymentsResponse) : JS.json :=
  JS.JObj ([("items", JS.JArr (map ListItem_json (items r)))]
           ++ option_field "nextCursor" (option_map JS.JStr (nextCursor r)))%list.

Module PaymentListing.

(** [req.query], as the controller reads it: the status (one of the
    three, when given), and the texts of the limit and of the cursor. *)
Record Query : Type := {
  query_status : option Status;
  query_limit : option string;
  query_cursor : option string
}.

Section WithRuntime.

(** [parseInt]; [None] is [NaN]. *)
Variable parseInt : string -> option Z.

(** The query object the controller builds. A limit that is [NaN] is
    falsy where [listPayments] reads it, like a limit that is absent. *)
Definition query_of (q : Query) : ListPaymentsQuery :=
  {| q_status := query_status q;
     q_limit := match query_limit q with
                | None | Some EmptyString => None
                | Some text => parseInt text
                end;
     q_cursor := match query_cursor q with
                 | None | Some EmptyString => None
                 | Some cursor => Some cursor
                 end |}.

Definition listPayments (q : Query) : Task Http.Response :=
  Async.try_catch
    (result <- PaymentService.listPayments (query_of q) ;;
     Ret {| Http.status_code := 200;
            Http.payload := ListPaymentsResponse_json result |})
    (fun _ => Ret (PaymentController.internal_error "Failed to list payments")).

End WithRuntime.

End PaymentListing.

(* ================================================================== *)
(** * middleware/logging.ts: the helpers                               *)
(* ================================================================== *)

Module Logging.

(** Truthiness of a value. *)
Definition truthy (v : JS.json) : bool :=
  match v with
  | JS.JNull => false
  | JS.JBool b => b
  | JS.JNum n => negb (n =? 0)
  | JS.JStr s => negb (String.eqb s "")
  | JS.JArr _ | JS.JObj _ => true
  end.

(** [obj[name] = v]: the value of an own property is replaced where the
    property stands; a new property goes to the end. *)
Fixpoint set (name : string) (v : JS.json) (fields : list (string * JS.json))
  : list (string * JS.json) :=
  match fields with
  | [] => [(name, v)]
  | (k, x) :: rest =>
      if String.eqb k name then (k, v) :: rest else (k, x) :: set name v rest
  end.

Definition sensitiveHeaders : list string :=
  ["authorization"; "cookie"; "x-api-key"; "x-webhook-token"; "idempotency-key"].

Definition sanitizeHeaders (headers : list (string * JS.json))
  : list (string * JS.json) :=
  fold_left (fun sanitized header =>
               match JS.get header sanitized with
               | Some v => if truthy v then set header (JS.JStr "[REDACTED]") sanitized
                           else sanitized
               | None => sanitized
               end)
            sensitiveHeaders headers.

Definition auditEndpoints : list string :=
  ["/api/v1/payments"; "/api/v1/payments/batch"; "/api/v1/webhooks/simulate"].

(** [shouldAuditRequest], of [req.path] and [req.method]. *)
Definition shouldAuditRequest (path method : string) : bool :=
  existsb (fun endpoint => String.prefix endpoint path && negb (String.eqb method "GET"))
          auditEndpoints.

(** What [getClientIP] reads of a request. *)
Record Peer : Type := {
  x_forwarded_for : option string;
  x_real_ip : option string;
  connection_remoteAddress : option string;
  socket_remoteAddress : option string
}.

(** [text.split(',')[0]] *)
Fixpoint before_comma (text : string) : string :=
  match text with
  | EmptyString => ""
  | String c rest => if Ascii.eqb c "," then "" else String c (before_comma rest)
  end.

(** [a || b] where both may be [undefined]. *)
Definition or_else (a b : option string) : option string :=
  match a with
  | Some (String _ _) => a
  | _ => b
  end.

Definition getClientIP (req : Peer) : string :=
  JS.or_default
    (or_else (or_else (or_else (option_map before_comma (x_forwarded_for req))
                               (x_real_ip req))
                      (connection_remoteAddress req))
             (socket_remoteAddress req))
    "unknown".

End Logging.

(* ================================================================== *)
(** * routes/paymentRoutes.ts: the batch route                         *)
(* ================================================================== *)

Module BatchRoute.

(** [const { payments } = req.body], for the bodies whose [payments]
    is an array of payment requests as [PaymentController.body_request]
    reads them. *)
Fixpoint all_read (items : list (option CreatePaymentRequest))
  : option (list CreatePaymentRequest) :=
  match items with
  | [] => Some []
  | Some request :: rest => option_map (cons request) (all_read rest)
  | None :: _ => None
  end.

Definition body_batch (body : JS.json) : option (list CreatePaymentRequest) :=
  match body with
  | JS.JObj fields =>
      match JS.get "payments" fields with
      | Some (JS.JArr items) => all_read (map PaymentController.body_request items)
      | _ => None
      end
  | _ => None
  end.

Section WithRuntime.

Variable JSON_parse : string -> option JS.json.
Variable schema_errors : JS.json -> list string.
Variable checkoutBaseUrl : string.
Variable options : BatchProcessingOptions.
Variable sched : nat -> list nat.

(** The route [POST /payments/batch]: [checkIdempotency], then the
    schema validation, then the controller over the batch service and
    the payment service. [None] when the batch never settles, and for a
    body that passed the validation and is not one [body_batch] reads
    (the middleware itself never rejects). *)
Definition post_batch (req : Http.Request) (w : World) : option (Http.Response * World) :=
  match Async.run (Idempotency.checkIdempotency JSON_parse req) w with
  | (Fulfilled (Http.Responded r), w1) => Some (r, w1)
  | (Fulfilled (Http.Next req'), w1) =>
      match schema_errors (Http.body req') with
      | [] =>
          match body_batch (Http.body req') with
          | Some payments =>
              BatchPaymentController.processBatch
                (BatchPaymentService.processBatch
                   (PaymentService.createPayment checkoutBaseUrl) options sched)
                {| BatchPaymentController.idempotencyKey := Http.idempotencyKey req';
                   BatchPaymentController.requestHash := Http.requestHash req';
                   BatchPaymentController.body_payments := payments |}
                w1
          | None => None
          end
      | details =>
          Some ({| Http.status_code := 400;
                   Http.payload :=
                     JS.JObj [("error", JS.JStr "Validation failed");
                              ("details", JS.JArr (map JS.JStr details))] |}, w1)
      end
  | (Rejected error, w1) => None
  end.

End WithRuntime.

End BatchRoute.

(* ================================================================== *)
(** * Vocabulary of the properties                                     *)
(* ================================================================== *)

(** The two transitions of the payment life cycle. *)
Definition allowed_transition (current requested : Status) : Prop :=
  (current = pending /\ requested = paid) \/ (current = paid /\ requested = reversed).

(** The store answers its [n] next calls without failing. *)
Definition store_answers (n : nat) (w : World) : Prop :=
  forall j, (j < n)%nat -> db_fault w (db_calls w + j) = None.

(** The tables of two worlds are the same: nothing was written. *)
Definition same_tables (w w' : World) : Prop :=
  payments w' = payments w
  /\ payment_histories w' = payment_histories w
  /\ idempotency_keys w' = idempotency_keys w.

(** The row [PaymentHistory.create] is asked to write for a transition. *)
Definition records_transition (h : PaymentHistory.t) (payment : Payment.t)
    (request : WebhookUpdateRequest) : Prop :=
  PaymentHistory.paymentId h = Payment.id payment
  /\ PaymentHistory.oldStatus h = Payment.status payment
  /\ PaymentHistory.newStatus h = u_newStatus request
  /\ PaymentHistory.reason h = Some (JS.or_default (u_reason request) "").

(** The payments table once [payment] has been given the status [s]. *)
Definition payments_after_update (w : World) (payment : Payment.t) (s : Status)
  : list Payment.t :=
  map (fun p => if String.eqb (Payment.id p) (Payment.id payment)
                then Payment.with_status p s (now w) else p)
      (payments w).

(** "Both writes or neither": after the call, either no table has changed,
    or the payments table has changed and the history has one more row. *)
Definition both_writes_or_neither (w : World) (request : WebhookUpdateRequest) : Prop :=
  let w' := snd (Async.run (PaymentService.updatePaymentStatus request) w) in
  (payments w' = payments w /\ payment_histories w' = payment_histories w)
  \/ (payments w' <> payments w
      /\ exists h, payment_histories w' = (payment_histories w ++ [h])%list).

(** Every way the task can end satisfies [P], whatever its calls are
    answered. *)
Fixpoint always {A : Type} (P : Settled A -> Prop) (t : Task A) : Prop :=
  match t with
  | Ret a => P (Fulfilled a)
  | Throw e => P (Rejected e)
  | Call op k => forall x, always P (k x)
  end.

(** [s] is a way the task can end: what it settles with when its calls
    are answered in some way. *)
Inductive outcome {A : Type} : Task A -> Settled A -> Prop :=
| outcome_ret (a : A) : outcome (Ret a) (Fulfilled a)
| outcome_throw (e : JS.Error) : outcome (Throw e) (Rejected e)
| outcome_call (op : Op) (k : Resp op -> Task A) (x : Resp op) (s : Settled A) :
    outcome (k x) s -> outcome (Call op k) s.

(** A property of the world that no call can break. *)
Definition invariant (I : World -> Prop) : Prop :=
  forall op w, I w -> I (snd (Store.handle op w)).

(** Every way the task can end satisfies [P], as long as each of its
    calls is answered by the store in a world where [I] holds (other tasks
    may have run in between). *)
Fixpoint always_in {A : Type} (I : World -> Prop) (P : Settled A -> Prop) (t : Task A)
  : Prop :=
  match t with
  | Ret a => P (Fulfilled a)
  | Throw e => P (Rejected e)
  | Call op k => forall w, I w -> always_in I P (k (fst (Store.handle op w)))
  end.

(** Each task of the list can only end as its index allows. *)
Definition each_always_in {A : Type} (I : World -> Prop)
    (P : nat -> Settled A -> Prop) (ts : list (Task A)) : Prop :=
  forall j t, nth_error ts j = Some t -> always_in I (P j) t.

(** The storage engine is down: every store call fails. *)
Definition store_down (w : World) : Prop := forall n, db_fault w n <> None.

(** [a] was created strictly after [b]; [a] was created no earlier than
    [b]. *)
Definition newer (a b : Payment.t) : Prop := Payment.createdAt a > Payment.createdAt b.
Definition not_older (a b : Payment.t) : Prop :=
  Payment.createdAt a >= Payment.createdAt b.

(** All the rows a query selects, in the order of the listing. *)
Definition selected (options : FindOptions) (w : World) : list Payment.t :=
  Store.order_desc (filter (Store.matches options) (payments w)).

(** The same query, continued from a cursor. *)
Definition continued (query : ListPaymentsQuery) (cursor : string) : ListPaymentsQuery :=
  {| q_status := q_status query; q_limit := q_limit query; q_cursor := Some cursor |}.

(** The pages of a listing, one after the other, each asked for with
    the cursor the page before it returned. *)
Fixpoint enumerate (pages : nat) (query : ListPaymentsQuery) (w : World) : list ListItem :=
  match pages with
  | O => []
  | S pages' =>
      match Async.run (PaymentService.listPayments query) w with
      | (Fulfilled page, w') =>
          (items page
           ++ match nextCursor page with
              | Some cursor => enumerate pages' (continued query cursor) w'
              | None => []
              end)%list
      | (Rejected _, _) => []
      end
  end.

(** "The pages skip nothing": every payment of the table that the query
    selects is on one of its pages. *)
Definition skips_nothing (query : ListPaymentsQuery) (w : World) : Prop :=
  forall p,
    In p (payments w) ->
    (forall s, q_status query = Some s -> Payment.status p = s) ->
    In (Payment.id p)
       (map i_id (enumerate (S (List.length (payments w))) query w)).







(** The timers [d * 1, d * 2, ..., d * n]. *)
Definition backoff_delays (d : Z) (n : nat) : list Z :=
  map (fun k => d * Z.of_nat k) (seq 1 n).

(** A result has one of the two shapes of [BatchPaymentResult]: a payment
    id with its status, or an error with a code and a message. *)
Definition well_formed_result (r : BatchPaymentResult) : Prop :=
  (exists id s, r_paymentId r = Some id /\ r_status r = Some s /\ error r = None)
  \/ (exists e, error r = Some e /\ r_paymentId r = None /\ r_status r = None
                /\ message e <> "").

Definition has_error (slot : option BatchPaymentResult) : bool :=
  match slot with
  | Some r => match error r with Some _ => true | None => false end
  | None => false
  end.

Definition has_payment (slot : option BatchPaymentResult) : bool :=
  match slot with
  | Some r => match error r with Some _ => false | None => true end
  | None => false
  end.

(** The totals of [processBatch] when the first [m] payments have been
    settled: [m] slots, none of them a hole, the two counters counting
    them, and every slot related to its payment by [Slot]. *)
Definition settled_so_far
    (Slot : nat -> CreatePaymentRequest -> BatchPaymentResult -> Prop)
    (payments : list CreatePaymentRequest) (totals : BatchPaymentService.Totals)
    (m : nat) : Prop :=
  List.length (BatchPaymentService.t_results totals) = m
  /\ BatchPaymentService.t_succeeded totals + BatchPaymentService.t_failed totals
     = Z.of_nat m
  /\ BatchPaymentService.t_succeeded totals
     = Z.of_nat (List.length (filter has_payment (BatchPaymentService.t_results totals)))
  /\ BatchPaymentService.t_failed totals
     = Z.of_nat (List.length (filter has_error (BatchPaymentService.t_results totals)))
  /\ (forall j, (j < m)%nat ->
        exists item r,
          nth_error payments j = Some item
          /\ nth_error (BatchPaymentService.t_results totals) j = Some (Some r)
          /\ Slot j item r).




(** The answer to a request whose key is in use with another payload. *)
Definition conflict_response : Http.Response :=
  {| Http.status_code := 409;
     Http.payload := Http.error_payload "Idempotency key conflict"
       "The provided idempotency key is already used with different data" |}.

(** The response names the key: the key occurs in the serialized body. *)
Definition names_key (r : Http.Response) (key : string) : bool :=
  JS.includes (JS.JSON_stringify (Http.payload r)) key.

(** "The conflict names the key": the request is answered 409 and the
    key can be read in the answer. *)
Definition conflict_names_key (JSON_parse : string -> option JS.json)
    (w : World) (req : Http.Request) (key : string) : Prop :=
  exists r, fst (Async.run (Idempotency.checkIdempotency JSON_parse req) w)
            = Fulfilled (Http.Responded r)
            /\ Http.status_code r = 409
            /\ names_key r key = true.

(* ------------------------------------------------------------------ *)
(** ** Worlds and requests used as examples                            *)
(* ------------------------------------------------------------------ *)

Module Example.

Definition uuid_of (n : nat) : string :=
  "3f2b8c1e-0000-4000-8000-" ++ JS.zero_padded 12 (Z.of_nat n).

Definition base_url : string := "https://sandbox.hibe.local/checkout".

Definition payment_at (id key : string) (s : Status) (created : Z) : Payment.t :=
  {| Payment.id := id; Payment.description := "Consulting";
     Payment.dueDate := "2026-01-15"; Payment.amountCents := 50000;
     Payment.currency := USD; Payment.payerName := "John Doe";
     Payment.payerEmail := "john.doe@example.com"; Payment.status := s;
     Payment.checkoutUrl := base_url ++ "/" ++ id;
     Payment.idempotencyKey := key;
     Payment.createdAt := created; Payment.updatedAt := created |}.

Definition t0 : Z := 1756080000000.

Definition world_of (rows : list Payment.t) (keys : list IdempotencyKey.t)
    (fault : nat -> option string) : World :=
  {| payments := rows; payment_histories := []; idempotency_keys := keys;
     now := t0 + 5000; uuid_at := uuid_of; uuid_next := 0;
     db_fault := fault; db_calls := 0; timeouts := [] |}.

Definition healthy : nat -> option string := fun _ => None.

(** The store fails its call number [n] (from 0) and no other. *)
Definition fails_at (n : nat) : nat -> option string :=
  fun k => if Nat.eqb k n then Some "SQLITE_BUSY: database is locked" else None.

Definition pending_payment : Payment.t :=
  payment_at "9b2d5c1a-7e4f-4c3b-8a1d-2f6e5d4c3b2a"
             "0a1b2c3d-4e5f-4a6b-8c7d-9e0f1a2b3c4d" pending t0.

Definition mark_paid : WebhookUpdateRequest :=
  {| u_paymentId := "9b2d5c1a-7e4f-4c3b-8a1d-2f6e5d4c3b2a";
     u_newStatus := paid; u_reason := None |}.

Definition one_pending : World := world_of [pending_payment] [] healthy.

(** The same world, but the history write is going to fail. *)
Definition history_write_fails : World :=
  world_of [pending_payment] [] (fails_at 2).

Definition key_1 : string := "123e4567-e89b-42d3-a456-426614174000".

Definition body_of (cents : Z) : JS.json :=
  JS.JObj [("description", JS.JStr "Payment for consulting services");
           ("due_date", JS.JStr "2026-01-15");
           ("amount_cents", JS.JNum cents);
           ("currency", JS.JStr "USD");
           ("payer", JS.JObj [("name", JS.JStr "John Doe");
                              ("email", JS.JStr "john.doe@example.com")])].

Definition request_of (key : string) (body : JS.json) : Http.Request :=
  {| Http.header_idempotency_key := Some key; Http.body := body;
     Http.idempotencyKey := None; Http.requestHash := None |}.

Definition created : CreatePaymentResponse :=
  {| paymentId := "9b2d5c1a-7e4f-4c3b-8a1d-2f6e5d4c3b2a"; status := pending;
     checkoutUrl := base_url ++ "/9b2d5c1a-7e4f-4c3b-8a1d-2f6e5d4c3b2a" |}.

(** The record left by a first request with [key_1] and 50000 cents. *)
Definition record_1 : IdempotencyKey.t :=
  {| IdempotencyKey.id := "5e0d2c4b-1a3f-4b6c-9d8e-7f6a5b4c3d2e";
     IdempotencyKey.key := key_1;
     IdempotencyKey.requestHash := Idempotency.requestHash_of (body_of 50000);
     IdempotencyKey.responseData :=
       JS.JSON_stringify (CreatePaymentResponse_json created);
     IdempotencyKey.expiresAt := t0 + Idempotency.hours_24;
     IdempotencyKey.createdAt := t0 |}.

Definition after_first_request : World :=
  world_of [payment_at "9b2d5c1a-7e4f-4c3b-8a1d-2f6e5d4c3b2a" key_1 pending t0]
           [record_1] healthy.

Definition empty_world : World := world_of [] [] healthy.

(** A [JSON.parse] that reads the one text it is given the value of. *)
Definition parse_only (v : JS.json) : string -> option JS.json :=
  fun text => if String.eqb text (JS.JSON_stringify v) then Some v else None.

Definition no_errors : JS.json -> list string := fun _ => [].

Definition request_1 : CreatePaymentRequest :=
  {| description := "Payment for consulting services"; due_date := "2026-01-15";
     amount_cents := 50000; currency := USD; payer_name := "John Doe";
     payer_email := "john.doe@example.com" |}.

(** What the first request with [key_1] is answered in [empty_world]. *)
Definition created_first : JS.json :=
  CreatePaymentResponse_json
    {| paymentId := uuid_of 0; status := pending;
       checkoutUrl := base_url ++ "/" ++ uuid_of 0 |}.

Definition three_payments : list CreatePaymentRequest :=
  [request_1; request_1; request_1].

Definition two_workers : BatchProcessingOptions :=
  {| maxConcurrentWorkers := 2; maxRetryAttempts := 3; retryDelayMs := 1000 |}.

(** An order in which the event loop resumes the tasks of a chunk. *)
Definition second_first : nat -> list nat := fun _ => [1; 1; 0; 1; 0; 0; 1]%nat.

(** A creation call that always fails, as the unit tests mock it. *)
Definition always_failing
  : CreatePaymentRequest -> string -> string -> Task CreatePaymentResponse :=
  fun _ _ _ => Throw (JS.mkError "Persistent failure").

(** Five payments created one second apart, oldest first. *)
Definition five_payments : list Payment.t :=
  [payment_at "a0000000-0000-4000-8000-000000000001" "k-a" pending t0;
   payment_at "b0000000-0000-4000-8000-000000000002" "k-b" pending (t0 + 1000);
   payment_at "c0000000-0000-4000-8000-000000000003" "k-c" pending (t0 + 2000);
   payment_at "d0000000-0000-4000-8000-000000000004" "k-d" pending (t0 + 3000);
   payment_at "e0000000-0000-4000-8000-000000000005" "k-e" pending (t0 + 4000)].

Definition five_world : World := world_of five_payments [] healthy.

(** Four payments, the second and the third created in the same
    millisecond (as the tasks of one batch chunk can be). *)
Definition tied_payments : list Payment.t :=
  [payment_at "a0000000-0000-4000-8000-000000000001" "k-a" pending t0;
   payment_at "b0000000-0000-4000-8000-000000000002" "k-b" pending (t0 + 1000);
   payment_at "c0000000-0000-4000-8000-000000000003" "k-c" pending (t0 + 1000);
   payment_at "d0000000-0000-4000-8000-000000000004" "k-d" pending (t0 + 2000)].

Definition tied_world : World := world_of tied_payments [] healthy.

Definition first_two : ListPaymentsQuery :=
  {| q_status := None; q_limit := Some 2; q_cursor := None |}.

Definition first_two_options : FindOptions :=
  {| where_status := None; where_createdAt_lt := None; limit := 3 |}.


End Example.

(* ================================================================== *)
(** * Vocabulary of the further properties                             *)
(* ================================================================== *)




(** The pattern of an idempotency key, read position by position: 36
    characters; a dash at the positions 8, 13, 18 and 23; a version digit
    from 1 to 5 at position 14; one of 8, 9, a, b (in either case) at
    position 19; a hexadecimal digit (in either case) everywhere else. *)
Definition uuid_shape (s : string) : Prop :=
  String.length s = 36%nat
  /\ forall i c,
      String.get i s = Some c ->
      if Nat.eqb i 8 || Nat.eqb i 13 || Nat.eqb i 18 || Nat.eqb i 23
      then c = "-"%char
      else if Nat.eqb i 14 then In c (list_ascii_of_string "12345")
      else if Nat.eqb i 19 then In c (list_ascii_of_string "89abAB")
      else In c (list_ascii_of_string "0123456789abcdefABCDEF").

(** The two answers of [checkIdempotency] to a key it does not accept. *)
Definition missing_key_response : Http.Response :=
  {| Http.status_code := 400;
     Http.payload := Http.error_payload "Missing idempotency key"
                       "Idempotency-Key header is required" |}.

Definition invalid_key_response : Http.Response :=
  {| Http.status_code := 400;
     Http.payload := Http.error_payload "Invalid idempotency key format"
                       "Idempotency key must be a valid UUID" |}.

(** How far a status is along the life cycle of a payment. *)
Definition rank (s : Status) : nat :=
  match s with
  | pending => 0
  | paid => 1
  | reversed => 2
  end.

(** [p'] is the row [p] later in its life: the same row but for the
    status, which is not an earlier one, and the time of the update. *)
Definition moved_on (p p' : Payment.t) : Prop :=
  (rank (Payment.status p) <= rank (Payment.status p'))%nat
  /\ Payment.with_status p' (Payment.status p) (Payment.updatedAt p) = p.

(** The webhook requests, handled one after the other. *)
Fixpoint update_all (requests : list WebhookUpdateRequest) (w : World) : World :=
  match requests with
  | [] => w
  | request :: rest =>
      update_all rest (snd (Async.run (PaymentService.updatePaymentStatus request) w))
  end.

(** What a history row says of which payment. *)
Definition transition_of (h : PaymentHistory.t) : string * Status :=
  (PaymentHistory.paymentId h, PaymentHistory.newStatus h).

(** The request carries the webhook token of the configuration. *)
Definition holds_token (WEBHOOK_TOKEN : option string) (req : Webhook.Request) : Prop :=
  exists token,
    token <> ""
    /\ Webhook.header_x_webhook_token req = Some token
    /\ WEBHOOK_TOKEN = Some token.

Module Example2.

(** A batch request as the middleware hands it on. *)
Definition batch_of (payments : list CreatePaymentRequest)
  : BatchPaymentController.Request :=
  {| BatchPaymentController.idempotencyKey := Some Example.key_1;
     BatchPaymentController.requestHash := Some "batch-hash";
     BatchPaymentController.body_payments := payments |}.

(** A batch of two payments, as the client sends it. *)
Definition batch_body : JS.json :=
  JS.JObj [("payments", JS.JArr [Example.body_of 50000; Example.body_of 1200])].

Definition batch_request : Http.Request := Example.request_of Example.key_1 batch_body.

(** What the first request is answered in [Example.empty_world]. *)
Definition batch_answer : JS.json :=
  Eval vm_compute in
    match BatchRoute.post_batch (fun _ => None) Example.no_errors Example.base_url
            Example.two_workers Example.second_first batch_request
            Example.empty_world with
    | Some (r, _) => Http.payload r
    | None => JS.JNull
    end.

End Example2.

(** The payment is one the query asks for: it has the status of the
    query, and it was created before the date of its cursor. *)
Definition asked_for (query : ListPaymentsQuery) (p : Payment.t) : Prop :=
  (forall s, q_status query = Some s -> Payment.status p = s)
  /\ (forall cursor date,
         q_cursor query = Some cursor -> cursor <> "" ->
         JS.Date_parse cursor = Some date -> Payment.createdAt p < date).

(** The text that stands for a redacted header. *)
Definition redacted : JS.json := JS.JStr "[REDACTED]".

(** [text] starts with [start]. *)
Definition starts_with (start text : string) : Prop :=
  exists rest, text = start ++ rest.

(** [check] holds of the [count] integers from [from] on. *)
Fixpoint all_from (count : nat) (from : Z) (check : Z -> bool) : bool :=
  match count with
  | O => true
  | S count' => if check from then all_from count' (from + 1) check else false
  end.

(** The day [doe] of a 400-year era, taken apart by [JS.civil_of_days]
    and put together again by [JS.days_of_civil], is the same day; its
    month and its day of the month are in range; and up to the last day
    of the year 399 of the era the year stays below 400. *)
Definition era_day_ok (doe : Z) : bool :=
  let yoe := (doe - doe / 1460 + doe / 36524 - doe / 146096) / 365 in
  let doy := doe - (365 * yoe + yoe / 4 - yoe / 100) in
  let mp := (5 * doy + 2) / 153 in
  let d := doy - (153 * mp + 2) / 5 + 1 in
  let m := if mp <? 10 then mp + 3 else mp - 9 in
  (0 <=? yoe) && (yoe <=? 399) && (1 <=? m) && (m <=? 12) && (1 <=? d) && (d <=? 31)
  && (yoe * 365 + yoe / 4 - yoe / 100
      + ((153 * (if 2 <? m then m - 3 else m + 9) + 2) / 5 + d - 1) =? doe)
  && ((146036 <? doe) || (yoe + (if m <=? 2 then 1 else 0) <=? 399)).

(** A number below [10 ^ width] is printed on [width] digits, and read
    back from them. *)
Definition padded_ok (width : nat) (n : Z) : bool :=
  Nat.eqb (String.length (JS.zero_padded width n)) width
  && match JS.digits_value 0 (JS.zero_padded width n) with
     | Some v => v =? n
     | None => false
     end.

(** The last millisecond of the year 9999. *)
Definition max_four_digit_year_time : Z := 253402300799999.

(** The sixteen lower-case hexadecimal digits. *)
Definition lower_hex : list ascii := list_ascii_of_string "0123456789abcdef".

(** The idempotency key under which a batch stores the payment at [index],
    [uuid] being what [uuidv4()] answered. *)
Definition item_key (uuid : string) (index : nat) : string :=
  uuid ++ "-" ++ JS.of_nat index.

(** Every call the task makes, however its calls are answered, is one of
    [allowed]. *)
Fixpoint issues {A : Type} (allowed : Op -> Prop) (t : Task A) : Prop :=
  match t with
  | Ret _ | Throw _ => True
  | Call op k => allowed op /\ forall x, issues allowed (k x)
  end.

(** The world has moved on by calls of [allowed] only. *)
Inductive moves (allowed : Op -> Prop) : World -> World -> Prop :=
| moves_here (w : World) : moves allowed w w
| moves_call (op : Op) (w w' : World) :
    allowed op -> moves allowed (snd (Store.handle op w)) w' -> moves allowed w w'.

(** The calls of the task that processes one item of a batch over the
    payment service: the UUID generator, the timer, the creation of a
    payment, and the creation of an idempotency record under the key of
    an item. *)
Definition item_calls (op : Op) : Prop :=
  match op with
  | uuidv4 | Date_now | setTimeout _ => True
  | Payment_create a => Payment.a_status a = pending
  | IdempotencyKey_create a =>
      exists uuid index, (index < 100)%nat /\ IdempotencyKey.a_key a = item_key uuid index
  | _ => False
  end.

(** What a batch may have done to the tables of [w] by the time of [w']:
    pending payments were added after the ones that were there,
    idempotency records were added under keys of items, the history is
    as it was. *)
Definition grown_by_items (w w' : World) : Prop :=
  (exists added,
      payments w' = (payments w ++ added)%list
      /\ Forall (fun p => Payment.status p = pending) added)
  /\ payment_histories w' = payment_histories w
  /\ (exists added,
         idempotency_keys w' = (idempotency_keys w ++ added)%list
         /\ Forall (fun r => exists uuid index,
                        (index < 100)%nat /\ IdempotencyKey.key r = item_key uuid index)
                   added)
  /\ db_fault w' = db_fault w.

(** The store answers every call. *)
Definition store_up (w : World) : Prop := forall n, db_fault w n = None.

(** Three webhook requests for one payment: two deliveries of "paid"
    and one "reversed". *)
Definition paid_request (id : string) (reason : option string) : WebhookUpdateRequest :=
  {| u_paymentId := id; u_newStatus := paid; u_reason := reason |}.

Definition reversed_request (id : string) (reason : option string)
  : WebhookUpdateRequest :=
  {| u_paymentId := id; u_newStatus := reversed; u_reason := reason |}.

(** What is left of [updatePaymentStatus] once it has read the payment
    as [payment] and found the transition valid: the two writes. *)
Definition writes_after_read (payment : Payment.t) (request : WebhookUpdateRequest)
  : Task unit :=
  Async.await (Async.call (Payment_update (Payment.id payment) (u_newStatus request))) ;;;
  Async.await (Async.call (PaymentHistory_create
    {| PaymentHistory.a_paymentId := Payment.id payment;
       PaymentHistory.a_oldStatus := Payment.status payment;
       PaymentHistory.a_newStatus := u_newStatus request;
       PaymentHistory.a_reason := Some (JS.or_default (u_reason request) "") |})) ;;;
  Ret tt.

(* ================================================================== *)
(** * Running tasks                                                    *)
(* ================================================================== *)

Section Running.

Context {A B : Type}.

Lemma run_bind (t : Task A) (f : A -> Task B) (w : World) :
  Async.run (Async.bind t f) w =
  match Async.run t w with
  | (Fulfilled a, w1) => Async.run (f a) w1
  | (Rejected e, w1) => (Rejected e, w1)
  end.
Proof.
  revert w; induction t as [a | e | op k IH]; intros w; simpl; trivial.
  destruct (Store.handle op w) as [x w1]. apply IH.
Qed.

Lemma run_try_catch (t : Task A) (handler : JS.Error -> Task A) (w : World) :
  Async.run (Async.try_catch t handler) w =
  match Async.run t w with
  | (Fulfilled a, w1) => (Fulfilled a, w1)
  | (Rejected e, w1) => Async.run (handler e) w1
  end.
Proof.
  revert w; induction t as [a | e | op k IH]; intros w; simpl; trivial.
  destruct (Store.handle op w) as [x w1]. apply IH.
Qed.

End Running.

Lemma guarded_answers {X : Type} (w : World) (act : World -> result X * World) :
  db_fault w (db_calls w) = None -> Store.guarded w act = act (Store.tick w).
Proof. intros H; unfold Store.guarded; now rewrite H. Qed.

Lemma guarded_fails {X : Type} (w : World) (act : World -> result X * World) (m : string) :
  db_fault w (db_calls w) = Some m ->
  Store.guarded w act = (Err (JS.mkError m), Store.tick w).
Proof. intros H; unfold Store.guarded; now rewrite H. Qed.

Lemma run_call (op : Op) (w : World) :
  Async.run (Async.call op) w
  = (Fulfilled (fst (Store.handle op w)), snd (Store.handle op w)).
Proof. unfold Async.call; simpl. now destruct (Store.handle op w). Qed.

Lemma run_await {X : Type} (t : Task (result X)) (w : World) :
  Async.run (Async.await t) w =
  match Async.run t w with
  | (Fulfilled (Ok x), w1) => (Fulfilled x, w1)
  | (Fulfilled (Err e), w1) => (Rejected e, w1)
  | (Rejected e, w1) => (Rejected e, w1)
  end.
Proof.
  unfold Async.await. rewrite run_bind.
  destruct (Async.run t w) as [[[x | e] | e] w1]; reflexivity.
Qed.

Lemma store_answers_here (n : nat) (w : World) :
  store_answers (S n) w -> db_fault w (db_calls w) = None.
Proof. intros H. rewrite <- (Nat.add_0_r (db_calls w)). apply H. lia. Qed.

(* ================================================================== *)
(** * Status transitions                                               *)
(* ================================================================== *)

Lemma isValidStatusTransition_spec (current requested : Status) :
  PaymentService.isValidStatusTransition current requested = true
  <-> allowed_transition current requested.
Proof.
  unfold allowed_transition.
  destruct current, requested; simpl; split; intros H;
    try discriminate; try reflexivity; auto;
    destruct H as [[H1 H2] | [H1 H2]]; discriminate.
Qed.

Lemma findByPk_id (id : string) (rows : list Payment.t) (p : Payment.t) :
  Store.findByPk id rows = Some p -> Payment.id p = id.
Proof.
  unfold Store.findByPk; intros H. apply find_some in H as [_ H].
  now apply String.eqb_eq.
Qed.

Lemma findByPk_after_update (w : World) (id : string) (p : Payment.t) (s : Status) :
  Store.findByPk id (payments w) = Some p ->
  Store.findByPk id (payments_after_update w p s)
  = Some (Payment.with_status p s (now w)).
Proof.
  intros H. pose proof (findByPk_id _ _ _ H) as Hid.
  unfold payments_after_update, Store.findByPk in *. rewrite Hid.
  induction (payments w) as [| q rows IH]; simpl in *; [discriminate |].
  destruct (String.eqb (Payment.id q) id) eqn:E; simpl.
  - rewrite E. now inversion H.
  - rewrite E. now apply IH.
Qed.

(** What [updatePaymentStatus] does once the payment is found and the
    transition is a valid one: two store calls one after the other. *)
Lemma updatePaymentStatus_valid (w : World) (request : WebhookUpdateRequest)
    (p : Payment.t) :
  db_fault w (db_calls w) = None ->
  Store.findByPk (u_paymentId request) (payments w) = Some p ->
  PaymentService.isValidStatusTransition (Payment.status p) (u_newStatus request) = true ->
  let w' := snd (Async.run (PaymentService.updatePaymentStatus request) w) in
  let outcome := fst (Async.run (PaymentService.updatePaymentStatus request) w) in
  match db_fault w (db_calls w + 1), db_fault w (db_calls w + 2) with
  | Some m, _ =>
      outcome = Rejected (JS.mkError m) /\ same_tables w w'
  | None, Some m =>
      outcome = Rejected (JS.mkError m)
      /\ payments w' = payments_after_update w p (u_newStatus request)
      /\ payment_histories w' = payment_histories w
  | None, None =>
      outcome = Fulfilled tt
      /\ payments w' = payments_after_update w p (u_newStatus request)
      /\ exists h, payment_histories w' = (payment_histories w ++ [h])%list
                   /\ records_transition h p request
  end.
Proof.
  intros Hf Hp Hv.
  unfold PaymentService.updatePaymentStatus.
  rewrite run_bind; simpl. rewrite guarded_answers by assumption; simpl.
  rewrite Hp, Hv; simpl.
  replace (db_calls w + 1)%nat with (S (db_calls w)) by lia.
  replace (db_calls w + 2)%nat with (S (S (db_calls w))) by lia.
  destruct (db_fault w (S (db_calls w))) as [m |] eqn:F1.
  - rewrite (guarded_fails _ _ m) by exact F1. simpl. repeat split.
  - rewrite guarded_answers by exact F1. simpl.
    destruct (db_fault w (S (S (db_calls w)))) as [m |] eqn:F2.
    + rewrite (guarded_fails _ _ m) by exact F2. simpl. repeat split.
    + rewrite guarded_answers by exact F2. simpl.
      split; [reflexivity | split; [reflexivity |]].
      eexists; split; [reflexivity | repeat split].
Qed.



(** C2, as the code has it. The status update and the history record are
    two store calls, the update first, with no transaction around them.
    For a valid transition of a payment that was found: when both calls
    are taken the payment has the new status and exactly one history row
    (payment id, old status, new status, reason) has been appended; when
    the update fails no table has changed; when the history write fails
    the error is thrown, no history row exists, and the payment keeps the
    new status. *)
Theorem updatePaymentStatus_two_writes (w : World) (request : WebhookUpdateRequest)
    (payment : Payment.t) :
  db_fault w (db_calls w) = None ->
  Store.findByPk (u_paymentId request) (payments w) = Some payment ->
  allowed_transition (Payment.status payment) (u_newStatus request) ->
  let w' := snd (Async.run (PaymentService.updatePaymentStatus request) w) in
  let outcome := fst (Async.run (PaymentService.updatePaymentStatus request) w) in
  let updated := payments_after_update w payment (u_newStatus request) in
  Store.findByPk (u_paymentId request) updated
  = Some (Payment.with_status payment (u_newStatus request) (now w))
  /\ match db_fault w (db_calls w + 1), db_fault w (db_calls w + 2) with
     | Some m, _ =>
         outcome = Rejected (JS.mkError m) /\ same_tables w w'
     | None, Some m =>
         outcome = Rejected (JS.mkError m)
         /\ payments w' = updated
         /\ payment_histories w' = payment_histories w
     | None, None =>
         outcome = Fulfilled tt
         /\ payments w' = updated
         /\ exists h, payment_histories w' = (payment_histories w ++ [h])%list
                      /\ records_transition h payment request
     end.
Proof.
  intros Hf Hp Hok. split.
  - now apply findByPk_after_update.
  - apply updatePaymentStatus_valid; trivial.
    now apply isValidStatusTransition_spec.
Qed.

Lemma updatePaymentStatus_two_writes_witness :
  fst (Async.run (PaymentService.updatePaymentStatus Example.mark_paid)
                 Example.history_write_fails)
  = Rejected (JS.mkError "SQLITE_BUSY: database is locked")
  /\ map Payment.status
         (payments (snd (Async.run (PaymentService.updatePaymentStatus Example.mark_paid)
                                   Example.history_write_fails))) = [paid].
Proof.
  pose proof (updatePaymentStatus_two_writes Example.history_write_fails
                Example.mark_paid Example.pending_payment eq_refl eq_refl
                (or_introl (conj eq_refl eq_refl))) as [_ H].
  simpl in H. destruct H as (Hout & Hrows & _). split.
  - exact Hout.
  - exact (f_equal (map Payment.status) Hrows).
Defined.

(** C2, as the claim states it, does not hold: when the history write
    fails, the payments table has changed and the history has not. *)
Lemma both_writes_or_neither_fails :
  ~ both_writes_or_neither Example.history_write_fails Example.mark_paid.
Proof.
  unfold both_writes_or_neither. vm_compute.
  intros [[H _] | [_ [h H]]].
  - discriminate H.
  - destruct (payment_histories Example.history_write_fails); discriminate H.
Qed.

(** C10. A successful transition whose request carries no reason writes
    its history row with the empty string as the reason. *)
Theorem updatePaymentStatus_reason_default (w : World) (request : WebhookUpdateRequest)
    (payment : Payment.t) :
  store_answers 3 w ->
  Store.findByPk (u_paymentId request) (payments w) = Some payment ->
  allowed_transition (Payment.status payment) (u_newStatus request) ->
  u_reason request = None ->
  let w' := snd (Async.run (PaymentService.updatePaymentStatus request) w) in
  fst (Async.run (PaymentService.updatePaymentStatus request) w) = Fulfilled tt
  /\ exists h, payment_histories w' = (payment_histories w ++ [h])%list
               /\ PaymentHistory.paymentId h = Payment.id payment
               /\ PaymentHistory.reason h = Some "".
Proof.
  intros Hstore Hp Hok Hreason.
  pose proof (updatePaymentStatus_valid w request payment
                (store_answers_here _ _ Hstore) Hp
                (proj2 (isValidStatusTransition_spec _ _) Hok)) as H.
  rewrite (Hstore 1%nat), (Hstore 2%nat) in H by lia.
  destruct H as (Hout & _ & h & Hrows & Hid & _ & _ & Hr).
  split; [exact Hout |]. exists h. repeat split; trivial.
  now rewrite Hr, Hreason.
Qed.

Lemma updatePaymentStatus_reason_default_witness :
  exists h,
    payment_histories
      (snd (Async.run (PaymentService.updatePaymentStatus Example.mark_paid)
                      Example.one_pending)) = [h]
    /\ PaymentHistory.reason h = Some "".
Proof.
  destruct (updatePaymentStatus_reason_default Example.one_pending Example.mark_paid
              Example.pending_payment (fun j _ => eq_refl) eq_refl
              (or_introl (conj eq_refl eq_refl)) eq_refl) as (_ & h & Hrows & _ & Hr).
  exists h. split; [exact Hrows | exact Hr].
Defined.

(* ================================================================== *)
(** * The request hash                                                 *)
(* ================================================================== *)












(* ================================================================== *)
(** * The idempotency middleware                                       *)
(* ================================================================== *)

#[local] Arguments JS.JSON_stringify : simpl never.
#[local] Arguments CreatePaymentResponse_json : simpl never.
#[local] Arguments Sha256.digest_hex : simpl never.
#[local] Arguments Idempotency.storeIdempotencyResponse : simpl never.

Lemma uuid_not_empty (key : string) :
  Idempotency.uuidRegex_test key = true -> exists c rest, key = String c rest.
Proof. destruct key as [| c rest]; [discriminate | eauto]. Qed.

(** What [checkIdempotency] answers once the key is well formed and the
    lookup has been answered. *)
Lemma checkIdempotency_run (JSON_parse : string -> option JS.json)
    (req : Http.Request) (w : World) (key : string) :
  Http.header_idempotency_key req = Some key ->
  Idempotency.uuidRegex_test key = true ->
  db_fault w (db_calls w) = None ->
  Async.run (Idempotency.checkIdempotency JSON_parse req) w =
  (Fulfilled
     match Store.findKey key (idempotency_keys w) with
     | Some existingKey =>
         if String.eqb (IdempotencyKey.requestHash existingKey)
                       (Idempotency.requestHash_of (Http.body req))
         then match JSON_parse (IdempotencyKey.responseData existingKey) with
              | Some cachedResponse =>
                  Http.Responded {| Http.status_code := 200;
                                    Http.payload := cachedResponse |}
              | None =>
                  Http.Responded
                    {| Http.status_code := 500;
                       Http.payload := Http.error_payload "Internal server error"
                                         "Failed to process idempotency check" |}
              end
         else Http.Responded conflict_response
     | None =>
         Http.Next {| Http.header_idempotency_key := Some key;
                      Http.body := Http.body req;
                      Http.idempotencyKey := Some key;
                      Http.requestHash :=
                        Some (Idempotency.requestHash_of (Http.body req)) |}
     end, Store.tick w).
Proof.
  intros Hkey Huuid Hf.
  destruct (uuid_not_empty key Huuid) as (c & rest & ->).
  unfold Idempotency.checkIdempotency. rewrite Hkey, Huuid. cbn [negb].
  rewrite run_try_catch, run_bind. simpl.
  rewrite guarded_answers by assumption. simpl.
  destruct (Store.findKey (String c rest) (idempotency_keys w)) as [r |]; simpl.
  - destruct (String.eqb (IdempotencyKey.requestHash r)
                (Idempotency.requestHash_of (Http.body req))); simpl.
    + destruct (JSON_parse (IdempotencyKey.responseData r)); reflexivity.
    + reflexivity.
  - reflexivity.
Qed.

(** C6, as the code has it. A request whose (well-formed) key is found
    in the store with another hash is answered 409 with the fixed body
    "Idempotency key conflict" / "The provided idempotency key is already
    used with different data", whatever the key is; the request is not
    handed on, so the guarded operation does not run and no table is
    written, also through the whole route. *)
Theorem checkIdempotency_conflict (JSON_parse : string -> option JS.json)
    (schema_errors : JS.json -> list string) (checkoutBaseUrl : string)
    (req : Http.Request) (w : World) (key : string) (existingKey : IdempotencyKey.t) :
  Http.header_idempotency_key req = Some key ->
  Idempotency.uuidRegex_test key = true ->
  db_fault w (db_calls w) = None ->
  Store.findKey key (idempotency_keys w) = Some existingKey ->
  IdempotencyKey.requestHash existingKey <> Idempotency.requestHash_of (Http.body req) ->
  Async.run (Idempotency.checkIdempotency JSON_parse req) w
  = (Fulfilled (Http.Responded conflict_response), Store.tick w)
  /\ Async.run (Routes.post_payments JSON_parse schema_errors checkoutBaseUrl req) w
     = (Fulfilled conflict_response, Store.tick w)
  /\ same_tables w (Store.tick w).
Proof.
  intros Hkey Huuid Hf Hfound Hhash.
  assert (Hrun : Async.run (Idempotency.checkIdempotency JSON_parse req) w
                 = (Fulfilled (Http.Responded conflict_response), Store.tick w)).
  { rewrite (checkIdempotency_run _ _ _ key) by assumption.
    rewrite Hfound. apply String.eqb_neq in Hhash. now rewrite Hhash. }
  split; [exact Hrun | split].
  - unfold Routes.post_payments. rewrite run_bind, Hrun. reflexivity.
  - repeat split.
Qed.

Lemma checkIdempotency_conflict_witness :
  Async.run (Idempotency.checkIdempotency
               (Example.parse_only JS.JNull)
               (Example.request_of Example.key_1 (Example.body_of 70000)))
            Example.after_first_request
  = (Fulfilled (Http.Responded conflict_response),
     Store.tick Example.after_first_request).
Proof.
  apply (checkIdempotency_conflict (Example.parse_only JS.JNull) Example.no_errors
           Example.base_url
           (Example.request_of Example.key_1 (Example.body_of 70000))
           Example.after_first_request Example.key_1 Example.record_1).
  - reflexivity.
  - reflexivity.
  - reflexivity.
  - reflexivity.
  - apply String.eqb_neq. vm_compute. reflexivity.
Defined.

(** C6, as the claim states it, does not hold: the 409 answer to a
    request that reuses [key_1] with another amount does not contain the
    key. *)
Lemma conflict_does_not_name_key :
  ~ conflict_names_key (Example.parse_only JS.JNull) Example.after_first_request
      (Example.request_of Example.key_1 (Example.body_of 70000)) Example.key_1.
Proof.
  intros (r & Hrun & _ & Hnames).
  assert (E : fst (Async.run (Idempotency.checkIdempotency
                                (Example.parse_only JS.JNull)
                                (Example.request_of Example.key_1 (Example.body_of 70000)))
                             Example.after_first_request)
              = Fulfilled (Http.Responded conflict_response))
    by (vm_compute; reflexivity).
  rewrite E in Hrun. injection Hrun as <-.
  assert (N : names_key conflict_response Example.key_1 = false)
    by (vm_compute; reflexivity).
  rewrite N in Hnames. discriminate Hnames.
Qed.

Lemma digest_hex_not_empty (s : string) :
  exists c rest, Sha256.digest_hex s = String c rest.
Proof.
  unfold Sha256.digest_hex.
  destruct (Sha256.blocks _ _ _) as [[[[[[[a b] c] d] e] f] g] h].
  cbn [map String.concat Sha256.hex_word Sha256.be_bytes Sha256.hex_byte append].
  eauto.
Qed.

Lemma findKey_none_existsb (key : string) (rows : list IdempotencyKey.t) :
  Store.findKey key rows = None ->
  existsb (fun r => String.eqb (IdempotencyKey.key r) key) rows = false.
Proof.
  unfold Store.findKey. induction rows as [| r rows IH]; simpl; [reflexivity |].
  destruct (String.eqb (IdempotencyKey.key r) key); [discriminate | exact IH].
Qed.

Lemma findKey_appended (key : string) (rows : list IdempotencyKey.t)
    (r : IdempotencyKey.t) :
  Store.findKey key rows = None -> IdempotencyKey.key r = key ->
  Store.findKey key (rows ++ [r]) = Some r.
Proof.
  unfold Store.findKey. intros Hnone Hkey.
  induction rows as [| q rows IH]; simpl in *.
  - now rewrite Hkey, String.eqb_refl.
  - destruct (String.eqb (IdempotencyKey.key q) key); [discriminate | now apply IH].
Qed.

(** The row [storeIdempotencyResponse] writes when its one store call is
    taken and the key is new. *)
Lemma storeIdempotencyResponse_stores (key hash : string) (data : JS.json) (w : World) :
  db_fault w (db_calls w) = None ->
  Store.findKey key (idempotency_keys w) = None ->
  exists w' r,
    Async.run (Idempotency.storeIdempotencyResponse key hash data) w = (Fulfilled tt, w')
    /\ idempotency_keys w' = (idempotency_keys w ++ [r])%list
    /\ IdempotencyKey.key r = key
    /\ IdempotencyKey.requestHash r = hash
    /\ IdempotencyKey.responseData r = JS.JSON_stringify data
    /\ payments w' = payments w
    /\ db_fault w' = db_fault w
    /\ db_calls w' = S (db_calls w).
Proof.
  intros Hf Hnone. unfold Idempotency.storeIdempotencyResponse.
  rewrite run_try_catch, run_bind. simpl.
  rewrite guarded_answers by assumption. simpl.
  rewrite (findKey_none_existsb _ _ Hnone). simpl.
  eexists; eexists. split; [reflexivity |]. simpl. repeat split.
Qed.

(** A first [createPayment]: the store takes both calls, the key and the
    fresh id collide with no row. *)
Lemma createPayment_creates (checkoutBaseUrl : string) (request : CreatePaymentRequest)
    (key hash : string) (w : World) :
  store_answers 2 w ->
  Store.findKey key (idempotency_keys w) = None ->
  existsb (fun p => String.eqb (Payment.id p) (uuid_at w (uuid_next w))
                    || String.eqb (Payment.idempotencyKey p) key) (payments w) = false ->
  let response := {| paymentId := uuid_at w (uuid_next w); status := pending;
                     checkoutUrl := checkoutBaseUrl ++ "/" ++ uuid_at w (uuid_next w) |} in
  exists w' row r,
    Async.run (PaymentService.createPayment checkoutBaseUrl request key hash) w
    = (Fulfilled response, w')
    /\ payments w' = (payments w ++ [row])%list
    /\ Payment.id row = paymentId response
    /\ Payment.idempotencyKey row = key
    /\ idempotency_keys w' = (idempotency_keys w ++ [r])%list
    /\ IdempotencyKey.key r = key
    /\ IdempotencyKey.requestHash r = hash
    /\ IdempotencyKey.responseData r
       = JS.JSON_stringify (CreatePaymentResponse_json response)
    /\ db_fault w' = db_fault w
    /\ db_calls w' = S (S (db_calls w)).
Proof.
  intros Hstore Hnone Hfresh response.
  unfold PaymentService.createPayment.
  rewrite run_try_catch, run_bind, run_call.
  cbn [Store.handle fst snd Store.draw_uuid].
  rewrite run_bind, run_await. unfold Async.call. cbn [Async.run Store.handle].
  rewrite guarded_answers by (simpl; apply (store_answers_here 1), Hstore).
  cbn [payments Store.tick Payment.a_id Payment.a_idempotencyKey].
  rewrite Hfresh. cbn [fst snd]. rewrite run_bind.
  match goal with
  | |- context [Async.run (Idempotency.storeIdempotencyResponse ?k ?h ?d) ?w0] =>
      destruct (storeIdempotencyResponse_stores k h d w0)
        as (w' & r & Hrun & Hkeys & Hk & Hh & Hd & Hp & Hfault & Hcalls);
        [simpl; specialize (Hstore 1%nat);
         replace (db_calls w + 1)%nat with (S (db_calls w)) in Hstore by lia;
         apply Hstore; lia
        | exact Hnone |]
  end.
  rewrite Hrun. cbn [Async.run].
  eexists; eexists; exists r. split; [reflexivity |].
  rewrite Hp, Hkeys, Hfault, Hcalls. simpl. repeat split; assumption.
Qed.

(** The first request of a key, through the whole route. *)
Lemma post_payments_first (JSON_parse : string -> option JS.json)
    (schema_errors : JS.json -> list string) (checkoutBaseUrl : string)
    (req : Http.Request) (w : World) (key : string) (request : CreatePaymentRequest) :
  Http.header_idempotency_key req = Some key ->
  Idempotency.uuidRegex_test key = true ->
  schema_errors (Http.body req) = [] ->
  PaymentController.body_request (Http.body req) = Some request ->
  store_answers 3 w ->
  Store.findKey key (idempotency_keys w) = None ->
  existsb (fun p => String.eqb (Payment.id p) (uuid_at w (uuid_next w))
                    || String.eqb (Payment.idempotencyKey p) key) (payments w) = false ->
  let response := {| paymentId := uuid_at w (uuid_next w); status := pending;
                     checkoutUrl := checkoutBaseUrl ++ "/" ++ uuid_at w (uuid_next w) |} in
  exists w' row r,
    Async.run (Routes.post_payments JSON_parse schema_errors checkoutBaseUrl req) w
    = (Fulfilled {| Http.status_code := 201;
                    Http.payload := CreatePaymentResponse_json response |}, w')
    /\ payments w' = (payments w ++ [row])%list
    /\ Payment.idempotencyKey row = key
    /\ Store.findKey key (idempotency_keys w') = Some r
    /\ IdempotencyKey.requestHash r = Idempotency.requestHash_of (Http.body req)
    /\ IdempotencyKey.responseData r
       = JS.JSON_stringify (CreatePaymentResponse_json response)
    /\ db_fault w' = db_fault w
    /\ db_calls w' = S (S (S (db_calls w))).
Proof.
  intros Hkey Huuid Hschema Hbody Hstore Hnone Hfresh response.
  unfold Routes.post_payments. rewrite run_bind.
  rewrite (checkIdempotency_run _ _ _ key)
    by (trivial; apply (store_answers_here 2), Hstore).
  rewrite Hnone. cbv beta iota.
  unfold Routes.validateRequest. cbn [Http.body]. rewrite Hschema.
  unfold PaymentController.createPayment.
  cbn [Http.body Http.idempotencyKey Http.requestHash].
  destruct (digest_hex_not_empty (JS.JSON_stringify (Http.body req))) as (c' & h & Ehash).
  fold (Idempotency.requestHash_of (Http.body req)) in Ehash.
  destruct (uuid_not_empty key Huuid) as (c & rest & Ekey).
  rewrite Hbody.
  destruct (createPayment_creates checkoutBaseUrl request key
              (Idempotency.requestHash_of (Http.body req)) (Store.tick w))
    as (w' & row & r & Hrun & Hrows & _ & Hrk & Hkeys & Hk & Hh & Hd & Hfault & Hcalls).
  { intros j Hj. cbn [db_fault db_calls Store.tick].
    replace (S (db_calls w) + j)%nat with (db_calls w + S j)%nat by lia.
    apply Hstore. lia. }
  { exact Hnone. }
  { exact Hfresh. }
  cbn [uuid_at uuid_next Store.tick] in Hrun, Hd.
  rewrite Ehash, Ekey in *. cbv beta iota.
  rewrite run_try_catch, run_bind, Hrun. cbn [Async.run].
  exists w', row, r. split; [reflexivity |].
  rewrite Hkeys. cbn [payments idempotency_keys db_fault db_calls Store.tick] in *.
  repeat split; trivial.
  now apply findKey_appended.
Qed.

(** C5. A request whose (well-formed) key is found in the store with the
    hash of its own body is answered 200 with what [JSON.parse] reads from
    the stored response, and is not handed on: through the whole route the
    controller does not run and no table is written. So a valid creation
    request sent twice with one key and one body, in a store that takes
    its calls, is answered with the same body both times (201 the first
    time, 200 the second), and the second request adds no payment. *)
Theorem idempotent_replay (JSON_parse : string -> option JS.json)
    (schema_errors : JS.json -> list string) (checkoutBaseUrl : string) :
  (forall (req : Http.Request) (w : World) (key : string)
          (existingKey : IdempotencyKey.t) (cachedResponse : JS.json),
      Http.header_idempotency_key req = Some key ->
      Idempotency.uuidRegex_test key = true ->
      db_fault w (db_calls w) = None ->
      Store.findKey key (idempotency_keys w) = Some existingKey ->
      IdempotencyKey.requestHash existingKey = Idempotency.requestHash_of (Http.body req) ->
      JSON_parse (IdempotencyKey.responseData existingKey) = Some cachedResponse ->
      Async.run (Idempotency.checkIdempotency JSON_parse req) w
      = (Fulfilled (Http.Responded {| Http.status_code := 200;
                                      Http.payload := cachedResponse |}), Store.tick w)
      /\ Async.run (Routes.post_payments JSON_parse schema_errors checkoutBaseUrl req) w
         = (Fulfilled {| Http.status_code := 200; Http.payload := cachedResponse |},
            Store.tick w)
      /\ same_tables w (Store.tick w))
  /\ (forall (req : Http.Request) (w : World) (key : string)
             (request : CreatePaymentRequest),
         Http.header_idempotency_key req = Some key ->
         Idempotency.uuidRegex_test key = true ->
         schema_errors (Http.body req) = [] ->
         PaymentController.body_request (Http.body req) = Some request ->
         store_answers 4 w ->
         Store.findKey key (idempotency_keys w) = None ->
         existsb (fun p => String.eqb (Payment.id p) (uuid_at w (uuid_next w))
                           || String.eqb (Payment.idempotencyKey p) key)
                 (payments w) = false ->
         let post := Routes.post_payments JSON_parse schema_errors checkoutBaseUrl req in
         let first := Async.run post w in
         let second := Async.run post (snd first) in
         (forall v, fst first = Fulfilled {| Http.status_code := 201; Http.payload := v |} ->
                    JSON_parse (JS.JSON_stringify v) = Some v) ->
         exists v row,
           fst first = Fulfilled {| Http.status_code := 201; Http.payload := v |}
           /\ fst second = Fulfilled {| Http.status_code := 200; Http.payload := v |}
           /\ payments (snd first) = (payments w ++ [row])%list
           /\ payments (snd second) = payments (snd first)).
Proof.
  assert (Hreplay :
    forall (req : Http.Request) (w : World) (key : string)
           (existingKey : IdempotencyKey.t) (cachedResponse : JS.json),
      Http.header_idempotency_key req = Some key ->
      Idempotency.uuidRegex_test key = true ->
      db_fault w (db_calls w) = None ->
      Store.findKey key (idempotency_keys w) = Some existingKey ->
      IdempotencyKey.requestHash existingKey = Idempotency.requestHash_of (Http.body req) ->
      JSON_parse (IdempotencyKey.responseData existingKey) = Some cachedResponse ->
      Async.run (Idempotency.checkIdempotency JSON_parse req) w
      = (Fulfilled (Http.Responded {| Http.status_code := 200;
                                      Http.payload := cachedResponse |}), Store.tick w)).
  { intros req w key existingKey cached Hkey Huuid Hf Hfound Hhash Hparse.
    rewrite (checkIdempotency_run _ _ _ key) by assumption.
    now rewrite Hfound, Hhash, String.eqb_refl, Hparse. }
  split.
  - intros req w key existingKey cached Hkey Huuid Hf Hfound Hhash Hparse.
    pose proof (Hreplay req w key existingKey cached Hkey Huuid Hf Hfound Hhash Hparse)
      as Hrun.
    split; [exact Hrun | split].
    + unfold Routes.post_payments. rewrite run_bind, Hrun. reflexivity.
    + repeat split.
  - intros req w key request Hkey Huuid Hschema Hbody Hstore Hnone Hfresh
           post first second Hparse.
    destruct (post_payments_first JSON_parse schema_errors checkoutBaseUrl req w key
                request Hkey Huuid Hschema Hbody) as
      (w' & row & r & Hrun & Hrows & _ & Hfound & Hhash & Hdata & Hfault & Hcalls);
      trivial.
    { intros j Hj. apply Hstore. lia. }
    subst first second post. rewrite Hrun in *. cbn [fst snd] in *.
    pose proof (Hparse _ eq_refl) as Hread.
    eexists; exists row. split; [reflexivity |].
    unfold Routes.post_payments. rewrite run_bind.
    erewrite (Hreplay req w' key r _ Hkey Huuid).
    + cbn [fst snd payments Store.tick]. repeat split. exact Hrows.
    + rewrite Hfault, Hcalls.
      replace (S (S (S (db_calls w)))) with (db_calls w + 3)%nat by lia.
      apply Hstore. lia.
    + exact Hfound.
    + exact Hhash.
    + rewrite Hdata. exact Hread.
Qed.

Lemma idempotent_replay_witness :
  fst (Async.run (Routes.post_payments
                    (Example.parse_only (CreatePaymentResponse_json Example.created))
                    Example.no_errors Example.base_url
                    (Example.request_of Example.key_1 (Example.body_of 50000)))
                 Example.after_first_request)
  = Fulfilled {| Http.status_code := 200;
                 Http.payload := CreatePaymentResponse_json Example.created |}
  /\ exists v row,
       fst (Async.run (Routes.post_payments (Example.parse_only Example.created_first)
                         Example.no_errors Example.base_url
                         (Example.request_of Example.key_1 (Example.body_of 50000)))
                      Example.empty_world)
       = Fulfilled {| Http.status_code := 201; Http.payload := v |}
       /\ payments
            (snd (Async.run
                    (Routes.post_payments (Example.parse_only Example.created_first)
                       Example.no_errors Example.base_url
                       (Example.request_of Example.key_1 (Example.body_of 50000)))
                    Example.empty_world)) = [row].
Proof.
  split.
  - destruct (proj1 (idempotent_replay
                       (Example.parse_only (CreatePaymentResponse_json Example.created))
                       Example.no_errors Example.base_url)
                (Example.request_of Example.key_1 (Example.body_of 50000))
                Example.after_first_request Example.key_1 Example.record_1
                (CreatePaymentResponse_json Example.created))
      as (_ & H & _).
    + reflexivity.
    + vm_compute; reflexivity.
    + reflexivity.
    + vm_compute; reflexivity.
    + vm_compute; reflexivity.
    + vm_compute; reflexivity.
    + rewrite H. reflexivity.
  - destruct (proj2 (idempotent_replay (Example.parse_only Example.created_first)
                       Example.no_errors Example.base_url)
                (Example.request_of Example.key_1 (Example.body_of 50000))
                Example.empty_world Example.key_1 Example.request_1)
      as (v & row & H1 & _ & H3 & _).
    + reflexivity.
    + vm_compute; reflexivity.
    + reflexivity.
    + vm_compute; reflexivity.
    + intros j _; reflexivity.
    + reflexivity.
    + reflexivity.
    + intros v Hv.
      assert (E : fst (Async.run
                         (Routes.post_payments (Example.parse_only Example.created_first)
                            Example.no_errors Example.base_url
                            (Example.request_of Example.key_1 (Example.body_of 50000)))
                         Example.empty_world)
                  = Fulfilled {| Http.status_code := 201;
                                 Http.payload := Example.created_first |})
        by (vm_compute; reflexivity).
      rewrite E in Hv. injection Hv as <-.
      unfold Example.parse_only. now rewrite String.eqb_refl.
    + exists v, row. split; [exact H1 | exact H3].
Defined.

(* ================================================================== *)
(** * Tasks that interleave                                            *)
(* ================================================================== *)

Lemma handle_db_fault (op : Op) (w : World) :
  db_fault (snd (Store.handle op w)) = db_fault w.
Proof.
  destruct op; simpl; trivial; unfold Store.guarded;
    destruct (db_fault w (db_calls w)); simpl; trivial.
  - destruct (existsb _ _); reflexivity.
  - destruct (existsb _ _); reflexivity.
Qed.

Lemma store_down_invariant : invariant store_down.
Proof. intros op w H n. rewrite handle_db_fault. apply H. Qed.

Lemma anything_invariant : invariant (fun _ => True).
Proof. intros op w _. exact I. Qed.

Lemma replace_length {X : Type} (j : nat) (x : X) (l : list X) :
  List.length (Async.replace j x l) = List.length l.
Proof.
  revert j; induction l as [| y l IH]; intros [| j]; simpl; auto.
Qed.

Lemma nth_error_replace {X : Type} (j k : nat) (x : X) (l : list X) :
  nth_error (Async.replace j x l) k
  = if Nat.eqb j k then option_map (fun _ => x) (nth_error l k) else nth_error l k.
Proof.
  revert j k; induction l as [| y l IH]; intros [| j] [| k]; simpl; auto.
  now destruct (Nat.eqb j k).
Qed.

Section Always.

Context {A : Type}.
Variable I : World -> Prop.

Lemma always_always_in (P : Settled A -> Prop) (t : Task A) :
  always P t -> always_in I P t.
Proof. induction t; simpl; auto. Qed.

Lemma always_in_mono (P Q : Settled A -> Prop) (t : Task A) :
  (forall s, P s -> Q s) -> always_in I P t -> always_in I Q t.
Proof. intros HPQ. induction t; simpl; auto. Qed.

Lemma always_in_and (P Q : Settled A -> Prop) (t : Task A) :
  always_in I P t -> always_in I Q t -> always_in I (fun s => P s /\ Q s) t.
Proof. induction t; simpl; auto. Qed.

Lemma always_mono (P Q : Settled A -> Prop) (t : Task A) :
  (forall s, P s -> Q s) -> always P t -> always Q t.
Proof. intros HPQ. induction t; simpl; auto. Qed.

Lemma always_outcome (t : Task A) : always (outcome t) t.
Proof.
  induction t as [a | e | op k IH]; simpl; try constructor.
  intros x. apply always_mono with (P := outcome (k x)); [| apply IH].
  intros s Hs. now apply outcome_call with (x := x).
Qed.

Lemma always_in_try_catch (P : Settled A -> Prop) (t : Task A)
    (handler : JS.Error -> Task A) :
  always_in I (fun s => match s with
                        | Fulfilled a => P (Fulfilled a)
                        | Rejected e => always_in I P (handler e)
                        end) t ->
  always_in I P (Async.try_catch t handler).
Proof. induction t; simpl; auto. Qed.

Hypothesis HI : invariant I.

Lemma step_always_in (P : Settled A -> Prop) (t : Task A) (w : World) :
  I w -> always_in I P t ->
  always_in I P (fst (Async.step t w)) /\ I (snd (Async.step t w)).
Proof.
  intros Hw. destruct t as [a | e | op k]; simpl; auto.
  intros H. specialize (H w Hw). specialize (HI op w Hw).
  destruct (Store.handle op w) as [x w']. auto.
Qed.

Lemma run_always_in (P : Settled A -> Prop) (t : Task A) (w : World) :
  I w -> always_in I P t -> P (fst (Async.run t w)) /\ I (snd (Async.run t w)).
Proof.
  revert w. induction t as [a | e | op k IH]; simpl; auto.
  intros w Hw H. specialize (H w Hw). specialize (HI op w Hw).
  destruct (Store.handle op w) as [x w']. now apply IH.
Qed.

Lemma resume_length (picks : list nat) (ts : list (Task A)) (w : World) :
  List.length (fst (Async.resume picks ts w)) = List.length ts.
Proof.
  revert ts w; induction picks as [| j picks IH]; intros ts w; simpl; trivial.
  destruct (nth_error ts j) as [t |]; [| apply IH].
  destruct (Async.step t w) as [t' w']. rewrite IH. apply replace_length.
Qed.

Lemma resume_always_in (P : nat -> Settled A -> Prop) (picks : list nat)
    (ts : list (Task A)) (w : World) :
  I w -> each_always_in I P ts ->
  each_always_in I P (fst (Async.resume picks ts w))
  /\ I (snd (Async.resume picks ts w)).
Proof.
  revert ts w; induction picks as [| j picks IH]; intros ts w Hw H; simpl; auto.
  destruct (nth_error ts j) as [t |] eqn:Ht; [| now apply IH].
  pose proof (step_always_in (P j) t w Hw (H j t Ht)) as [Hstep Hw'].
  destruct (Async.step t w) as [t' w']. apply IH; trivial.
  intros k u Hk. rewrite nth_error_replace in Hk.
  destruct (Nat.eqb j k) eqn:E.
  - apply Nat.eqb_eq in E; subst k. rewrite Ht in Hk. simpl in Hk.
    inversion Hk; subst. exact Hstep.
  - now apply H.
Qed.

Lemma drain_length (ts : list (Task A)) (w : World) :
  List.length (fst (Async.drain ts w)) = List.length ts.
Proof.
  revert w; induction ts as [| t ts IH]; intros w; simpl; trivial.
  destruct (Async.run t w) as [s w1]. specialize (IH w1).
  destruct (Async.drain ts w1) as [ss w2]. simpl in *. now rewrite IH.
Qed.

Lemma drain_always_in (P : nat -> Settled A -> Prop) (ts : list (Task A)) (w : World) :
  I w -> each_always_in I P ts ->
  (forall j s, nth_error (fst (Async.drain ts w)) j = Some s -> P j s)
  /\ I (snd (Async.drain ts w)).
Proof.
  revert P w; induction ts as [| t ts IH]; intros P w Hw H; simpl.
  - split; trivial. intros [| j] s Hj; discriminate.
  - pose proof (run_always_in (P 0%nat) t w Hw (H 0%nat t eq_refl)) as [Hrun Hw1].
    destruct (Async.run t w) as [s0 w1].
    specialize (IH (fun k => P (S k)) w1 Hw1).
    destruct (Async.drain ts w1) as [ss w2]. simpl in *.
    destruct IH as [IH Hw2]. { intros k u Hk. now apply (H (S k)). }
    split; trivial. intros [| j] s Hj; simpl in Hj.
    + inversion Hj; subst. exact Hrun.
    + now apply IH.
Qed.

(** However the tasks interleave, they all settle, in their own slots. *)
Lemma allSettled_always_in (P : nat -> Settled A -> Prop) (picks : list nat)
    (ts : list (Task A)) (w : World) :
  I w -> each_always_in I P ts ->
  List.length (fst (Async.allSettled picks ts w)) = List.length ts
  /\ (forall j s, nth_error (fst (Async.allSettled picks ts w)) j = Some s -> P j s)
  /\ I (snd (Async.allSettled picks ts w)).
Proof.
  intros Hw H. unfold Async.allSettled.
  pose proof (resume_length picks ts w) as Hlen.
  pose proof (resume_always_in P picks ts w Hw H) as [Hres Hw'].
  destruct (Async.resume picks ts w) as [ts' w']. simpl in *.
  pose proof (drain_always_in P ts' w' Hw' Hres) as [Hdrain Hw''].
  repeat split; trivial. now rewrite drain_length.
Qed.

End Always.

Lemma always_in_bind {A B : Type} (I : World -> Prop) (P : Settled B -> Prop)
    (t : Task A) (f : A -> Task B) :
  always_in I (fun s => match s with
                        | Fulfilled a => always_in I P (f a)
                        | Rejected e => P (Rejected e)
                        end) t ->
  always_in I P (Async.bind t f).
Proof. induction t; simpl; auto. Qed.

Lemma run_outcome {A : Type} (t : Task A) (w : World) :
  outcome t (fst (Async.run t w)).
Proof.
  apply (run_always_in (fun _ => True) anything_invariant (outcome t) t w I).
  apply always_always_in, always_outcome.
Qed.

(* ================================================================== *)
(** * The batch orchestrator                                           *)
(* ================================================================== *)

Lemma or_default_not_empty (a : option string) (b : string) :
  b <> "" -> JS.or_default a b <> "".
Proof.
  intros Hb. destruct a as [[| c s] |]; simpl; trivial. discriminate.
Qed.

Lemma set_index_end {A : Type} (arr : list (option A)) (x : A) :
  JS.set_index arr (List.length arr) x = (arr ++ [Some x])%list.
Proof. induction arr as [| y arr IH]; simpl; [reflexivity | now rewrite IH]. Qed.

Lemma slice_length {A : Type} (arr : list A) (i n : nat) :
  List.length (JS.slice arr i (i + n)) = Nat.min n (List.length arr - i).
Proof.
  unfold JS.slice. replace (i + n - i)%nat with n by lia.
  now rewrite length_firstn, length_skipn.
Qed.

Lemma nth_error_slice {A : Type} (arr : list A) (i n j : nat) (x : A) :
  nth_error (JS.slice arr i (i + n)) j = Some x -> nth_error arr (i + j) = Some x.
Proof.
  unfold JS.slice. replace (i + n - i)%nat with n by lia.
  rewrite nth_error_firstn. destruct (Nat.ltb j n); [| discriminate].
  now rewrite nth_error_skipn.
Qed.

Lemma map_indexed_length {X Y : Type} (f : X -> nat -> Y) (from : nat) (arr : list X) :
  List.length (BatchPaymentService.map_indexed f from arr) = List.length arr.
Proof.
  revert from; induction arr as [| x arr IH]; intros from; simpl; [| rewrite IH];
    reflexivity.
Qed.

Lemma nth_error_map_indexed {X Y : Type} (f : X -> nat -> Y) (from : nat)
    (arr : list X) (j : nat) :
  nth_error (BatchPaymentService.map_indexed f from arr) j
  = option_map (fun x => f x (from + j)%nat) (nth_error arr j).
Proof.
  revert from j; induction arr as [| x arr IH]; intros from [| j]; simpl; trivial.
  - now rewrite Nat.add_0_r.
  - rewrite IH. now replace (S from + j)%nat with (from + S j)%nat by lia.
Qed.

Lemma storeIdempotencyResponse_fulfills (I : World -> Prop)
    (key hash : string) (data : JS.json) :
  always_in I (fun s => s = Fulfilled tt)
            (Idempotency.storeIdempotencyResponse key hash data).
Proof.
  unfold Idempotency.storeIdempotencyResponse.
  apply always_in_try_catch. unfold Async.call, Async.await.
  cbn [Async.bind always_in]. intros w _ w' _.
  destruct (fst (Store.handle (IdempotencyKey_create _) w')); reflexivity.
Qed.

Section Batch.

Variable createPayment :
  CreatePaymentRequest -> string -> string -> Task CreatePaymentResponse.
Variable options : BatchProcessingOptions.

(** What holds of the world all along. *)
Variable I : World -> Prop.
Hypothesis HI : invariant I.

Abbreviation processPaymentWithRetry :=
  (BatchPaymentService.processPaymentWithRetry createPayment options).

(** The two ways [processPaymentWithRetry] ends: with the result of a
    creation call that [Q] allows, or with the error of the exhausted
    attempts. *)
Lemma attempts_from_always_in (Q : Settled CreatePaymentResponse -> Prop)
    (P : Settled BatchPaymentResult -> Prop)
    (payment : CreatePaymentRequest) (i : nat) :
  (forall key hash, always_in I Q (createPayment payment key hash)) ->
  (forall lastError,
      P (Fulfilled
           {| index := i; r_paymentId := None; r_status := None;
              error := Some
                {| code := "max_retries_exceeded";
                   message := JS.or_default (option_map JS.message lastError)
                                "Payment processing failed after all retry attempts" |} |})) ->
  (forall result, Q (Fulfilled result) ->
      P (Fulfilled {| index := i; r_paymentId := Some (paymentId result);
                      r_status := Some (status result); error := None |})) ->
  forall remaining attempt lastError,
    always_in I P (BatchPaymentService.attempts_from createPayment options
                     remaining attempt lastError payment i).
Proof.
  intros HQ Hexhausted Hcreated.
  induction remaining as [| remaining IH]; intros attempt lastError.
  - apply Hexhausted.
  - cbn [BatchPaymentService.attempts_from].
    apply always_in_try_catch. unfold Async.call. cbn [Async.bind always_in].
    intros w _. apply always_in_bind.
    eapply always_in_mono; [| apply HQ].
    intros [result | e] Hs.
    + cbn [always_in]. now apply Hcreated.
    + apply always_in_bind.
      destruct (attempt <? maxRetryAttempts options)%nat.
      * unfold BatchPaymentService.delay, Async.call. cbn [always_in].
        intros w' _. apply IH.
      * cbn [always_in]. apply IH.
Qed.

Section Slots.

(** What is known of the result of the payment at an index. *)
Variable Slot : nat -> CreatePaymentRequest -> BatchPaymentResult -> Prop.
Hypothesis Hslot : forall j item,
    always_in I (fun s => exists r, s = Fulfilled r /\ Slot j item r)
              (processPaymentWithRetry item j).

Variable payments : list CreatePaymentRequest.

Lemma forEach_settled_good (chunkResults : list (Settled BatchPaymentResult)) :
  forall i totals,
    settled_so_far Slot payments totals i ->
    (forall j s, nth_error chunkResults j = Some s ->
                 exists item r, nth_error payments (i + j) = Some item
                                /\ s = Fulfilled r /\ Slot (i + j)%nat item r) ->
    settled_so_far Slot payments
      (BatchPaymentService.forEach_settled totals i chunkResults)
      (i + List.length chunkResults).
Proof.
  induction chunkResults as [| s rest IH]; intros i totals Hgood Hall.
  - simpl. now rewrite Nat.add_0_r.
  - cbn [BatchPaymentService.forEach_settled List.length].
    replace (i + S (List.length rest))%nat with (S i + List.length rest)%nat by lia.
    destruct (Hall 0%nat s eq_refl) as (item & r & Hitem & -> & Hr).
    rewrite Nat.add_0_r in Hitem, Hr.
    destruct Hgood as (Hlen & Hsum & Hok & Hko & Hslots).
    apply IH.
    + unfold BatchPaymentService.record_settled, settled_so_far.
      cbn [BatchPaymentService.t_results BatchPaymentService.t_succeeded
           BatchPaymentService.t_failed].
      assert (Hset : JS.set_index (BatchPaymentService.t_results totals) i r
                     = (BatchPaymentService.t_results totals ++ [Some r])%list)
        by (rewrite <- Hlen; apply set_index_end).
      rewrite !Hset, !filter_app, !length_app.
      cbn [filter has_payment has_error].
      split; [simpl; lia |].
      split; [destruct (error r); lia |].
      split; [destruct (error r); simpl; lia |].
      split; [destruct (error r); simpl; lia |].
      intros j Hj. destruct (Nat.eq_dec j i) as [-> | Hne].
      * exists item, r. repeat split; trivial.
        rewrite nth_error_app2 by lia. rewrite Hlen, Nat.sub_diag. reflexivity.
      * destruct (Hslots j) as (item' & r' & H1 & H2 & H3); [lia |].
        exists item', r'. repeat split; trivial.
        rewrite nth_error_app1 by lia. exact H2.
    + intros j s' Hj.
      replace (S i + j)%nat with (i + S j)%nat by lia. now apply Hall.
Qed.

Lemma chunk_tasks_always_in (i : nat) :
  each_always_in I
    (fun j s => exists item r, nth_error payments (i + j) = Some item
                               /\ s = Fulfilled r /\ Slot (i + j)%nat item r)
    (BatchPaymentService.map_indexed processPaymentWithRetry i
       (JS.slice payments i (i + maxConcurrentWorkers options))).
Proof.
  intros j t Hj. rewrite nth_error_map_indexed in Hj.
  destruct (nth_error (JS.slice payments i (i + maxConcurrentWorkers options)) j)
    as [item |] eqn:Hitem; [| discriminate].
  simpl in Hj. inversion Hj; subst. apply nth_error_slice in Hitem.
  eapply always_in_mono; [| apply Hslot].
  intros s (r & -> & Hr). now exists item, r.
Qed.

Lemma chunks_from_good (sched : nat -> list nat) :
  (1 <= maxConcurrentWorkers options)%nat ->
  forall fuel i totals w,
    I w ->
    (List.length payments - i < fuel)%nat ->
    settled_so_far Slot payments totals (Nat.min i (List.length payments)) ->
    exists totals' w',
      BatchPaymentService.chunks_from createPayment options fuel sched payments
        i totals w = Some (totals', w')
      /\ settled_so_far Slot payments totals' (List.length payments)
      /\ I w'.
Proof.
  intros HW. induction fuel as [| fuel IH]; intros i totals w Hw Hfuel Hgood; [lia |].
  cbn [BatchPaymentService.chunks_from].
  destruct (i <? List.length payments)%nat eqn:Hi.
  - apply Nat.ltb_lt in Hi.
    pose proof (allSettled_always_in I HI _ (sched i) _ w Hw (chunk_tasks_always_in i))
      as (Hlen & Hall & Hw1).
    destruct (Async.allSettled (sched i) _ w) as [chunkResults w1].
    cbn [fst snd] in Hlen, Hall, Hw1.
    rewrite map_indexed_length, slice_length in Hlen.
    apply IH; [exact Hw1 | lia |].
    rewrite Nat.min_l in Hgood by lia.
    pose proof (forEach_settled_good chunkResults i totals Hgood Hall) as Hnext.
    rewrite Hlen in Hnext.
    replace (Nat.min (i + maxConcurrentWorkers options) (List.length payments))
      with (i + Nat.min (maxConcurrentWorkers options) (List.length payments - i))%nat
      by lia.
    exact Hnext.
  - apply Nat.ltb_ge in Hi. rewrite Nat.min_r in Hgood by lia.
    now exists totals, w.
Qed.

(** The batch, whatever the order in which its tasks are resumed. *)
Lemma processBatch_good (sched : nat -> list nat)
    (idempotencyKey requestHash : string) (w : World) :
  I w ->
  (1 <= maxConcurrentWorkers options)%nat ->
  (List.length payments <= 100)%nat ->
  exists response w',
    BatchPaymentService.processBatch createPayment options sched payments
      idempotencyKey requestHash w = Some (Fulfilled response, w')
    /\ settled_so_far Slot payments
         {| BatchPaymentService.t_results := results response;
            BatchPaymentService.t_succeeded := succeeded response;
            BatchPaymentService.t_failed := failed response |}
         (List.length payments).
Proof.
  intros Hw HW Hmax. unfold BatchPaymentService.processBatch.
  replace (100 <? List.length payments)%nat with false
    by (symmetry; apply Nat.ltb_ge; lia).
  destruct (chunks_from_good sched HW (S (List.length payments)) 0%nat
              {| BatchPaymentService.t_results := [];
                 BatchPaymentService.t_succeeded := 0;
                 BatchPaymentService.t_failed := 0 |} w Hw)
    as (totals & w1 & Hrun & Hgood & Hw1).
  { lia. }
  { simpl. unfold settled_so_far; simpl. repeat split; try lia. }
  rewrite Hrun.
  match goal with
  | |- context [Async.run ?t w1] =>
      pose proof (run_always_in I HI _ t w1 Hw1
                    (storeIdempotencyResponse_fulfills I _ _ _)) as [Hstore _]
  end.
  destruct (Async.run _ w1) as [s w2]. cbn [fst] in Hstore. subst s.
  eexists; eexists. split; [reflexivity |].
  destruct totals; exact Hgood.
Qed.

End Slots.

End Batch.

Lemma processPaymentWithRetry_fulfills
    (createPayment : CreatePaymentRequest -> string -> string -> Task CreatePaymentResponse)
    (options : BatchProcessingOptions) (I : World -> Prop)
    (payment : CreatePaymentRequest) (i : nat) :
  always_in I
    (fun s => exists r,
         s = Fulfilled r
         /\ (index r = i /\ well_formed_result r
             /\ outcome (BatchPaymentService.processPaymentWithRetry createPayment options
                           payment i) (Fulfilled r)))
    (BatchPaymentService.processPaymentWithRetry createPayment options payment i).
Proof.
  eapply always_in_mono with
    (P := fun s => (exists r, s = Fulfilled r /\ index r = i /\ well_formed_result r)
                   /\ outcome (BatchPaymentService.processPaymentWithRetry
                                 createPayment options payment i) s).
  { intros s [(r & -> & Hi & Hw) Ho]. now exists r. }
  apply always_in_and; [| apply always_always_in, always_outcome].
  apply attempts_from_always_in with (Q := fun _ => True).
  - intros key hash. apply always_always_in. clear.
    induction (createPayment payment key hash); simpl; auto.
  - intros lastError. eexists. split; [reflexivity | split; [reflexivity |]].
    right. eexists. repeat split. cbn [message].
    now apply or_default_not_empty.
  - intros result _. eexists. split; [reflexivity | split; [reflexivity |]].
    left. now exists (paymentId result), (status result).
Qed.

(** C9. Whatever the creation call does and whatever the store answers,
    [processPaymentWithRetry] never rejects: run alone it is fulfilled with
    a result that carries its index and holds either a payment id with its
    status or an error with a message; and however the tasks of a chunk
    interleave, every one of them that [Promise.allSettled] reports is
    fulfilled, so the branch of [processBatch] for a rejected task is
    never taken. *)
Theorem processPaymentWithRetry_never_rejects
    (createPayment : CreatePaymentRequest -> string -> string -> Task CreatePaymentResponse)
    (options : BatchProcessingOptions) :
  (forall (payment : CreatePaymentRequest) (i : nat) (w : World),
      exists r,
        fst (Async.run (BatchPaymentService.processPaymentWithRetry createPayment options
                          payment i) w) = Fulfilled r
        /\ index r = i /\ well_formed_result r)
  /\ (forall (picks : list nat) (i : nat) (chunk : list CreatePaymentRequest) (w : World),
         Forall (fun s => exists r, s = Fulfilled r /\ well_formed_result r)
                (fst (Async.allSettled picks
                        (BatchPaymentService.map_indexed
                           (BatchPaymentService.processPaymentWithRetry createPayment options)
                           i chunk) w))).
Proof.
  split.
  - intros payment i w.
    destruct (run_always_in (fun _ => True) anything_invariant _ _ w I
                (processPaymentWithRetry_fulfills createPayment options _ payment i))
      as [(r & Hr & Hi & Hw & _) _].
    now exists r.
  - intros picks i chunk w.
    destruct (allSettled_always_in (fun _ => True) anything_invariant
                (fun _ s => exists r, s = Fulfilled r /\ well_formed_result r)
                picks
                (BatchPaymentService.map_indexed
                   (BatchPaymentService.processPaymentWithRetry createPayment options)
                   i chunk) w I) as (_ & Hall & _).
    + intros j t Hj. rewrite nth_error_map_indexed in Hj.
      destruct (nth_error chunk j) as [item |]; [| discriminate].
      simpl in Hj. inversion Hj; subst.
      eapply always_in_mono;
        [| apply (processPaymentWithRetry_fulfills createPayment options)].
      intros s (r & -> & _ & Hw & _). now exists r.
    + apply Forall_forall. intros s Hs.
      apply In_nth_error in Hs as [j Hj]. now apply (Hall j).
Qed.

(* ================================================================== *)
(** * Retries and backoff                                              *)
(* ================================================================== *)

Lemma storeIdempotencyResponse_effects (key hash : string) (data : JS.json) (w : World) :
  exists w',
    Async.run (Idempotency.storeIdempotencyResponse key hash data) w = (Fulfilled tt, w')
    /\ timeouts w' = timeouts w
    /\ db_calls w' = S (db_calls w).
Proof.
  unfold Idempotency.storeIdempotencyResponse.
  rewrite run_try_catch, run_bind. unfold Async.call.
  cbn [Async.run Store.handle]. rewrite run_bind, run_await.
  cbn [Async.run Store.handle]. unfold Store.guarded.
  destruct (db_fault w (db_calls w)); cbn; [eauto |].
  destruct (existsb _ _); cbn; eauto.
Qed.

(** [createPayment] sets no timer, and makes one store call when it
    fails and two when it succeeds. *)
Lemma createPayment_effects (checkoutBaseUrl : string) (request : CreatePaymentRequest)
    (key hash : string) (w : World) :
  exists s w',
    Async.run (PaymentService.createPayment checkoutBaseUrl request key hash) w = (s, w')
    /\ timeouts w' = timeouts w
    /\ match s with
       | Fulfilled _ => db_calls w' = (db_calls w + 2)%nat
       | Rejected _ => db_calls w' = (db_calls w + 1)%nat
       end.
Proof.
  unfold PaymentService.createPayment.
  rewrite run_try_catch, run_bind. unfold Async.call.
  cbn [Async.run Store.handle Store.draw_uuid].
  rewrite run_bind, run_await.
  cbn [Async.run Store.handle]. unfold Store.guarded.
  cbn [db_fault db_calls].
  destruct (db_fault w (db_calls w)).
  { cbn [Async.run]. eexists; eexists. split; [reflexivity |]. cbn. split; [reflexivity | lia]. }
  cbn [payments Store.tick].
  destruct (existsb _ _).
  { cbn [Async.run]. eexists; eexists. split; [reflexivity |]. cbn. split; [reflexivity | lia]. }
  rewrite run_bind.
  match goal with
  | |- context [Async.run (Idempotency.storeIdempotencyResponse ?k ?h ?d) ?w0] =>
      destruct (storeIdempotencyResponse_effects k h d w0) as (w1 & Hrun & Ht & Hc)
  end.
  rewrite Hrun. cbn [Async.run].
  eexists; eexists. split; [reflexivity |]. rewrite Ht, Hc. cbn. split; [reflexivity | lia].
Qed.

Lemma seq_head (a n : nat) : (1 <= n)%nat -> seq a n = a :: seq (S a) (n - 1).
Proof. destruct n; [lia |]. simpl. now rewrite Nat.sub_0_r. Qed.

(** The retry loop of [processPaymentWithRetry] over the payment service,
    from attempt [attempt] on: [n] attempts are made, a timer of
    [retryDelayMs * k] is set after the failed attempt [k] unless it was
    the last one allowed, and an error result means that all the attempts
    allowed were made. *)
Lemma attempts_from_backoff (checkoutBaseUrl : string) (options : BatchProcessingOptions)
    (payment : CreatePaymentRequest) (i : nat) :
  forall remaining attempt lastError w,
    (attempt + remaining = S (maxRetryAttempts options))%nat ->
    exists r n w',
      Async.run (BatchPaymentService.attempts_from
                   (PaymentService.createPayment checkoutBaseUrl) options
                   remaining attempt lastError payment i) w = (Fulfilled r, w')
      /\ index r = i
      /\ (n <= remaining)%nat
      /\ timeouts w'
         = (timeouts w ++ map (fun k => retryDelayMs options * Z.of_nat k)
                              (seq attempt (n - 1)))%list
      /\ match error r with
         | Some e =>
             n = remaining /\ code e = "max_retries_exceeded" /\ message e <> ""
             /\ db_calls w' = (db_calls w + n)%nat
         | None =>
             (1 <= n)%nat /\ db_calls w' = (db_calls w + n + 1)%nat
         end.
Proof.
  induction remaining as [| remaining IH]; intros attempt lastError w Hsum.
  - cbn [BatchPaymentService.attempts_from Async.run].
    eexists; exists 0%nat; eexists. split; [reflexivity |].
    cbn [index error code message seq map]. rewrite app_nil_r.
    repeat split; try lia. now apply or_default_not_empty.
  - cbn [BatchPaymentService.attempts_from].
    rewrite run_try_catch, run_bind. unfold Async.call.
    cbn [Async.run Store.handle Store.draw_uuid]. rewrite run_bind.
    match goal with
    | |- context [Async.run (PaymentService.createPayment ?b ?p ?k ?h) ?w0] =>
        destruct (createPayment_effects b p k h w0) as ([result | e] & w1 & Hcreate & Ht & Hc)
    end; rewrite Hcreate; cbn [fst snd timeouts db_calls] in Ht, Hc.
    + cbn [Async.run]. eexists; exists 1%nat; eexists.
      split; [reflexivity |]. cbn [index error seq map Nat.sub].
      rewrite app_nil_r. repeat split; try lia. exact Ht.
    + rewrite run_bind.
      destruct (attempt <? maxRetryAttempts options)%nat eqn:Hlt.
      * apply Nat.ltb_lt in Hlt.
        unfold BatchPaymentService.delay, Async.call.
        cbn [Async.run Store.handle].
        destruct (IH (S attempt) (Some e)
                    (Store.sleep (retryDelayMs options * Z.of_nat attempt) w1))
          as (r & n & w' & Hrun & Hi & Hn & Htimers & Hcase); [lia |].
        exists r, (S n), w'. split; [exact Hrun |]. split; [exact Hi |].
        split; [lia |].
        assert (Hn1 : (1 <= n)%nat).
        { destruct (error r); [destruct Hcase as [-> _]; lia | apply Hcase]. }
        split.
        -- rewrite Htimers. cbn [timeouts Store.sleep]. rewrite Ht.
           replace (S n - 1)%nat with n by lia.
           rewrite (seq_head attempt n Hn1). cbn [map].
           now rewrite <- app_assoc.
        -- cbn [db_calls Store.sleep] in Hcase. rewrite Hc in Hcase.
           destruct (error r).
           ++ destruct Hcase as (-> & Hcode & Hmsg & Hcalls).
              repeat split; trivial. rewrite Hcalls. lia.
           ++ destruct Hcase as (_ & Hcalls). split; [lia |]. rewrite Hcalls. lia.
      * apply Nat.ltb_ge in Hlt. cbn [Async.run].
        assert (remaining = 0%nat) by lia. subst remaining.
        cbn [BatchPaymentService.attempts_from Async.run].
        eexists; exists 1%nat; eexists. split; [reflexivity |].
        cbn [index error code message seq map Nat.sub]. rewrite app_nil_r.
        repeat split; try lia; trivial.
        now apply or_default_not_empty.
Qed.

(** C7. Over the payment service, [processPaymentWithRetry] makes [n]
    creation attempts, at most [maxRetryAttempts]; the timers it sets are
    exactly [retryDelayMs * 1, ..., retryDelayMs * (n - 1)], one after each
    failed attempt but the last; it ends with a result for its index, and
    that result is an error (code [max_retries_exceeded], with a message)
    only when all [maxRetryAttempts] attempts were made, none being
    followed by a timer once the last has failed. And in a batch (at most
    100 payments, at least one worker) whose creation call always fails,
    be it an injected service that always throws or the payment service
    over a storage engine that is down, [succeeded] is 0, [failed] is the
    number of payments, and every slot holds that error with a message
    that is not empty. *)
Theorem retry_backoff_and_exhaustion :
  (forall (checkoutBaseUrl : string) (options : BatchProcessingOptions)
          (payment : CreatePaymentRequest) (i : nat) (w : World),
      exists r n w',
        Async.run (BatchPaymentService.processPaymentWithRetry
                     (PaymentService.createPayment checkoutBaseUrl) options payment i) w
        = (Fulfilled r, w')
        /\ index r = i
        /\ (n <= maxRetryAttempts options)%nat
        /\ timeouts w'
           = (timeouts w ++ backoff_delays (retryDelayMs options) (n - 1))%list
        /\ match error r with
           | Some e =>
               n = maxRetryAttempts options
               /\ code e = "max_retries_exceeded" /\ message e <> ""
               /\ db_calls w' = (db_calls w + n)%nat
           | None =>
               (1 <= n)%nat /\ db_calls w' = (db_calls w + n + 1)%nat
           end)
  /\ (forall (createPayment : CreatePaymentRequest -> string -> string
                              -> Task CreatePaymentResponse)
             (options : BatchProcessingOptions) (sched : nat -> list nat)
             (payments : list CreatePaymentRequest) (idempotencyKey requestHash : string)
             (w : World),
         (1 <= maxConcurrentWorkers options)%nat ->
         (List.length payments <= 100)%nat ->
         (forall payment key hash,
             always (fun s => exists e, s = Rejected e) (createPayment payment key hash))
         \/ ((exists checkoutBaseUrl,
                 createPayment = PaymentService.createPayment checkoutBaseUrl)
             /\ store_down w) ->
         exists response w',
           BatchPaymentService.processBatch createPayment options sched payments
             idempotencyKey requestHash w = Some (Fulfilled response, w')
           /\ succeeded response = 0
           /\ failed response = Z.of_nat (List.length payments)
           /\ List.length (results response) = List.length payments
           /\ forall j, (j < List.length payments)%nat ->
                exists r e,
                  nth_error (results response) j = Some (Some r)
                  /\ index r = j
                  /\ error r = Some e
                  /\ code e = "max_retries_exceeded"
                  /\ message e <> "").
Proof.
  split.
  - intros checkoutBaseUrl options payment i w.
    destruct (attempts_from_backoff checkoutBaseUrl options payment i
                (maxRetryAttempts options) 1%nat None w eq_refl)
      as (r & n & w' & H). now exists r, n, w'.
  - intros createPayment options sched payments idempotencyKey requestHash w HW Hmax Hfail.
    set (Slot := fun (j : nat) (_ : CreatePaymentRequest) (r : BatchPaymentResult) =>
                   index r = j
                   /\ exists e, error r = Some e /\ code e = "max_retries_exceeded"
                                /\ message e <> "").
    assert (Hgood : exists response w',
               BatchPaymentService.processBatch createPayment options sched payments
                 idempotencyKey requestHash w = Some (Fulfilled response, w')
               /\ settled_so_far Slot payments
                    {| BatchPaymentService.t_results := results response;
                       BatchPaymentService.t_succeeded := succeeded response;
                       BatchPaymentService.t_failed := failed response |}
                    (List.length payments)).
    { assert (Hexhausted : forall j (item : CreatePaymentRequest) lastError,
                 exists r, Fulfilled
                   {| index := j; r_paymentId := None; r_status := None;
                      error := Some
                        {| code := "max_retries_exceeded";
                           message := JS.or_default (option_map JS.message lastError)
                             "Payment processing failed after all retry attempts" |} |}
                 = Fulfilled r /\ Slot j item r).
      { intros j item lastError. eexists. split; [reflexivity |]. split; [reflexivity |].
        eexists. repeat split. cbn [message]. now apply or_default_not_empty. }
      destruct Hfail as [Hmock | [[checkoutBaseUrl ->] Hdown]].
      - apply (processBatch_good createPayment options (fun _ => True) anything_invariant
                 Slot) with (w := w); trivial.
        intros j item.
        apply attempts_from_always_in with (Q := fun s => exists e, s = Rejected e).
        + intros key hash. apply always_always_in, Hmock.
        + intros lastError. destruct (Hexhausted j item lastError) as (r & Hr & Hs & He).
          exists r. split; [exact Hr |]. split; [exact Hs | exact He].
        + intros result [e He]. discriminate He.
      - apply (processBatch_good (PaymentService.createPayment checkoutBaseUrl) options
                 store_down store_down_invariant Slot) with (w := w); trivial.
        intros j item.
        apply attempts_from_always_in with (Q := fun s => exists e, s = Rejected e).
        + intros key hash. unfold PaymentService.createPayment.
          apply always_in_try_catch. unfold Async.call, Async.await.
          cbn [Async.bind always_in]. intros w1 _ w2 Hw2.
          cbn [Store.handle fst]. unfold Store.guarded.
          destruct (db_fault w2 (db_calls w2)) eqn:Hf; [| now apply Hw2 in Hf].
          cbn [fst Async.bind always_in]. eauto.
        + intros lastError. destruct (Hexhausted j item lastError) as (r & Hr & Hs & He).
          exists r. split; [exact Hr |]. split; [exact Hs | exact He].
        + intros result [e He]. discriminate He. }
    destruct Hgood as (response & w' & Hrun & Hlen & Hsum & Hok & Hko & Hslots).
    cbn [BatchPaymentService.t_results BatchPaymentService.t_succeeded
         BatchPaymentService.t_failed] in *.
    assert (Hnone : filter has_payment (results response) = []).
    { clear - Hlen Hslots. subst Slot.
      assert (H : forall slot, In slot (results response) -> has_payment slot = false).
      { intros slot Hin. apply In_nth_error in Hin as [j Hj].
        assert (Hlt : (j < List.length payments)%nat).
        { rewrite <- Hlen. apply nth_error_Some. congruence. }
        destruct (Hslots j Hlt) as (item & r & _ & Hr & _ & e & He & _).
        rewrite Hr in Hj. inversion Hj; subst. simpl. now rewrite He. }
      clear - H.
      induction (results response) as [| slot rest IHr]; simpl; trivial.
      rewrite (H slot (or_introl eq_refl)). apply IHr.
      intros s Hs. apply H. now right. }
    rewrite Hnone in Hok. cbn in Hok.
    exists response, w'. split; [exact Hrun |]. split; [exact Hok |].
    split; [lia |]. split; [exact Hlen |].
    intros j Hj. destruct (Hslots j Hj) as (item & r & _ & Hr & Hi & e & He & Hc & Hm).
    now exists r, e.
Qed.

Lemma retry_backoff_and_exhaustion_witness :
  exists response w',
    BatchPaymentService.processBatch Example.always_failing Example.two_workers
      Example.second_first Example.three_payments Example.key_1 "batch-hash"
      Example.empty_world = Some (Fulfilled response, w')
    /\ succeeded response = 0 /\ failed response = 3.
Proof.
  destruct (proj2 retry_backoff_and_exhaustion Example.always_failing Example.two_workers
              Example.second_first Example.three_payments Example.key_1 "batch-hash"
              Example.empty_world)
    as (response & w' & Hrun & Hok & Hko & _).
  - simpl; lia.
  - simpl; lia.
  - left. intros payment key hash. simpl. eauto.
  - exists response, w'. split; [exact Hrun |]. split; [exact Hok | exact Hko].
Defined.

(* ================================================================== *)
(** * Listing                                                          *)
(* ================================================================== *)

Lemma insert_desc_perm (p : Payment.t) (rows : list Payment.t) :
  Permutation (Store.insert_desc p rows) (p :: rows).
Proof.
  induction rows as [| q rows IH]; simpl; [reflexivity |].
  destruct (Payment.createdAt q <? Payment.createdAt p); [reflexivity |].
  rewrite IH. apply perm_swap.
Qed.

Lemma order_desc_perm (rows : list Payment.t) :
  Permutation (Store.order_desc rows) rows.
Proof.
  induction rows as [| p rows IH]; simpl; [reflexivity |].
  rewrite insert_desc_perm. now constructor.
Qed.

Lemma insert_desc_sorted (p : Payment.t) (rows : list Payment.t) :
  StronglySorted not_older rows -> StronglySorted not_older (Store.insert_desc p rows).
Proof.
  induction rows as [| q rows IH]; simpl; intros Hs.
  - constructor; constructor.
  - inversion Hs as [| ? ? Hrest Hq]; subst.
    destruct (Payment.createdAt q <? Payment.createdAt p) eqn:E.
    + apply Z.ltb_lt in E. constructor; [exact Hs |].
      constructor; [unfold not_older; lia |].
      eapply Forall_impl; [| exact Hq]. unfold not_older. intros x Hx. lia.
    + apply Z.ltb_ge in E. constructor; [now apply IH |].
      apply Forall_forall. intros x Hx.
      apply (Permutation_in _ (insert_desc_perm p rows)) in Hx.
      destruct Hx as [<- | Hx]; [unfold not_older; lia |].
      rewrite Forall_forall in Hq. now apply Hq.
Qed.

Lemma order_desc_sorted (rows : list Payment.t) :
  StronglySorted not_older (Store.order_desc rows).
Proof.
  induction rows as [| p rows IH]; simpl; [constructor | now apply insert_desc_sorted].
Qed.

(** With no two rows of the same timestamp, the order is strict. *)
Lemma sorted_strict (rows : list Payment.t) :
  StronglySorted not_older rows -> NoDup (map Payment.createdAt rows) ->
  StronglySorted newer rows.
Proof.
  induction rows as [| p rows IH]; intros Hs Hn; [constructor |].
  inversion Hs as [| ? ? Hrest Hp]; subst. inversion Hn as [| ? ? Hnot Hn']; subst.
  constructor; [now apply IH |].
  apply Forall_forall. intros x Hx. rewrite Forall_forall in Hp.
  specialize (Hp x Hx). unfold not_older, newer in *.
  assert (Payment.createdAt p <> Payment.createdAt x).
  { intros E. apply Hnot. rewrite E. now apply in_map. }
  lia.
Qed.

(** Two strictly ordered lists with the same rows are the same list. *)
Lemma sorted_unique (l1 : list Payment.t) :
  forall l2, StronglySorted newer l1 -> StronglySorted newer l2 ->
             (forall x, In x l1 <-> In x l2) -> l1 = l2.
Proof.
  induction l1 as [| a l1 IH]; intros [| b l2] H1 H2 Hin.
  - reflexivity.
  - exfalso. apply (proj2 (Hin b)). now left.
  - exfalso. apply (proj1 (Hin a)). now left.
  - inversion H1 as [| ? ? Hs1 Ha]; subst. inversion H2 as [| ? ? Hs2 Hb]; subst.
    rewrite Forall_forall in Ha, Hb.
    assert (Hab : a = b).
    { destruct (proj1 (Hin a) (or_introl eq_refl)) as [E | E]; [now symmetry |].
      destruct (proj2 (Hin b) (or_introl eq_refl)) as [E' | E']; [exact E' |].
      specialize (Ha b E'). specialize (Hb a E). unfold newer in *. lia. }
    subst b. f_equal. apply IH; trivial.
    intros x. split; intros Hx.
    + destruct (proj1 (Hin x) (or_intror Hx)) as [E | E]; [| exact E].
      subst x. specialize (Ha a Hx). unfold newer in Ha. lia.
    + destruct (proj2 (Hin x) (or_intror Hx)) as [E | E]; [| exact E].
      subst x. specialize (Hb a Hx). unfold newer in Hb. lia.
Qed.

Lemma skipn_sorted {R : Payment.t -> Payment.t -> Prop} (n : nat)
    (rows : list Payment.t) :
  StronglySorted R rows -> StronglySorted R (skipn n rows).
Proof.
  revert rows; induction n as [| n IH]; intros [| p rows] Hs; simpl; trivial.
  inversion Hs; subst. now apply IH.
Qed.

(** In a strictly ordered list, what comes after a row is what is older
    than it. *)
Lemma skipn_older (rows : list Payment.t) :
  forall k y x,
    StronglySorted newer rows -> nth_error rows k = Some y ->
    (In x (skipn (S k) rows)
     <-> In x rows /\ Payment.createdAt x < Payment.createdAt y).
Proof.
  induction rows as [| p rows IH]; intros k y x Hs Hk.
  - destruct k; discriminate.
  - inversion Hs as [| ? ? Hrest Hp]; subst. rewrite Forall_forall in Hp.
    destruct k as [| k]; simpl in Hk.
    + inversion Hk; subst y. simpl. split.
      * intros Hx. split; [now right |]. specialize (Hp x Hx). unfold newer in Hp. lia.
      * intros [[E | Hx] Hlt]; [subst; lia | exact Hx].
    + change (skipn (S (S k)) (p :: rows)) with (skipn (S k) rows).
      rewrite (IH k y x Hrest Hk). split.
      * intros [Hx Hlt]. split; [now right | exact Hlt].
      * intros [[E | Hx] Hlt]; [| now split].
        subst x. apply nth_error_In in Hk. specialize (Hp y Hk).
        unfold newer in Hp. lia.
Qed.

Lemma filter_both {X : Type} (f g : X -> bool) (l : list X) :
  filter (fun x => f x && g x) l = filter g (filter f l).
Proof.
  induction l as [| x l IH]; simpl; trivial.
  destruct (f x); simpl; [destruct (g x); now rewrite IH | exact IH].
Qed.

Lemma NoDup_map_filter {X Y : Type} (h : X -> Y) (g : X -> bool) (l : list X) :
  NoDup (map h l) -> NoDup (map h (filter g l)).
Proof.
  induction l as [| x l IH]; simpl; intros Hn; trivial.
  inversion Hn as [| ? ? Hnot Hn']; subst.
  destruct (g x); simpl; [| now apply IH].
  constructor; [| now apply IH].
  intros Hin. apply Hnot. apply in_map_iff in Hin as (y & Hy & Hin).
  apply filter_In in Hin as [Hin _]. rewrite <- Hy. now apply in_map.
Qed.

Lemma selected_sorted (options : FindOptions) (w : World) :
  NoDup (map Payment.createdAt (filter (Store.matches options) (payments w))) ->
  StronglySorted newer (selected options w).
Proof.
  intros Hn. apply sorted_strict; [apply order_desc_sorted |].
  eapply Permutation_NoDup; [| exact Hn].
  apply Permutation_map, Permutation_sym, order_desc_perm.
Qed.

Lemma selected_In (options : FindOptions) (w : World) (p : Payment.t) :
  In p (selected options w)
  <-> In p (payments w) /\ Store.matches options p = true.
Proof.
  unfold selected. rewrite <- filter_In. split; intros H.
  - eapply Permutation_in; [apply order_desc_perm | exact H].
  - eapply Permutation_in; [apply Permutation_sym, order_desc_perm | exact H].
Qed.

Lemma toISOString_not_empty (t : Z) : exists c rest, JS.toISOString t = String c rest.
Proof.
  unfold JS.toISOString. destruct (JS.civil_of_days _) as [[y m] d].
  match goal with
  | |- exists c rest, ?year ++ ?tail = _ =>
      destruct year as [| c s]; [cbn [append]; eauto | cbn [append]; eauto]
  end.
Qed.

Lemma effective_limit_bounds (query : ListPaymentsQuery) :
  (forall n, q_limit query = Some n -> 0 <= n) ->
  1 <= PaymentService.effective_limit query <= 100.
Proof.
  intros Hn. unfold PaymentService.effective_limit.
  destruct (q_limit query) as [n |]; [| lia].
  specialize (Hn n eq_refl). destruct n; lia.
Qed.

Lemma find_options_fields (query : ListPaymentsQuery) (options : FindOptions) :
  PaymentService.find_options query = Some options ->
  where_status options = q_status query
  /\ limit options = PaymentService.effective_limit query + 1.
Proof.
  unfold PaymentService.find_options.
  destruct (q_cursor query) as [[| c s] |].
  - intros H; inversion H; subst; simpl; auto.
  - destruct (JS.Date_parse (String c s)); intros H; inversion H; subst; simpl; auto.
  - intros H; inversion H; subst; simpl; auto.
Qed.

Lemma listPayments_run (query : ListPaymentsQuery) (options : FindOptions) (w : World) :
  db_fault w (db_calls w) = None ->
  PaymentService.find_options query = Some options ->
  Async.run (PaymentService.listPayments query) w
  = (Fulfilled (PaymentService.page_of query (Store.findAll options (payments w))),
     Store.tick w).
Proof.
  intros Hf Hopt. unfold PaymentService.listPayments. rewrite Hopt.
  rewrite run_bind, run_await. unfold Async.call. cbn [Async.run Store.handle].
  now rewrite guarded_answers by assumption.
Qed.

(** The page, in terms of all the rows the query selects. *)
Lemma page_of_selected (query : ListPaymentsQuery) (options : FindOptions) (w : World) :
  (forall n, q_limit query = Some n -> 0 <= n) ->
  PaymentService.find_options query = Some options ->
  let L := Z.to_nat (PaymentService.effective_limit query) in
  let all := selected options w in
  let page := PaymentService.page_of query (Store.findAll options (payments w)) in
  items page = map PaymentService.to_item (firstn L all)
  /\ nextCursor page
     = if (L <? List.length all)%nat
       then option_map (fun last => JS.toISOString (Payment.createdAt last))
                       (nth_error all (L - 1))
       else None.
Proof.
  intros Hn Hopt L all page.
  pose proof (effective_limit_bounds query Hn) as HL.
  destruct (find_options_fields query options Hopt) as [_ Hlimit].
  assert (Hrows : Store.findAll options (payments w) = firstn (S L) all).
  { unfold Store.findAll, Store.take_limit. rewrite Hlimit.
    replace (PaymentService.effective_limit query + 1 <? 0) with false
      by (symmetry; apply Z.ltb_ge; lia).
    f_equal. subst L. lia. }
  assert (Hitems : items page = map PaymentService.to_item (firstn L all)).
  { subst page. unfold PaymentService.page_of. cbn [items]. rewrite Hrows.
    unfold JS.slice0.
    replace (0 <=? PaymentService.effective_limit query) with true
      by (symmetry; apply Z.leb_le; lia).
    fold L. rewrite firstn_firstn. now replace (Nat.min L (S L)) with L by lia. }
  split; [exact Hitems |].
  subst page. unfold PaymentService.page_of in *. cbn [items nextCursor] in *.
  rewrite Hitems. rewrite Hrows, length_firstn, length_map, length_firstn.
  destruct (L <? List.length all)%nat eqn:Hmore.
  - apply Nat.ltb_lt in Hmore.
    replace (Z.of_nat (Nat.min (S L) (List.length all))
             >? PaymentService.effective_limit query) with true
      by (symmetry; apply Z.gtb_lt; subst L; lia).
    replace (Nat.min L (List.length all)) with L by lia.
    replace (L =? 0)%nat with false by (symmetry; apply Nat.eqb_neq; subst L; lia).
    cbn [andb negb]. rewrite nth_error_map, nth_error_firstn.
    replace (L - 1 <? L)%nat with true by (symmetry; apply Nat.ltb_lt; subst L; lia).
    destruct (nth_error all (L - 1)) as [last |]; cbn [option_map]; trivial.
    cbn [i_createdAt PaymentService.to_item].
    now destruct (toISOString_not_empty (Payment.createdAt last)) as (c & rest & ->).
  - apply Nat.ltb_ge in Hmore.
    replace (Z.of_nat (Nat.min (S L) (List.length all))
             >? PaymentService.effective_limit query) with false; [reflexivity |].
    symmetry. rewrite Z.gtb_ltb. apply Z.ltb_ge. subst L. lia.
Qed.

(** The query continued from the timestamp of a row it selected selects
    what follows that row. *)
Lemma selected_continued (query : ListPaymentsQuery) (options : FindOptions) (w : World)
    (k : nat) (last : Payment.t) :
  PaymentService.find_options query = Some options ->
  NoDup (map Payment.createdAt (filter (Store.matches options) (payments w))) ->
  nth_error (selected options w) k = Some last ->
  JS.Date_parse (JS.toISOString (Payment.createdAt last)) = Some (Payment.createdAt last) ->
  exists options',
    PaymentService.find_options
      (continued query (JS.toISOString (Payment.createdAt last))) = Some options'
    /\ selected options' w = skipn (S k) (selected options w).
Proof.
  intros Hopt Hnodup Hlast Hparse.
  destruct (find_options_fields query options Hopt) as [Hstatus Hlimit].
  exists {| where_status := q_status query;
            where_createdAt_lt := Some (Payment.createdAt last);
            limit := PaymentService.effective_limit query + 1 |}.
  split.
  - unfold PaymentService.find_options, continued. cbn [q_cursor q_status].
    destruct (toISOString_not_empty (Payment.createdAt last)) as (c & rest & E).
    rewrite E in *. now rewrite Hparse.
  - set (options' := {| where_status := q_status query;
                        where_createdAt_lt := Some (Payment.createdAt last);
                        limit := PaymentService.effective_limit query + 1 |}).
    assert (Hin : In last (selected options w)) by (eapply nth_error_In; eauto).
    apply selected_In in Hin as [_ Hmatch].
    assert (Hboth : forall p, Store.matches options' p
                              = Store.matches options p
                                && (Payment.createdAt p <? Payment.createdAt last)).
    { intros p. unfold Store.matches in *. cbn [where_status where_createdAt_lt options'].
      rewrite Hstatus in *.
      destruct (match q_status query with
                | Some s => Status_eqb (Payment.status p) s
                | None => true
                end); cbn [andb]; trivial.
      destruct (where_createdAt_lt options) as [c |]; cbn [andb]; trivial.
      apply andb_true_iff in Hmatch as [_ Hc]. apply Z.ltb_lt in Hc.
      destruct (Payment.createdAt p <? Payment.createdAt last) eqn:E.
      - apply Z.ltb_lt in E. rewrite andb_true_r. symmetry. apply Z.ltb_lt. lia.
      - now rewrite andb_false_r. }
    assert (Hfilter : filter (Store.matches options') (payments w)
                      = filter (fun p => Payment.createdAt p <? Payment.createdAt last)
                               (filter (Store.matches options) (payments w))).
    { rewrite <- filter_both. now apply filter_ext. }
    pose proof (selected_sorted options w Hnodup) as Hsorted.
    apply sorted_unique.
    + apply selected_sorted. rewrite Hfilter. now apply NoDup_map_filter.
    + now apply skipn_sorted.
    + intros x. rewrite (skipn_older _ k last x Hsorted Hlast).
      rewrite !selected_In, Hboth, andb_true_iff, Z.ltb_lt. tauto.
Qed.

Lemma matches_spec (options : FindOptions) (p : Payment.t) :
  Store.matches options p = true
  <-> (forall s, where_status options = Some s -> Payment.status p = s)
      /\ (forall c, where_createdAt_lt options = Some c -> Payment.createdAt p < c).
Proof.
  unfold Store.matches. rewrite andb_true_iff.
  destruct (where_status options) as [s |], (where_createdAt_lt options) as [c |];
    rewrite ?Z.ltb_lt; split.
  - intros [Hs Hc]. split; intros ? E; inversion E; subst; trivial.
    now destruct (Payment.status p), s0.
  - intros [Hs Hc]. split; [| now apply Hc].
    rewrite (Hs s eq_refl). now destruct s.
  - intros [Hs _]. split; intros ? E; inversion E; subst.
    now destruct (Payment.status p), s0.
  - intros [Hs _]. split; trivial. rewrite (Hs s eq_refl). now destruct s.
  - intros [_ Hc]. split; intros ? E; inversion E; subst; trivial.
  - intros [_ Hc]. split; [trivial | now apply Hc].
  - intros _. split; intros ? E; inversion E.
  - intros _. now split.
Qed.

(** C8, as the code has it. For a list query whose limit, when given,
    is not negative and whose cursor, when given, is a date, on a store
    that answers and whose selected payments all have different creation
    timestamps: the effective limit is the requested one (20 when it is
    absent or 0), capped at 100, and the store is asked for one row more;
    the rows selected are those of the requested status created strictly
    before the cursor, in strictly descending order of creation; the page
    is the first [limit] of them; [nextCursor] is set exactly when more
    than [limit] rows are selected, and it is then the creation timestamp
    of the last item of the page; and the page asked for with that
    cursor is made of the [limit] rows that follow: no overlap, no gap. *)
Theorem listPayments_pages (query : ListPaymentsQuery) (options : FindOptions) (w : World) :
  db_fault w (db_calls w) = None ->
  (forall n, q_limit query = Some n -> 0 <= n) ->
  PaymentService.find_options query = Some options ->
  NoDup (map Payment.createdAt (filter (Store.matches options) (payments w))) ->
  let L := Z.to_nat (PaymentService.effective_limit query) in
  let all := selected options w in
  PaymentService.effective_limit query
  = Z.min (match q_limit query with Some 0 | None => 20 | Some n => n end) 100
  /\ 1 <= PaymentService.effective_limit query <= 100
  /\ limit options = PaymentService.effective_limit query + 1
  /\ StronglySorted newer all
  /\ (forall p, In p all
                <-> In p (payments w)
                    /\ (forall s, q_status query = Some s -> Payment.status p = s)
                    /\ (forall c, where_createdAt_lt options = Some c ->
                                  Payment.createdAt p < c))
  /\ exists page,
      Async.run (PaymentService.listPayments query) w = (Fulfilled page, Store.tick w)
      /\ items page = map PaymentService.to_item (firstn L all)
      /\ (nextCursor page <> None <-> (L < List.length all)%nat)
      /\ forall cursor,
           nextCursor page = Some cursor ->
           exists last,
             nth_error (firstn L all) (L - 1) = Some last
             /\ cursor = JS.toISOString (Payment.createdAt last)
             /\ (JS.Date_parse cursor = Some (Payment.createdAt last) ->
                 db_fault w (S (db_calls w)) = None ->
                 exists page',
                   Async.run (PaymentService.listPayments (continued query cursor))
                             (Store.tick w)
                   = (Fulfilled page', Store.tick (Store.tick w))
                   /\ items page'
                      = map PaymentService.to_item (firstn L (skipn L all))).
Proof.
  intros Hf Hn Hopt Hnodup L all.
  pose proof (effective_limit_bounds query Hn) as HL.
  destruct (find_options_fields query options Hopt) as [Hstatus Hlimit].
  split; [reflexivity |]. split; [exact HL |]. split; [exact Hlimit |].
  split; [now apply selected_sorted |].
  split.
  { intros p. subst all. rewrite selected_In, matches_spec, Hstatus. tauto. }
  exists (PaymentService.page_of query (Store.findAll options (payments w))).
  destruct (page_of_selected query options w Hn Hopt) as [Hitems Hnext].
  fold L all in Hitems, Hnext.
  split; [now apply listPayments_run |]. split; [exact Hitems |].
  assert (HL1 : (1 <= L)%nat) by (subst L; lia).
  split.
  { rewrite Hnext. destruct (L <? List.length all)%nat eqn:Hmore.
    - apply Nat.ltb_lt in Hmore. split; [trivial | intros _].
      destruct (nth_error all (L - 1)) eqn:E; [discriminate |].
      apply nth_error_None in E. lia.
    - apply Nat.ltb_ge in Hmore. split; [congruence | lia]. }
  intros cursor Hcursor. rewrite Hnext in Hcursor.
  destruct (L <? List.length all)%nat eqn:Hmore; [| discriminate].
  destruct (nth_error all (L - 1)) as [last |] eqn:Hlast; [| discriminate].
  cbn [option_map] in Hcursor. inversion Hcursor; subst cursor. clear Hcursor.
  exists last. split.
  { rewrite nth_error_firstn.
    replace (L - 1 <? L)%nat with true by (symmetry; apply Nat.ltb_lt; lia).
    exact Hlast. }
  split; [reflexivity |].
  intros Hparse Hf'.
  destruct (selected_continued query options w (L - 1) last Hopt Hnodup Hlast Hparse)
    as (options' & Hopt' & Hsel).
  replace (S (L - 1)) with L in Hsel by lia.
  exists (PaymentService.page_of (continued query (JS.toISOString (Payment.createdAt last)))
            (Store.findAll options' (payments (Store.tick w)))).
  split; [now apply listPayments_run |].
  destruct (page_of_selected (continued query (JS.toISOString (Payment.createdAt last)))
              options' (Store.tick w) Hn Hopt') as [Hitems' _].
  rewrite Hitems'. unfold selected in *. cbn [payments Store.tick].
  now rewrite Hsel.
Qed.

Lemma listPayments_pages_witness :
  map i_id (enumerate 3 Example.first_two Example.five_world)
  = ["e0000000-0000-4000-8000-000000000005"; "d0000000-0000-4000-8000-000000000004";
     "c0000000-0000-4000-8000-000000000003"; "b0000000-0000-4000-8000-000000000002";
     "a0000000-0000-4000-8000-000000000001"]
  /\ exists page,
       Async.run (PaymentService.listPayments Example.first_two) Example.five_world
       = (Fulfilled page, Store.tick Example.five_world)
       /\ map i_id (items page)
          = ["e0000000-0000-4000-8000-000000000005";
             "d0000000-0000-4000-8000-000000000004"].
Proof.
  split; [vm_compute; reflexivity |].
  destruct (listPayments_pages Example.first_two Example.first_two_options
              Example.five_world)
    as (_ & _ & _ & _ & _ & page & Hrun & Hitems & _).
  - reflexivity.
  - intros n H. inversion H. lia.
  - reflexivity.
  - vm_compute. repeat constructor; simpl; intuition discriminate.
  - exists page. split; [exact Hrun |]. rewrite Hitems. vm_compute. reflexivity.
Defined.

(** C8, as the claim states it, does not hold: with two payments created
    in the same millisecond, the first page of two ends on one of them,
    the cursor is their common timestamp, and the other one is on no page
    (whichever of the two the store lists first). *)
Lemma listing_skips_tied_payment :
  ~ skips_nothing Example.first_two Example.tied_world.
Proof.
  intros H.
  specialize (H (Example.payment_at "b0000000-0000-4000-8000-000000000002" "k-b"
                   pending (Example.t0 + 1000))).
  assert (E : map i_id (enumerate (S (List.length (payments Example.tied_world)))
                          Example.first_two Example.tied_world)
              = ["d0000000-0000-4000-8000-000000000004";
                 "c0000000-0000-4000-8000-000000000003";
                 "a0000000-0000-4000-8000-000000000001"])
    by (vm_compute; reflexivity).
  rewrite E in H. clear E.
  assert (Hin : In (Payment.id (Example.payment_at "b0000000-0000-4000-8000-000000000002"
                                  "k-b" pending (Example.t0 + 1000)))
                   ["d0000000-0000-4000-8000-000000000004";
                    "c0000000-0000-4000-8000-000000000003";
                    "a0000000-0000-4000-8000-000000000001"]).
  { apply H.
    - right. left. reflexivity.
    - intros s Hs. discriminate Hs. }
  cbn [Payment.id Example.payment_at] in Hin.
  destruct Hin as [Hin | [Hin | [Hin | []]]]; discriminate Hin.
Qed.

(* ================================================================== *)
(** * What a batch leaves in the store                                 *)
(* ================================================================== *)



Section Ensures.

Context {A : Type}.












End Ensures.









Section BatchInStore.

Variable checkoutBaseUrl : string.
Variable options : BatchProcessingOptions.
Variable payments : list CreatePaymentRequest.



End BatchInStore.



(* ================================================================== *)
(** * Further properties of the payment service                        *)
(* ================================================================== *)

Lemma findKey_existsb (key : string) (rows : list IdempotencyKey.t) :
  existsb (fun r => String.eqb (IdempotencyKey.key r) key) rows
  = match Store.findKey key rows with Some _ => true | None => false end.
Proof.
  unfold Store.findKey. induction rows as [| r rows IH]; simpl; trivial.
  destruct (String.eqb (IdempotencyKey.key r) key); simpl; trivial.
Qed.

(** What [storeIdempotencyResponse] does, in every world: one store call,
    a record appended when the engine answers and the key is new, and
    nothing else. *)
Lemma storeIdempotencyResponse_cases (key hash : string) (data : JS.json) (w : World) :
  exists w',
    Async.run (Idempotency.storeIdempotencyResponse key hash data) w = (Fulfilled tt, w')
    /\ payments w' = payments w
    /\ payment_histories w' = payment_histories w
    /\ db_fault w' = db_fault w
    /\ db_calls w' = S (db_calls w)
    /\ now w' = now w
    /\ timeouts w' = timeouts w
    /\ match db_fault w (db_calls w), Store.findKey key (idempotency_keys w) with
       | None, None =>
           idempotency_keys w'
           = (idempotency_keys w
              ++ [{| IdempotencyKey.id := uuid_at w (uuid_next w);
                     IdempotencyKey.key := key;
                     IdempotencyKey.requestHash := hash;
                     IdempotencyKey.responseData := JS.JSON_stringify data;
                     IdempotencyKey.expiresAt := now w + Idempotency.hours_24;
                     IdempotencyKey.createdAt := now w |}])%list
           /\ uuid_next w' = S (uuid_next w)
       | _, _ => idempotency_keys w' = idempotency_keys w /\ uuid_next w' = uuid_next w
       end.
Proof.
  unfold Idempotency.storeIdempotencyResponse.
  rewrite run_try_catch, run_bind. simpl. unfold Store.guarded.
  destruct (db_fault w (db_calls w)) as [m |]; simpl.
  - eexists. split; [reflexivity |]. simpl. repeat split.
  - rewrite findKey_existsb.
    destruct (Store.findKey key (idempotency_keys w)); simpl;
      (eexists; split; [reflexivity |]; simpl; repeat split).
Qed.











(* ================================================================== *)
(** * Further properties of the idempotency middleware                 *)
(* ================================================================== *)

Lemma pattern_matches_spec (pattern : list (ascii -> bool)) :
  forall s,
    Idempotency.matches pattern s = true
    <-> String.length s = List.length pattern
        /\ forall i class c,
            nth_error pattern i = Some class -> String.get i s = Some c ->
            class c = true.
Proof.
  induction pattern as [| class0 pattern IH]; intros s.
  - destruct s; simpl.
    + split; [intros _; split; [reflexivity |] | reflexivity].
      intros [| i] class c H; discriminate H.
    + split; [discriminate | intros [H _]; discriminate H].
  - destruct s as [| c0 s]; simpl.
    + split; [discriminate | intros [H _]; discriminate H].
    + rewrite andb_true_iff, IH. split.
      * intros (Hc & Hlen & Hrest). split; [now rewrite Hlen |].
        intros [| i] class c Hn Hg; simpl in Hn, Hg.
        -- now inversion Hn; inversion Hg; subst.
        -- now apply (Hrest i).
      * intros (Hlen & Hall). split; [exact (Hall 0%nat class0 c0 eq_refl eq_refl) |].
        split; [now inversion Hlen |].
        intros i class c Hn Hg. exact (Hall (S i) class c Hn Hg).
Qed.

Lemma In_existsb_ascii (c : ascii) (l : list ascii) :
  In c l <-> existsb (Ascii.eqb c) l = true.
Proof.
  rewrite existsb_exists. split.
  - intros H. exists c. split; [exact H | apply Ascii.eqb_refl].
  - intros (x & Hx & Hc). apply Ascii.eqb_eq in Hc. now subst x.
Qed.

Lemma is_hex_spec (c : ascii) :
  Idempotency.is_hex c = true
  <-> In c (list_ascii_of_string "0123456789abcdefABCDEF").
Proof.
  rewrite In_existsb_ascii.
  destruct c as [[] [] [] [] [] [] [] []]; split; intros H; solve [exact H | reflexivity].
Qed.

Lemma is_version_spec (c : ascii) :
  Idempotency.is_version c = true <-> In c (list_ascii_of_string "12345").
Proof.
  rewrite In_existsb_ascii.
  destruct c as [[] [] [] [] [] [] [] []]; split; intros H; solve [exact H | reflexivity].
Qed.

Lemma is_variant_spec (c : ascii) :
  Idempotency.is_variant c = true <-> In c (list_ascii_of_string "89abAB").
Proof.
  rewrite In_existsb_ascii.
  destruct c as [[] [] [] [] [] [] [] []]; split; intros H; solve [exact H | reflexivity].
Qed.

Lemma is_dash_spec (c : ascii) :
  Idempotency.is_dash c = true <-> c = "-"%char.
Proof.
  split.
  - destruct c as [[] [] [] [] [] [] [] []]; intros H; solve [discriminate H | reflexivity].
  - intros ->. reflexivity.
Qed.

Lemma get_Some_lt (s : string) :
  forall i c, String.get i s = Some c -> (i < String.length s)%nat.
Proof.
  induction s as [| c0 s IH]; intros [| i] c H; simpl in *; try discriminate; try lia.
  apply IH in H. lia.
Qed.

Lemma uuidRegex_test_shape (s : string) :
  Idempotency.uuidRegex_test s = true <-> uuid_shape s.
Proof.
  unfold Idempotency.uuidRegex_test, uuid_shape. rewrite pattern_matches_spec.
  change (List.length Idempotency.uuid_pattern) with 36%nat.
  split; intros [Hlen Hall]; (split; [exact Hlen |]).
  - intros i c Hget.
    assert (Hi : (i < 36)%nat) by (rewrite <- Hlen; now apply get_Some_lt with c).
    do 36 (destruct i as [| i];
           [match type of Hget with
            | String.get ?k _ = _ => pose proof (Hall k _ c eq_refl Hget) as Hk
            end; cbn [Nat.eqb orb];
            first [now apply is_dash_spec | now apply is_version_spec
                  | now apply is_variant_spec | now apply is_hex_spec] |]).
    lia.
  - intros i class c Hn Hget.
    do 36 (destruct i as [| i];
           [pose proof (Hall _ c Hget) as Hk; cbn [Nat.eqb orb] in Hk;
            inversion Hn; subst class;
            first [now apply is_dash_spec | now apply is_version_spec
                  | now apply is_variant_spec | now apply is_hex_spec] |]).
    cbn in Hn. destruct i; discriminate Hn.
Qed.

(** X4. The idempotency key that [checkIdempotency] accepts is exactly a
    string of the shape [uuid_shape]. A request whose header is missing,
    empty or of any other shape is answered 400 ("Missing idempotency
    key" for a missing or empty header, "Invalid idempotency key format"
    otherwise) without a single store call; a request whose key has the
    shape costs exactly one store call and is never answered 400. *)
Theorem checkIdempotency_key_format (JSON_parse : string -> option JS.json)
    (req : Http.Request) (w : World) :
  (forall s, Idempotency.uuidRegex_test s = true <-> uuid_shape s)
  /\ ((forall key, Http.header_idempotency_key req = Some key -> ~ uuid_shape key) ->
      Async.run (Idempotency.checkIdempotency JSON_parse req) w
      = (Fulfilled (Http.Responded
                      match Http.header_idempotency_key req with
                      | None | Some EmptyString => missing_key_response
                      | Some _ => invalid_key_response
                      end), w))
  /\ (forall key,
         Http.header_idempotency_key req = Some key -> uuid_shape key ->
         snd (Async.run (Idempotency.checkIdempotency JSON_parse req) w) = Store.tick w
         /\ forall r,
             fst (Async.run (Idempotency.checkIdempotency JSON_parse req) w)
             = Fulfilled (Http.Responded r) ->
             Http.status_code r <> 400).
Proof.
  split; [exact uuidRegex_test_shape |]. split.
  - intros Hbad. unfold Idempotency.checkIdempotency.
    destruct (Http.header_idempotency_key req) as [[| c key] |]; try reflexivity.
    destruct (Idempotency.uuidRegex_test (String c key)) eqn:E; [| reflexivity].
    exfalso. apply (Hbad _ eq_refl). now apply uuidRegex_test_shape.
  - intros key Hkey Hshape. apply uuidRegex_test_shape in Hshape.
    destruct (db_fault w (db_calls w)) as [m |] eqn:Hf.
    + unfold Idempotency.checkIdempotency. rewrite Hkey.
      destruct (uuid_not_empty key Hshape) as (c & rest & ->).
      rewrite Hshape. cbn [negb]. rewrite run_try_catch, run_bind, run_await.
      unfold Async.call. cbn [Async.run Store.handle].
      rewrite (guarded_fails _ _ m Hf). cbn.
      split; [reflexivity |]. intros r H. inversion H; subst r. discriminate.
    + rewrite (checkIdempotency_run JSON_parse req w key Hkey Hshape Hf).
      cbn [fst snd]. split; [reflexivity |]. intros r H.
      destruct (Store.findKey key (idempotency_keys w)) as [existing |];
        [| discriminate H].
      destruct (String.eqb (IdempotencyKey.requestHash existing) _).
      * destruct (JSON_parse (IdempotencyKey.responseData existing));
          inversion H; subst r; discriminate.
      * inversion H; subst r. discriminate.
Qed.

Lemma checkIdempotency_key_format_witness :
  Async.run (Idempotency.checkIdempotency (fun _ => None)
               (Example.request_of "not-a-uuid" (Example.body_of 50000)))
            Example.empty_world
  = (Fulfilled (Http.Responded invalid_key_response), Example.empty_world).
Proof.
  apply (proj1 (proj2 (checkIdempotency_key_format (fun _ => None)
                         (Example.request_of "not-a-uuid" (Example.body_of 50000))
                         Example.empty_world))).
  intros key Hkey [Hlen _]. inversion Hkey; subst key. discriminate Hlen.
Defined.

Lemma tick_same_tables (w : World) : same_tables w (Store.tick w).
Proof. repeat split. Qed.

Lemma same_tables_refl (w : World) : same_tables w w.
Proof. repeat split. Qed.


(** What [checkIdempotency] does, in every world. *)
Lemma checkIdempotency_cases (JSON_parse : string -> option JS.json)
    (req : Http.Request) (w : World) :
  exists outcome w',
    Async.run (Idempotency.checkIdempotency JSON_parse req) w = (Fulfilled outcome, w')
    /\ (w' = w \/ w' = Store.tick w)
    /\ match outcome with
       | Http.Responded r =>
           In (Http.status_code r) [200; 400; 409; 500]
           /\ (Http.status_code r = 200 ->
               exists key existing,
                 Http.header_idempotency_key req = Some key
                 /\ Store.findKey key (idempotency_keys w) = Some existing
                 /\ IdempotencyKey.requestHash existing
                    = Idempotency.requestHash_of (Http.body req)
                 /\ JSON_parse (IdempotencyKey.responseData existing)
                    = Some (Http.payload r))
           /\ (Http.status_code r = 500 ->
               Http.payload r = Http.error_payload "Internal server error"
                                  "Failed to process idempotency check")
       | Http.Next req' =>
           exists key,
             Http.header_idempotency_key req = Some key
             /\ Idempotency.uuidRegex_test key = true
             /\ db_fault w (db_calls w) = None
             /\ Store.findKey key (idempotency_keys w) = None
             /\ w' = Store.tick w
             /\ req' = {| Http.header_idempotency_key := Some key;
                          Http.body := Http.body req;
                          Http.idempotencyKey := Some key;
                          Http.requestHash :=
                            Some (Idempotency.requestHash_of (Http.body req)) |}
       end.
Proof.
  destruct (Http.header_idempotency_key req) as [key |] eqn:Hkey.
  2: { unfold Idempotency.checkIdempotency. rewrite Hkey.
       eexists; eexists. split; [reflexivity |]. split; [now left |].
       cbn. split; [tauto |]. split; [discriminate | try discriminate; reflexivity]. }
  destruct (Idempotency.uuidRegex_test key) eqn:Huuid.
  2: { unfold Idempotency.checkIdempotency. rewrite Hkey, Huuid.
       destruct key; (eexists; eexists; split; [reflexivity |]; split; [now left |]);
         cbn; (split; [tauto |]; split; discriminate). }
  destruct (db_fault w (db_calls w)) as [m |] eqn:Hf.
  - unfold Idempotency.checkIdempotency. rewrite Hkey.
    destruct (uuid_not_empty key Huuid) as (c & rest & ->).
    rewrite Huuid. cbn [negb]. rewrite run_try_catch, run_bind, run_await.
    unfold Async.call. cbn [Async.run Store.handle].
    rewrite (guarded_fails _ _ m Hf). cbn.
    eexists; eexists. split; [reflexivity |]. split; [now right |].
    cbn. split; [tauto |]. split; [discriminate | try discriminate; reflexivity].
  - rewrite (checkIdempotency_run JSON_parse req w key Hkey Huuid Hf).
    eexists; eexists. split; [reflexivity |]. split; [now right |].
    destruct (Store.findKey key (idempotency_keys w)) as [existing |] eqn:Hfind.
    + destruct (String.eqb (IdempotencyKey.requestHash existing) _) eqn:Hhash.
      * destruct (JSON_parse (IdempotencyKey.responseData existing)) eqn:Hparse.
        -- cbn. split; [tauto |]. split; [| discriminate]. intros _. exists key, existing.
           apply String.eqb_eq in Hhash. now repeat split.
        -- cbn. split; [tauto |]. split; [discriminate | try discriminate; reflexivity].
      * cbn. split; [tauto |]. split; [discriminate | try discriminate; reflexivity].
    + exists key. now repeat split.
Qed.

(** X5. [checkIdempotency] never throws and never writes: whatever the
    request, the store and the parser, it settles with an answer or hands
    the request on, after at most one store call, the tables being as
    they were. It answers with 200, 400, 409 or 500 only, and with 200
    only to replay the parsed record of the request's key when the hash
    of the body is the recorded one. It hands on only a request whose
    key is well-formed and has no record, with the key and the hash of
    the body attached. *)
Theorem checkIdempotency_reads_only (JSON_parse : string -> option JS.json)
    (req : Http.Request) (w : World) :
  exists outcome w',
    Async.run (Idempotency.checkIdempotency JSON_parse req) w = (Fulfilled outcome, w')
    /\ same_tables w w'
    /\ (db_calls w' <= S (db_calls w))%nat
    /\ match outcome with
       | Http.Responded r =>
           In (Http.status_code r) [200; 400; 409; 500]
           /\ (Http.status_code r = 200 ->
               exists key existing,
                 Http.header_idempotency_key req = Some key
                 /\ Store.findKey key (idempotency_keys w) = Some existing
                 /\ IdempotencyKey.requestHash existing
                    = Idempotency.requestHash_of (Http.body req)
                 /\ JSON_parse (IdempotencyKey.responseData existing)
                    = Some (Http.payload r))
           /\ (Http.status_code r = 500 ->
               Http.payload r = Http.error_payload "Internal server error"
                                  "Failed to process idempotency check")
       | Http.Next req' =>
           exists key,
             Http.header_idempotency_key req = Some key
             /\ uuid_shape key
             /\ Store.findKey key (idempotency_keys w) = None
             /\ Http.body req' = Http.body req
             /\ Http.idempotencyKey req' = Some key
             /\ Http.requestHash req' = Some (Idempotency.requestHash_of (Http.body req))
       end.
Proof.
  destruct (checkIdempotency_cases JSON_parse req w)
    as (outcome & w' & Hrun & Hw & Hout).
  exists outcome, w'. split; [exact Hrun |].
  split; [destruct Hw as [-> | ->]; [apply same_tables_refl | apply tick_same_tables] |].
  split; [destruct Hw as [-> | ->]; cbn; lia |].
  destruct outcome as [r | req']; [exact Hout |].
  destruct Hout as (key & Hkey & Huuid & _ & Hfind & _ & ->).
  exists key. apply uuidRegex_test_shape in Huuid.
  split; [exact Hkey |]. split; [exact Huuid |]. split; [exact Hfind |].
  cbn. repeat split.
Qed.

(* ================================================================== *)
(** * Further properties of the routes and the controllers             *)
(* ================================================================== *)



(* ================================================================== *)
(** * Further properties of the status transitions                     *)
(* ================================================================== *)

(** What [updatePaymentStatus] does, in every world. *)
Lemma updatePaymentStatus_cases (request : WebhookUpdateRequest) (w : World) :
  let settled := fst (Async.run (PaymentService.updatePaymentStatus request) w) in
  let w' := snd (Async.run (PaymentService.updatePaymentStatus request) w) in
  idempotency_keys w' = idempotency_keys w
  /\ match db_fault w (db_calls w) with
     | Some m => settled = Rejected (JS.mkError m) /\ same_tables w w'
     | None =>
         match Store.findByPk (u_paymentId request) (payments w) with
         | None => settled = Rejected (JS.mkError "Payment not found") /\ same_tables w w'
         | Some p =>
             if PaymentService.isValidStatusTransition (Payment.status p)
                  (u_newStatus request)
             then match db_fault w (db_calls w + 1), db_fault w (db_calls w + 2) with
                  | Some m, _ => settled = Rejected (JS.mkError m) /\ same_tables w w'
                  | None, Some m =>
                      settled = Rejected (JS.mkError m)
                      /\ payments w' = payments_after_update w p (u_newStatus request)
                      /\ payment_histories w' = payment_histories w
                  | None, None =>
                      settled = Fulfilled tt
                      /\ payments w' = payments_after_update w p (u_newStatus request)
                      /\ exists h,
                          payment_histories w' = (payment_histories w ++ [h])%list
                          /\ records_transition h p request
                  end
             else settled = Rejected (JS.mkError
                                        ("Invalid status transition from "
                                         ++ Status_str (Payment.status p) ++ " to "
                                         ++ Status_str (u_newStatus request)))
                  /\ same_tables w w'
         end
     end.
Proof.
  cbv zeta. split.
  - unfold PaymentService.updatePaymentStatus.
    rewrite run_bind, run_await. unfold Async.call. cbn [Async.run Store.handle].
    unfold Store.guarded. destruct (db_fault w (db_calls w)); [reflexivity |].
    cbn [fst snd payments Store.tick].
    destruct (Store.findByPk (u_paymentId request) (payments w)) as [p |]; [| reflexivity].
    destruct (PaymentService.isValidStatusTransition _ _); [| reflexivity].
    cbn [negb]. rewrite run_bind, run_await. cbn [Async.run Store.handle].
    unfold Store.guarded. cbn [db_fault db_calls Store.tick].
    destruct (db_fault w (S (db_calls w))); [reflexivity |].
    cbn [fst snd]. rewrite run_bind, run_await. cbn [Async.run Store.handle].
    unfold Store.guarded. cbn [db_fault db_calls Store.tick Store.set_payments].
    destruct (db_fault w (S (S (db_calls w)))); reflexivity.
  - destruct (db_fault w (db_calls w)) as [m |] eqn:Hf.
    + unfold PaymentService.updatePaymentStatus.
      rewrite run_bind, run_await. unfold Async.call. cbn [Async.run Store.handle].
      rewrite (guarded_fails _ _ m Hf). cbn. repeat split.
    + destruct (Store.findByPk (u_paymentId request) (payments w)) as [p |] eqn:Hp.
      * destruct (PaymentService.isValidStatusTransition (Payment.status p)
                    (u_newStatus request)) eqn:Hv.
        -- exact (updatePaymentStatus_valid w request p Hf Hp Hv).
        -- unfold PaymentService.updatePaymentStatus.
           rewrite run_bind; simpl. rewrite guarded_answers by assumption; simpl.
           rewrite Hp, Hv. cbn. repeat split.
      * unfold PaymentService.updatePaymentStatus.
        rewrite run_bind; simpl. rewrite guarded_answers by assumption; simpl.
        rewrite Hp. cbn. repeat split.
Qed.

Lemma moved_on_refl (p : Payment.t) : moved_on p p.
Proof. split; [lia | now destruct p]. Qed.

Lemma moved_on_id (p p' : Payment.t) : moved_on p p' -> Payment.id p' = Payment.id p.
Proof. intros [_ H]. now rewrite <- H. Qed.

Lemma moved_on_trans (p q r : Payment.t) : moved_on p q -> moved_on q r -> moved_on p r.
Proof.
  intros [H1 H2] [K1 K2]. split; [lia |].
  rewrite <- H2, <- K2. reflexivity.
Qed.

Lemma Forall2_moved_on_refl (rows : list Payment.t) : Forall2 moved_on rows rows.
Proof. induction rows; constructor; [apply moved_on_refl | assumption]. Qed.

Lemma Forall2_moved_on_trans (l1 l2 l3 : list Payment.t) :
  Forall2 moved_on l1 l2 -> Forall2 moved_on l2 l3 -> Forall2 moved_on l1 l3.
Proof.
  intros H. revert l3. induction H as [| p q l1 l2 Hpq _ IH]; intros l3 K.
  - inversion K. constructor.
  - inversion K as [| q' r l2' l3' Hqr Hrest]; subst. constructor.
    + now apply moved_on_trans with q.
    + now apply IH.
Qed.

Lemma Forall2_moved_on_ids (l l' : list Payment.t) :
  Forall2 moved_on l l' -> map Payment.id l' = map Payment.id l.
Proof.
  induction 1 as [| p q l l' Hpq _ IH]; simpl; [reflexivity |].
  now rewrite IH, (moved_on_id _ _ Hpq).
Qed.

Lemma Forall2_moved_on_later (l l' : list Payment.t) (p : Payment.t) :
  Forall2 moved_on l l' -> In p l -> exists p', In p' l' /\ moved_on p p'.
Proof.
  induction 1 as [| q q' l l' Hq _ IH]; intros Hin; [destruct Hin |].
  destruct Hin as [-> | Hin].
  - exists q'. split; [now left | exact Hq].
  - destruct (IH Hin) as (p' & Hp' & Hm). exists p'. split; [now right | exact Hm].
Qed.

Lemma Forall2_moved_on_earlier (l l' : list Payment.t) (p' : Payment.t) :
  Forall2 moved_on l l' -> In p' l' -> exists p, In p l /\ moved_on p p'.
Proof.
  induction 1 as [| q q' l l' Hq _ IH]; intros Hin; [destruct Hin |].
  destruct Hin as [-> | Hin].
  - exists q. split; [now left | exact Hq].
  - destruct (IH Hin) as (p & Hp & Hm). exists p. split; [now right | exact Hm].
Qed.

Lemma NoDup_ids_unique (rows : list Payment.t) (a b : Payment.t) :
  NoDup (map Payment.id rows) -> In a rows -> In b rows ->
  Payment.id a = Payment.id b -> a = b.
Proof.
  induction rows as [| q rows IH]; intros Hnd Ha Hb E; [destruct Ha |].
  simpl in Hnd. inversion Hnd as [| x l Hnot Hrest]; subst.
  destruct Ha as [-> | Ha], Hb as [-> | Hb]; trivial.
  - exfalso. apply Hnot. rewrite E. now apply in_map.
  - exfalso. apply Hnot. rewrite <- E. now apply in_map.
  - now apply IH.
Qed.

Lemma payments_after_update_moved_on (w : World) (p : Payment.t) (s : Status) :
  NoDup (map Payment.id (payments w)) -> In p (payments w) ->
  (rank (Payment.status p) <= rank s)%nat ->
  Forall2 moved_on (payments w) (payments_after_update w p s).
Proof.
  intros Hnd Hin Hrank. unfold payments_after_update.
  assert (Hsame : forall q, In q (payments w) -> Payment.id q = Payment.id p -> q = p)
    by (intros q Hq E; now apply (NoDup_ids_unique (payments w))).
  clear Hnd Hin. induction (payments w) as [| q rows IH]; simpl; constructor.
  - destruct (String.eqb (Payment.id q) (Payment.id p)) eqn:E.
    + apply String.eqb_eq in E. rewrite (Hsame q (or_introl eq_refl) E).
      split; [exact Hrank | now destruct p].
    + apply moved_on_refl.
  - apply IH. intros q' Hq'. apply Hsame. now right.
Qed.

Lemma allowed_transition_rank (a b : Status) :
  allowed_transition a b -> rank b = S (rank a).
Proof. intros [[-> ->] | [-> ->]]; reflexivity. Qed.

(** One webhook request: the payments move on, and the history gets at
    most one row, for the transition that was made. *)
Lemma updatePaymentStatus_step (request : WebhookUpdateRequest) (w : World) :
  NoDup (map Payment.id (payments w)) ->
  let w' := snd (Async.run (PaymentService.updatePaymentStatus request) w) in
  Forall2 moved_on (payments w) (payments w')
  /\ idempotency_keys w' = idempotency_keys w
  /\ exists added,
      payment_histories w' = (payment_histories w ++ added)%list
      /\ (added = []
          \/ exists h p p',
              added = [h] /\ In p (payments w) /\ In p' (payments w')
              /\ Payment.id p = PaymentHistory.paymentId h
              /\ Payment.id p' = PaymentHistory.paymentId h
              /\ Payment.status p = PaymentHistory.oldStatus h
              /\ Payment.status p' = PaymentHistory.newStatus h
              /\ allowed_transition (PaymentHistory.oldStatus h)
                                    (PaymentHistory.newStatus h)).
Proof.
  intros Hnd w'. destruct (updatePaymentStatus_cases request w) as [Hkeys Hcases].
  fold w' in Hkeys, Hcases. split; [| split; [exact Hkeys |]].
  - assert (Hsame : same_tables w w' -> Forall2 moved_on (payments w) (payments w'))
      by (intros (-> & _); apply Forall2_moved_on_refl).
    destruct (db_fault w (db_calls w)); [now apply Hsame |].
    destruct (Store.findByPk (u_paymentId request) (payments w)) as [p |] eqn:Hp;
      [| now apply Hsame].
    destruct (PaymentService.isValidStatusTransition (Payment.status p)
                (u_newStatus request)) eqn:Hv; [| now apply Hsame].
    assert (Hmoved : Forall2 moved_on (payments w)
                       (payments_after_update w p (u_newStatus request))).
    { apply payments_after_update_moved_on; trivial.
      - unfold Store.findByPk in Hp. now apply find_some in Hp.
      - apply isValidStatusTransition_spec, allowed_transition_rank in Hv. lia. }
    destruct (db_fault w (db_calls w + 1)); [now apply Hsame |].
    destruct (db_fault w (db_calls w + 2)).
    + destruct Hcases as (_ & -> & _). exact Hmoved.
    + destruct Hcases as (_ & -> & _). exact Hmoved.
  - assert (Hsame : same_tables w w' ->
                    exists added : list PaymentHistory.t,
                      payment_histories w' = (payment_histories w ++ added)%list
                      /\ (added = []
                          \/ exists h p p',
                              added = [h] /\ In p (payments w) /\ In p' (payments w')
                              /\ Payment.id p = PaymentHistory.paymentId h
                              /\ Payment.id p' = PaymentHistory.paymentId h
                              /\ Payment.status p = PaymentHistory.oldStatus h
                              /\ Payment.status p' = PaymentHistory.newStatus h
                              /\ allowed_transition (PaymentHistory.oldStatus h)
                                                    (PaymentHistory.newStatus h))).
    { intros (_ & -> & _). exists []. split; [now rewrite app_nil_r | now left]. }
    destruct (db_fault w (db_calls w)); [now apply Hsame |].
    destruct (Store.findByPk (u_paymentId request) (payments w)) as [p |] eqn:Hp;
      [| now apply Hsame].
    destruct (PaymentService.isValidStatusTransition (Payment.status p)
                (u_newStatus request)) eqn:Hv; [| now apply Hsame].
    destruct (db_fault w (db_calls w + 1)); [now apply Hsame |].
    destruct (db_fault w (db_calls w + 2)).
    + destruct Hcases as (_ & _ & ->). exists [].
      split; [now rewrite app_nil_r | now left].
    + destruct Hcases as (_ & Hrows & h & Hh & Hp1 & Hp2 & Hp3 & _).
      exists [h]. split; [exact Hh |]. right.
      exists h, p, (Payment.with_status p (u_newStatus request) (now w)).
      assert (Hin : In p (payments w))
        by (unfold Store.findByPk in Hp; now apply find_some in Hp).
      split; [reflexivity |]. split; [exact Hin |]. split.
      { rewrite Hrows. unfold payments_after_update.
        apply in_map_iff. exists p. split; [| exact Hin].
        now rewrite String.eqb_refl. }
      rewrite Hp1, Hp2, Hp3. cbn. repeat split.
      now apply isValidStatusTransition_spec.
Qed.

(** X7. Webhook requests handled one after the other, whatever they ask
    and whatever the store does, only move payments forward: no payment
    appears or disappears, each row is what it was but for its status and
    the time of its update, and its status is never an earlier one
    (pending, then paid, then reversed), so a reversed payment stays
    reversed. The history only grows, by at most one row per request;
    every new row records an allowed transition of a payment of the
    table, between the status this payment had at the start and the one
    it has at the end, and no transition of a payment is recorded twice.
    The idempotency records are not touched. *)
Theorem updatePaymentStatus_moves_forward (requests : list WebhookUpdateRequest)
    (w : World) :
  NoDup (map Payment.id (payments w)) ->
  let w' := update_all requests w in
  Forall2 moved_on (payments w) (payments w')
  /\ idempotency_keys w' = idempotency_keys w
  /\ exists added,
      payment_histories w' = (payment_histories w ++ added)%list
      /\ (List.length added <= List.length requests)%nat
      /\ NoDup (map transition_of added)
      /\ forall h, In h added ->
           allowed_transition (PaymentHistory.oldStatus h) (PaymentHistory.newStatus h)
           /\ exists p p',
               In p (payments w) /\ In p' (payments w')
               /\ Payment.id p = PaymentHistory.paymentId h
               /\ Payment.id p' = PaymentHistory.paymentId h
               /\ (rank (Payment.status p) <= rank (PaymentHistory.oldStatus h))%nat
               /\ (rank (PaymentHistory.newStatus h) <= rank (Payment.status p'))%nat.
Proof.
  revert w. induction requests as [| request rest IH]; intros w Hnd; cbn [update_all].
  - split; [apply Forall2_moved_on_refl |]. split; [reflexivity |].
    exists []. split; [now rewrite app_nil_r |]. split; [reflexivity |].
    split; [constructor | intros h []].
  - destruct (updatePaymentStatus_step request w Hnd)
      as (Hmove1 & Hkeys1 & added1 & Hhist1 & Hadded1).
    set (w1 := snd (Async.run (PaymentService.updatePaymentStatus request) w)) in *.
    assert (Hnd1 : NoDup (map Payment.id (payments w1)))
      by now rewrite (Forall2_moved_on_ids _ _ Hmove1).
    destruct (IH w1 Hnd1) as (Hmove & Hkeys & added & Hhist & Hlen & Hnodup & Hrows).
    cbv zeta.
    split; [now apply Forall2_moved_on_trans with (payments w1) |].
    split; [now rewrite Hkeys |].
    assert (Hrest : forall h, In h added ->
              allowed_transition (PaymentHistory.oldStatus h) (PaymentHistory.newStatus h)
              /\ exists p p',
                  In p (payments w) /\ In p' (payments (update_all rest w1))
                  /\ Payment.id p = PaymentHistory.paymentId h
                  /\ Payment.id p' = PaymentHistory.paymentId h
                  /\ (rank (Payment.status p) <= rank (PaymentHistory.oldStatus h))%nat
                  /\ (rank (PaymentHistory.newStatus h) <= rank (Payment.status p'))%nat).
    { intros h Hh. destruct (Hrows h Hh) as (Hok & p1 & p' & Hp1 & Hp' & E1 & E' & R1 & R').
      split; [exact Hok |].
      destruct (Forall2_moved_on_earlier _ _ p1 Hmove1 Hp1) as (p & Hp & Hm).
      exists p, p'. split; [exact Hp |]. split; [exact Hp' |].
      split; [now rewrite <- (moved_on_id _ _ Hm) |]. split; [exact E' |].
      destruct Hm as [Hm _]. split; [lia | exact R']. }
    destruct Hadded1 as [-> | (h1 & p & p1 & -> & Hp & Hp1 & E & E1 & S & S1 & Hok1)].
    + exists added. rewrite Hhist, Hhist1, app_nil_r.
      split; [reflexivity |]. split; [cbn; lia |]. split; [exact Hnodup | exact Hrest].
    + exists (h1 :: added). rewrite Hhist, Hhist1, <- app_assoc.
      split; [reflexivity |]. split; [cbn; lia |]. split.
      * cbn [map]. constructor; [| exact Hnodup].
        intros Hdup. apply in_map_iff in Hdup. destruct Hdup as (h & Eh & Hh).
        unfold transition_of in Eh. inversion Eh as [[Eid Enew]].
        destruct (Hrows h Hh) as (Hok & q1 & _ & Hq1 & _ & Eq1 & _ & Rq1 & _).
        assert (q1 = p1)
          by (apply (NoDup_ids_unique (payments w1)); trivial; congruence).
        subst q1. apply allowed_transition_rank in Hok.
        rewrite S1, <- Enew in Rq1. lia.
      * intros h [<- | Hh]; [| now apply Hrest].
        split; [exact Hok1 |].
        destruct (Forall2_moved_on_later _ _ p1 Hmove Hp1) as (p' & Hp' & Hm).
        exists p, p'. split; [exact Hp |]. split; [exact Hp' |].
        split; [exact E |]. split; [now rewrite (moved_on_id _ _ Hm) |].
        destruct Hm as [Hm _]. rewrite S, <- S1. split; [lia | exact Hm].
Qed.

Lemma updatePaymentStatus_moves_forward_witness :
  map Payment.status
      (payments (update_all [Example.mark_paid; Example.mark_paid] Example.one_pending))
  = [paid]
  /\ List.length (payment_histories
                    (update_all [Example.mark_paid; Example.mark_paid]
                       Example.one_pending)) = 1%nat.
Proof.
  destruct (updatePaymentStatus_moves_forward [Example.mark_paid; Example.mark_paid]
              Example.one_pending) as (_ & _ & added & Hhist & _).
  - repeat constructor. intros [].
  - split; vm_compute; reflexivity.
Defined.

Lemma invalid_transition_message (a b : Status) :
  let m := "Invalid status transition from " ++ Status_str a ++ " to " ++ Status_str b in
  JS.includes m "Payment not found" = false
  /\ JS.includes m "Invalid status transition" = true.
Proof. destruct a, b; split; vm_compute; reflexivity. Qed.

(** X8. The webhook controller always answers. When the store answers
    its calls: 404 "Payment not found" for an id that no payment has,
    422 with the message "Invalid status transition from <current> to
    <requested>" for a transition that is not allowed, both without any
    write; and 200, echoing the id, the new status and the reason, for an
    allowed transition, once the status is updated and the history row
    written. In every world the answer is 200, 404, 422 or 500, it is 200
    exactly when [updatePaymentStatus] was fulfilled, and a failure of the
    store is classified by the text of its message. *)
Theorem simulateStatusUpdate_answers (request : WebhookUpdateRequest) (w : World) :
  let task := WebhookController.simulateStatusUpdate
                PaymentService.updatePaymentStatus request in
  let service := Async.run (PaymentService.updatePaymentStatus request) w in
  exists r,
    Async.run task w = (Fulfilled r, snd service)
    /\ In (Http.status_code r) [200; 404; 422; 500]
    /\ (Http.status_code r = 200 <-> fst service = Fulfilled tt)
    /\ (forall m, fst service = Rejected (JS.mkError m) ->
          Http.status_code r
          = if JS.includes m "Payment not found" then 404
            else if JS.includes m "Invalid status transition" then 422 else 500)
    /\ (store_answers 3 w ->
        match Store.findByPk (u_paymentId request) (payments w) with
        | None =>
            r = {| Http.status_code := 404;
                   Http.payload := Http.error_payload "Payment not found"
                                     "Payment not found" |}
            /\ same_tables w (snd service)
        | Some p =>
            if PaymentService.isValidStatusTransition (Payment.status p)
                 (u_newStatus request)
            then r = {| Http.status_code := 200;
                        Http.payload :=
                          JS.JObj ([("message",
                                     JS.JStr "Payment status updated successfully");
                                    ("payment_id", JS.JStr (u_paymentId request));
                                    ("new_status",
                                     JS.JStr (Status_str (u_newStatus request)))]
                                   ++ option_field "reason"
                                        (option_map JS.JStr (u_reason request)))%list |}
                 /\ payments (snd service)
                    = payments_after_update w p (u_newStatus request)
                 /\ exists h,
                     payment_histories (snd service) = (payment_histories w ++ [h])%list
                     /\ records_transition h p request
            else r = {| Http.status_code := 422;
                        Http.payload :=
                          Http.error_payload "Invalid status transition"
                            ("Invalid status transition from "
                             ++ Status_str (Payment.status p) ++ " to "
                             ++ Status_str (u_newStatus request)) |}
                 /\ same_tables w (snd service)
        end).
Proof.
  cbv zeta. unfold WebhookController.simulateStatusUpdate.
  rewrite run_try_catch, run_bind.
  destruct (updatePaymentStatus_cases request w) as [_ Hcases].
  destruct (Async.run (PaymentService.updatePaymentStatus request) w) as [[[] | e] w'].
  - cbn [Async.run fst snd] in *. eexists. split; [reflexivity |].
    cbn [Http.status_code]. split; [cbn; tauto |]. split; [tauto |].
    split; [discriminate |]. intros Hstore.
    rewrite (store_answers_here 2 w Hstore), (Hstore 1%nat), (Hstore 2%nat) in Hcases
      by lia.
    destruct (Store.findByPk (u_paymentId request) (payments w)) as [p |];
      [| destruct Hcases as [H _]; discriminate H].
    destruct (PaymentService.isValidStatusTransition _ _);
      [| destruct Hcases as [H _]; discriminate H].
    destruct Hcases as (_ & Hrows & Hh). now repeat split.
  - cbn [fst snd] in *.
    assert (Hany : exists r,
               Async.run
                 (if JS.includes (JS.message e) "Payment not found"
                  then Ret {| Http.status_code := 404;
                              Http.payload := Http.error_payload "Payment not found"
                                                (JS.message e) |}
                  else if JS.includes (JS.message e) "Invalid status transition"
                       then Ret {| Http.status_code := 422;
                                   Http.payload :=
                                     Http.error_payload "Invalid status transition"
                                       (JS.message e) |}
                       else Ret {| Http.status_code := 500;
                                   Http.payload :=
                                     Http.error_payload "Internal server error"
                                       "Failed to update payment status" |}) w'
               = (Fulfilled r, w')
               /\ Http.status_code r
                  = (if JS.includes (JS.message e) "Payment not found" then 404
                     else if JS.includes (JS.message e) "Invalid status transition"
                          then 422 else 500)
               /\ (JS.includes (JS.message e) "Payment not found" = true ->
                   r = {| Http.status_code := 404;
                          Http.payload := Http.error_payload "Payment not found"
                                            (JS.message e) |})
               /\ (JS.includes (JS.message e) "Payment not found" = false ->
                   JS.includes (JS.message e) "Invalid status transition" = true ->
                   r = {| Http.status_code := 422;
                          Http.payload := Http.error_payload "Invalid status transition"
                                            (JS.message e) |})).
    { destruct (JS.includes (JS.message e) "Payment not found");
        [| destruct (JS.includes (JS.message e) "Invalid status transition")];
        (eexists; split; [reflexivity |]; split; [reflexivity |];
         split; intros; trivial; discriminate). }
    destruct Hany as (r & Hrun & Hstatus & H404 & H422).
    exists r. split; [exact Hrun |].
    split.
    { rewrite Hstatus. destruct (JS.includes _ _); [cbn; tauto |].
      destruct (JS.includes _ _); cbn; tauto. }
    split.
    { rewrite Hstatus. split; [| discriminate].
      destruct (JS.includes _ _); [discriminate |].
      destruct (JS.includes _ _); discriminate. }
    split; [intros m E; inversion E; subst e; exact Hstatus |].
    intros Hstore.
    rewrite (store_answers_here 2 w Hstore), (Hstore 1%nat), (Hstore 2%nat) in Hcases
      by lia.
    destruct (Store.findByPk (u_paymentId request) (payments w)) as [p |].
    + destruct (PaymentService.isValidStatusTransition _ _);
        [destruct Hcases as [H _]; discriminate H |].
      destruct Hcases as [He Hsame]. inversion He; subst e.
      destruct (invalid_transition_message (Payment.status p) (u_newStatus request))
        as [Hno Hyes].
      split; [now apply H422 | exact Hsame].
    + destruct Hcases as [He Hsame]. inversion He; subst e.
      split; [now apply H404 | exact Hsame].
Qed.

Lemma simulateStatusUpdate_answers_witness :
  exists r,
    fst (Async.run (WebhookController.simulateStatusUpdate
                      PaymentService.updatePaymentStatus Example.mark_paid)
                   Example.one_pending) = Fulfilled r
    /\ Http.status_code r = 200.
Proof.
  destruct (simulateStatusUpdate_answers Example.mark_paid Example.one_pending)
    as (r & Hrun & _ & _ & _ & Hok).
  exists r. rewrite Hrun. split; [reflexivity |].
  assert (H : store_answers 3 Example.one_pending) by (intros j _; reflexivity).
  apply Hok in H. cbn in H. destruct H as [-> _]. reflexivity.
Defined.

Lemma simulateStatusUpdate_fulfills (request : WebhookUpdateRequest) (w : World) :
  exists r,
    Async.run (WebhookController.simulateStatusUpdate
                 PaymentService.updatePaymentStatus request) w
    = (Fulfilled r, snd (Async.run (PaymentService.updatePaymentStatus request) w))
    /\ In (Http.status_code r) [200; 404; 422; 500].
Proof.
  unfold WebhookController.simulateStatusUpdate. rewrite run_try_catch, run_bind.
  destruct (Async.run (PaymentService.updatePaymentStatus request) w) as [[[] | e] w'].
  - cbn. eexists. split; [reflexivity | tauto].
  - cbn [snd]. destruct (JS.includes (JS.message e) "Payment not found");
      [| destruct (JS.includes (JS.message e) "Invalid status transition")];
      cbn; (eexists; split; [reflexivity | cbn; tauto]).
Qed.

(** X9. [POST /webhooks/simulate] does nothing for a request that does
    not carry the configured webhook token: the answer is 401 when the
    header is missing, empty or different from the token, 500 when the
    header is there and no token is configured, and no store call is
    made. Whatever the request, the route settles with an answer, one of
    200, 400, 401, 404, 422 and 500; and when a table has changed, the
    request carried the token and its body passed the validation. *)
Theorem post_simulate_requires_token (WEBHOOK_TOKEN : option string)
    (schema_errors : JS.json -> list string) (req : Webhook.Request) :
  (~ holds_token WEBHOOK_TOKEN req ->
   exists r,
     Webhook.post_simulate WEBHOOK_TOKEN schema_errors req = Some (Ret r)
     /\ (Http.status_code r = 401 \/ Http.status_code r = 500)
     /\ (Http.status_code r = 500 <->
         (exists c token, Webhook.header_x_webhook_token req = Some (String c token))
         /\ (WEBHOOK_TOKEN = None \/ WEBHOOK_TOKEN = Some "")))
  /\ (forall task w,
         Webhook.post_simulate WEBHOOK_TOKEN schema_errors req = Some task ->
         exists r,
           fst (Async.run task w) = Fulfilled r
           /\ In (Http.status_code r) [200; 400; 401; 404; 422; 500]
           /\ (~ same_tables w (snd (Async.run task w)) ->
               holds_token WEBHOOK_TOKEN req
               /\ schema_errors (Webhook.body req) = [])).
Proof.
  unfold Webhook.post_simulate, Webhook.authenticateWebhook, holds_token. split.
  - intros Hno.
    destruct (Webhook.header_x_webhook_token req) as [[| c token] |].
    + eexists. split; [reflexivity |]. cbn. split; [now left |].
      split; [discriminate | intros [(c & t & H) _]; discriminate H].
    + destruct WEBHOOK_TOKEN as [[| c' expected] |].
      * eexists. split; [reflexivity |]. cbn. split; [now right |].
        split; [intros _; split; eauto | reflexivity].
      * destruct (String.eqb (String c token) (String c' expected)) eqn:E.
        -- exfalso. apply Hno. apply String.eqb_eq in E. exists (String c token).
           split; [discriminate |]. split; [reflexivity | now rewrite E].
        -- eexists. split; [reflexivity |]. cbn. split; [now left |].
           split; [discriminate | intros [_ [H | H]]; discriminate H].
      * eexists. split; [reflexivity |]. cbn. split; [now right |].
        split; [intros _; split; eauto | reflexivity].
    + eexists. split; [reflexivity |]. cbn. split; [now left |].
      split; [discriminate | intros [(c & t & H) _]; discriminate H].
  - intros task w Htask.
    assert (Hret : forall r, In (Http.status_code r) [200; 400; 401; 404; 422; 500] ->
                     task = Ret r ->
                     exists r0,
                       fst (Async.run task w) = Fulfilled r0
                       /\ In (Http.status_code r0) [200; 400; 401; 404; 422; 500]
                       /\ (~ same_tables w (snd (Async.run task w)) ->
                           (exists token, token <> ""
                              /\ Webhook.header_x_webhook_token req = Some token
                              /\ WEBHOOK_TOKEN = Some token)
                           /\ schema_errors (Webhook.body req) = [])).
    { intros r Hr ->. exists r. split; [reflexivity |]. split; [exact Hr |].
      intros H. exfalso. apply H. apply same_tables_refl. }
    destruct (Webhook.header_x_webhook_token req) as [[| c token] |];
      try (injection Htask as Ht; eapply Hret; [| symmetry; exact Ht]; cbn; tauto).
    destruct WEBHOOK_TOKEN as [[| c' expected] |];
      try (injection Htask as Ht; eapply Hret; [| symmetry; exact Ht]; cbn; tauto).
    destruct (String.eqb (String c token) (String c' expected)) eqn:E;
      [| injection Htask as Ht; eapply Hret; [| symmetry; exact Ht]; cbn; tauto].
    cbn [negb] in Htask. unfold Webhook.validateRequest in Htask.
    cbn [Webhook.body] in Htask.
    destruct (schema_errors (Webhook.body req)) as [| e errors];
      [| injection Htask as Ht; eapply Hret; [| symmetry; exact Ht]; cbn; tauto].
    destruct (Webhook.body_update (Webhook.body req)) as [request |];
      [| discriminate Htask].
    inversion Htask; subst task.
    destruct (simulateStatusUpdate_fulfills request w) as (r & Hrun & Hstatus).
    rewrite Hrun. exists r. split; [reflexivity |].
    split; [cbn in *; tauto |]. intros _. split; [| reflexivity].
    apply String.eqb_eq in E. exists (String c token).
    split; [discriminate |]. split; [reflexivity | now rewrite E].
Qed.

Lemma post_simulate_requires_token_witness :
  exists r,
    Webhook.post_simulate (Some "s3cr3t-webhook-token-0123456789abcdef")
      (fun _ => [])
      {| Webhook.header_x_webhook_token := Some "guess";
         Webhook.body := JS.JNull; Webhook.webhookToken := None |}
    = Some (Ret r)
    /\ Http.status_code r = 401.
Proof.
  destruct (proj1 (post_simulate_requires_token
                     (Some "s3cr3t-webhook-token-0123456789abcdef") (fun _ => [])
                     {| Webhook.header_x_webhook_token := Some "guess";
                        Webhook.body := JS.JNull; Webhook.webhookToken := None |}))
    as (r & Hrun & Hstatus & H500).
  - intros (token & _ & Hheader & Henv). cbn in Hheader. congruence.
  - exists r. split; [exact Hrun |]. destruct Hstatus as [H | H]; [exact H |].
    apply H500 in H. destruct H as [_ [H | H]]; discriminate H.
Defined.

(** X10. The batch controller, over any payment creation and with at
    least one worker, always answers. Without the idempotency key or the
    request hash of the middleware (missing or empty) it answers 500
    "Idempotency information missing" and calls nothing. With them, a
    batch of more than 100 payments is answered 400 "Validation failed"
    with the message of the service, nothing having been processed; and
    a batch of at most 100 payments is answered 200, whatever happened
    to its payments, with a result for every payment at its index and
    counts that add up to the size of the batch. *)
Theorem BatchPaymentController_answers
    (createPayment : CreatePaymentRequest -> string -> string -> Task CreatePaymentResponse)
    (options : BatchProcessingOptions) (sched : nat -> list nat)
    (req : BatchPaymentController.Request) (w : World) :
  (1 <= maxConcurrentWorkers options)%nat ->
  let payments := BatchPaymentController.body_payments req in
  exists r w',
    BatchPaymentController.processBatch
      (BatchPaymentService.processBatch createPayment options sched) req w
    = Some (r, w')
    /\ ((BatchPaymentController.idempotencyKey req = None
         \/ BatchPaymentController.idempotencyKey req = Some ""
         \/ BatchPaymentController.requestHash req = None
         \/ BatchPaymentController.requestHash req = Some "") ->
        r = PaymentController.internal_error "Idempotency information missing"
        /\ w' = w)
    /\ (forall c key c' hash,
           BatchPaymentController.idempotencyKey req = Some (String c key) ->
           BatchPaymentController.requestHash req = Some (String c' hash) ->
           if (100 <? List.length payments)%nat then
             r = {| Http.status_code := 400;
                    Http.payload := Http.error_payload "Validation failed"
                                      "Maximum 100 payments allowed per batch" |}
             /\ w' = w
           else
             exists response,
               r = {| Http.status_code := 200;
                      Http.payload := BatchPaymentResponse_json response |}
               /\ List.length (results response) = List.length payments
               /\ succeeded response + failed response
                  = Z.of_nat (List.length payments)
               /\ forall j, (j < List.length payments)%nat ->
                    exists result,
                      nth_error (results response) j = Some (Some result)
                      /\ index result = j).
Proof.
  intros HW payments. unfold BatchPaymentController.processBatch.
  destruct (BatchPaymentController.idempotencyKey req) as [[| c key] |];
    try (eexists; eexists; split; [reflexivity |]; split;
         [intros _; now split | intros ? ? ? ? H; discriminate H]).
  destruct (BatchPaymentController.requestHash req) as [[| c' hash] |];
    try (eexists; eexists; split; [reflexivity |]; split;
         [intros _; now split | intros ? ? ? ? _ H; discriminate H]).
  fold payments.
  destruct (100 <? List.length payments)%nat eqn:Hmax.
  - unfold BatchPaymentService.processBatch. rewrite Hmax.
    eexists; eexists. split; [vm_compute JS.includes; reflexivity |].
    split; [intros [H | [H | [H | H]]]; discriminate H |].
    intros ? ? ? ? _ _. now split.
  - apply Nat.ltb_ge in Hmax.
    destruct (processBatch_good createPayment options (fun _ => True) anything_invariant
                (fun j item r => index r = j)
                (fun j item =>
                   always_in_mono _ _ _ _
                     (fun s H => match H with
                                 | ex_intro _ r (conj Hs (conj Hi _)) =>
                                     ex_intro _ r (conj Hs Hi)
                                 end)
                     (processPaymentWithRetry_fulfills createPayment options _ item j))
                payments sched (String c key) (String c' hash) w I HW Hmax)
      as (response & w' & Hrun & Hlen & Hsum & _ & _ & Hslots).
    rewrite Hrun. eexists; eexists. split; [reflexivity |].
    split; [intros [H | [H | [H | H]]]; discriminate H |].
    intros ? ? ? ? _ _. exists response. cbn in Hlen, Hsum, Hslots.
    split; [reflexivity |]. split; [exact Hlen |]. split; [exact Hsum |].
    intros j Hj. destruct (Hslots j Hj) as (item & result & _ & Hres & Hidx).
    now exists result.
Qed.

Lemma BatchPaymentController_answers_witness :
  exists r w',
    BatchPaymentController.processBatch
      (BatchPaymentService.processBatch
         (PaymentService.createPayment Example.base_url) Example.two_workers
         Example.second_first)
      (Example2.batch_of Example.three_payments) Example.empty_world
    = Some (r, w')
    /\ Http.status_code r = 200.
Proof.
  destruct (BatchPaymentController_answers
              (PaymentService.createPayment Example.base_url) Example.two_workers
              Example.second_first (Example2.batch_of Example.three_payments)
              Example.empty_world)
    as (r & w' & Hrun & _ & Hok).
  - cbn; lia.
  - exists r, w'. split; [exact Hrun |].
    destruct (Hok _ _ _ _ eq_refl eq_refl) as (response & -> & _). reflexivity.
Defined.

(* ================================================================== *)
(** * Further properties of the listing                                *)
(* ================================================================== *)

Lemma listPayments_cases (query : ListPaymentsQuery) (w : World) :
  Async.run (PaymentService.listPayments query) w
  = match PaymentService.find_options query with
    | None => (Rejected (JS.mkError "Invalid date"), w)
    | Some options =>
        match db_fault w (db_calls w) with
        | Some m => (Rejected (JS.mkError m), Store.tick w)
        | None => (Fulfilled (PaymentService.page_of query
                                (Store.findAll options (payments w))), Store.tick w)
        end
    end.
Proof.
  destruct (PaymentService.find_options query) as [options |] eqn:Hopt.
  - destruct (db_fault w (db_calls w)) as [m |] eqn:Hf.
    + unfold PaymentService.listPayments. rewrite Hopt, run_bind, run_await.
      unfold Async.call. cbn [Async.run Store.handle].
      now rewrite (guarded_fails _ _ m Hf).
    + now apply listPayments_run.
  - unfold PaymentService.listPayments. now rewrite Hopt.
Qed.

Lemma find_options_cursor (query : ListPaymentsQuery) (options : FindOptions) :
  PaymentService.find_options query = Some options ->
  where_createdAt_lt options
  = match q_cursor query with
    | None | Some EmptyString => None
    | Some cursor => JS.Date_parse cursor
    end.
Proof.
  unfold PaymentService.find_options.
  destruct (q_cursor query) as [[| c cursor] |]; intros H.
  - now inversion H.
  - destruct (JS.Date_parse (String c cursor)); inversion H; reflexivity.
  - now inversion H.
Qed.

Lemma firstn_incl {A : Type} (n : nat) (l : list A) (x : A) :
  In x (firstn n l) -> In x l.
Proof.
  intros H. rewrite <- (firstn_skipn n l). apply in_or_app. now left.
Qed.

Lemma firstn_sorted {A : Type} (R : A -> A -> Prop) (l : list A) :
  StronglySorted R l -> forall n, StronglySorted R (firstn n l).
Proof.
  induction 1 as [| a l Hl IH Ha]; intros [| n]; simpl; try constructor.
  - apply IH.
  - rewrite Forall_forall in *. intros x Hx. apply Ha.
    now apply firstn_incl with n.
Qed.

Lemma Status_eqb_eq (a b : Status) : Status_eqb a b = true <-> a = b.
Proof. destruct a, b; simpl; split; intros H; try discriminate; reflexivity. Qed.

Lemma matches_asked_for (query : ListPaymentsQuery) (options : FindOptions)
    (p : Payment.t) :
  PaymentService.find_options query = Some options ->
  Store.matches options p = true <-> asked_for query p.
Proof.
  intros Hopt. destruct (find_options_fields _ _ Hopt) as [Hstatus _].
  pose proof (find_options_cursor _ _ Hopt) as Hcursor.
  unfold Store.matches, asked_for. rewrite Hstatus, Hcursor, andb_true_iff.
  assert (Hdate : PaymentService.find_options query = Some options ->
                  forall c cursor, q_cursor query = Some (String c cursor) ->
                                   JS.Date_parse (String c cursor) <> None).
  { unfold PaymentService.find_options. intros H c cursor E. rewrite E in H.
    destruct (JS.Date_parse (String c cursor)); [discriminate | discriminate H]. }
  specialize (Hdate Hopt).
  split.
  - intros [Hs Hc]. split.
    + intros s E. rewrite E in Hs. now apply Status_eqb_eq.
    + intros cursor date E Hne Hparse. rewrite E in Hc.
      destruct cursor as [| c cursor]; [congruence |].
      rewrite Hparse in Hc. now apply Z.ltb_lt.
  - intros [Hs Hc]. split.
    + destruct (q_status query) as [s |]; [| reflexivity].
      apply Status_eqb_eq. now apply Hs.
    + destruct (q_cursor query) as [[| c cursor] |] eqn:E; try reflexivity.
      destruct (JS.Date_parse (String c cursor)) as [date |] eqn:Hparse;
        [| reflexivity].
      apply Z.ltb_lt. apply (Hc (String c cursor) date); trivial. discriminate.
Qed.

(** What a fulfilled listing holds. *)
Lemma listPayments_page (query : ListPaymentsQuery) (w w' : World)
    (page : ListPaymentsResponse) :
  (forall n, q_limit query = Some n -> 0 <= n) ->
  Async.run (PaymentService.listPayments query) w = (Fulfilled page, w') ->
  w' = Store.tick w
  /\ Z.of_nat (List.length (items page)) <= PaymentService.effective_limit query <= 100
  /\ exists rows,
      items page = map PaymentService.to_item rows
      /\ StronglySorted not_older rows
      /\ (forall p, In p rows -> In p (payments w) /\ asked_for query p)
      /\ match nextCursor page with
         | None => forall p, In p (payments w) -> asked_for query p -> In p rows
         | Some cursor =>
             exists last,
               nth_error rows (List.length rows - 1) = Some last
               /\ cursor = JS.toISOString (Payment.createdAt last)
               /\ Z.of_nat (List.length rows) = PaymentService.effective_limit query
         end.
Proof.
  intros Hlimit. pose proof (effective_limit_bounds query Hlimit) as Hbounds.
  rewrite listPayments_cases. intros Hrun.
  destruct (PaymentService.find_options query) as [options |] eqn:Hopt;
    [| discriminate Hrun].
  destruct (db_fault w (db_calls w)); [discriminate Hrun |].
  inversion Hrun; subst w'. clear Hrun.
  destruct (page_of_selected query options w Hlimit Hopt) as [Hitems Hnext].
  match goal with H : ?p = page |- _ => clear H end.
  cbv zeta in Hitems, Hnext.
  set (L := Z.to_nat (PaymentService.effective_limit query)) in *.
  set (all := selected options w) in *.
  split; [reflexivity |].
  assert (Hlen : (List.length (firstn L all) <= L)%nat) by apply firstn_le_length.
  split.
  { rewrite Hitems, length_map. split; [| lia]. subst L. lia. }
  exists (firstn L all). split; [exact Hitems |].
  split; [apply firstn_sorted, order_desc_sorted |].
  split.
  { intros p Hp. apply firstn_incl in Hp. apply selected_In in Hp.
    destruct Hp as [Hin Hm]. split; [exact Hin |].
    now apply (matches_asked_for query options). }
  rewrite Hnext. destruct (L <? List.length all)%nat eqn:Hmore.
  - apply Nat.ltb_lt in Hmore.
    assert (HL : (1 <= L)%nat) by (subst L; lia).
    destruct (nth_error all (L - 1)) as [last |] eqn:Hlast.
    + cbn [option_map]. exists last.
      rewrite length_firstn, Nat.min_l by lia.
      split; [| split; [reflexivity | subst L; lia]].
      rewrite nth_error_firstn.
      replace (L - 1 <? L)%nat with true by (symmetry; apply Nat.ltb_lt; lia).
      exact Hlast.
    + apply nth_error_None in Hlast. lia.
  - apply Nat.ltb_ge in Hmore. intros p Hin Hasked.
    rewrite firstn_all2 by exact Hmore. apply selected_In. split; [exact Hin |].
    now apply (matches_asked_for query options).
Qed.




(* ================================================================== *)
(** * Properties of the logging helpers                                *)
(* ================================================================== *)

Lemma get_set_same (name : string) (v : JS.json) (fields : list (string * JS.json)) :
  JS.get name (Logging.set name v fields) = Some v.
Proof.
  induction fields as [| [k x] fields IH]; simpl.
  - now rewrite String.eqb_refl.
  - destruct (String.eqb k name) eqn:E; simpl; rewrite E; [reflexivity | exact IH].
Qed.

Lemma get_set_other (name other : string) (v : JS.json)
    (fields : list (string * JS.json)) :
  other <> name -> JS.get other (Logging.set name v fields) = JS.get other fields.
Proof.
  intros Hne. induction fields as [| [k x] fields IH]; simpl.
  - apply String.eqb_neq in Hne. rewrite String.eqb_sym in Hne. now rewrite Hne.
  - destruct (String.eqb k name) eqn:E; simpl.
    + apply String.eqb_eq in E. subst k.
      apply String.eqb_neq in Hne. rewrite String.eqb_sym in Hne. now rewrite Hne.
    + now rewrite IH.
Qed.

Lemma set_present_keys (name : string) (v x : JS.json)
    (fields : list (string * JS.json)) :
  JS.get name fields = Some x ->
  map fst (Logging.set name v fields) = map fst fields.
Proof.
  induction fields as [| [k y] fields IH]; simpl; [discriminate |].
  destruct (String.eqb k name); simpl; [reflexivity |].
  intros H. now rewrite IH.
Qed.

Lemma set_same_value (name : string) (v : JS.json) (fields : list (string * JS.json)) :
  JS.get name fields = Some v -> Logging.set name v fields = fields.
Proof.
  induction fields as [| [k y] fields IH]; simpl; [discriminate |].
  destruct (String.eqb k name); [intros H; now inversion H |].
  intros H. now rewrite IH.
Qed.

(** One turn of the loop of [sanitizeHeaders]. *)
Lemma sanitize_step (sanitized : list (string * JS.json)) (header name : string) :
  let next := match JS.get header sanitized with
              | Some v => if Logging.truthy v
                          then Logging.set header redacted sanitized else sanitized
              | None => sanitized
              end in
  map fst next = map fst sanitized
  /\ JS.get name next
     = match JS.get name sanitized with
       | Some v => if String.eqb name header && Logging.truthy v
                   then Some redacted else Some v
       | None => None
       end.
Proof.
  cbv zeta. destruct (JS.get header sanitized) as [v |] eqn:Hget.
  - destruct (Logging.truthy v) eqn:Ht.
    + split; [now apply set_present_keys with v |].
      destruct (String.eqb name header) eqn:E.
      * apply String.eqb_eq in E. subst name. now rewrite get_set_same, Hget, Ht.
      * apply String.eqb_neq in E. rewrite get_set_other by exact E.
        now destruct (JS.get name sanitized).
    + split; [reflexivity |]. destruct (String.eqb name header) eqn:E.
      * apply String.eqb_eq in E. subst name. now rewrite Hget, Ht.
      * now destruct (JS.get name sanitized).
  - split; [reflexivity |]. destruct (String.eqb name header) eqn:E.
    + apply String.eqb_eq in E. subst name. now rewrite Hget.
    + now destruct (JS.get name sanitized).
Qed.

Lemma sanitize_fold (names : list string) :
  forall (headers : list (string * JS.json)) (name : string),
    let sanitized :=
      fold_left (fun sanitized header =>
                   match JS.get header sanitized with
                   | Some v => if Logging.truthy v
                               then Logging.set header redacted sanitized
                               else sanitized
                   | None => sanitized
                   end) names headers in
    map fst sanitized = map fst headers
    /\ JS.get name sanitized
       = match JS.get name headers with
         | Some v => if existsb (String.eqb name) names && Logging.truthy v
                     then Some redacted else Some v
         | None => None
         end.
Proof.
  induction names as [| header names IH]; intros headers name; cbn [fold_left existsb].
  - split; [reflexivity |]. now destruct (JS.get name headers).
  - destruct (sanitize_step headers header name) as [Hkeys Hget].
    cbv zeta in Hkeys, Hget.
    match goal with
    | |- context [fold_left ?f names ?h] =>
        destruct (IH h name) as [Hkeys' Hget']
    end.
    cbv zeta in Hkeys', Hget'. split; [now rewrite Hkeys', Hkeys |].
    rewrite Hget', Hget.
    destruct (JS.get name headers) as [v |]; [| reflexivity].
    destruct (String.eqb name header); cbn [andb orb].
    + destruct (Logging.truthy v) eqn:Ht; cbn [andb orb];
        destruct (existsb (String.eqb name) names); cbn [andb orb];
        try rewrite Ht; reflexivity.
    + reflexivity.
Qed.

(** X13. [sanitizeHeaders] keeps the headers and their order, and
    replaces by "[REDACTED]" exactly the values of the five sensitive
    headers (authorization, cookie, x-api-key, x-webhook-token,
    idempotency-key) that are truthy: every other header, and a
    sensitive header whose value is falsy, is left as it is. Sanitizing
    twice changes nothing more. *)
Theorem sanitizeHeaders_redacts (headers : list (string * JS.json)) :
  let sanitized := Logging.sanitizeHeaders headers in
  map fst sanitized = map fst headers
  /\ (forall name,
         JS.get name sanitized
         = match JS.get name headers with
           | Some v =>
               if existsb (String.eqb name) Logging.sensitiveHeaders && Logging.truthy v
               then Some (JS.JStr "[REDACTED]") else Some v
           | None => None
           end)
  /\ (forall name v,
         In name Logging.sensitiveHeaders -> JS.get name sanitized = Some v ->
         Logging.truthy v = true -> v = JS.JStr "[REDACTED]")
  /\ Logging.sanitizeHeaders sanitized = sanitized.
Proof.
  cbv zeta. unfold Logging.sanitizeHeaders.
  pose proof (sanitize_fold Logging.sensitiveHeaders headers) as Hfold.
  cbv zeta in Hfold. fold redacted.
  set (sanitized := fold_left _ Logging.sensitiveHeaders headers) in *.
  split; [apply (Hfold ""%string) |].
  split; [intros name; apply Hfold |].
  assert (Hsens : forall name v,
             In name Logging.sensitiveHeaders -> JS.get name sanitized = Some v ->
             Logging.truthy v = true -> v = redacted).
  { intros name v Hin Hget Ht. rewrite (proj2 (Hfold name)) in Hget.
    assert (E : existsb (String.eqb name) Logging.sensitiveHeaders = true)
      by (apply existsb_exists; exists name; split;
          [exact Hin | apply String.eqb_refl]).
    rewrite E in Hget. destruct (JS.get name headers) as [x |]; [| discriminate].
    cbn [andb] in Hget. destruct (Logging.truthy x) eqn:Hx.
    - now inversion Hget.
    - inversion Hget. congruence. }
  split; [exact Hsens |].
  assert (Hstep : forall header,
             In header Logging.sensitiveHeaders ->
             match JS.get header sanitized with
             | Some v => if Logging.truthy v
                         then Logging.set header redacted sanitized else sanitized
             | None => sanitized
             end = sanitized).
  { intros header Hin. destruct (JS.get header sanitized) as [v |] eqn:Hget; trivial.
    destruct (Logging.truthy v) eqn:Ht; trivial.
    apply set_same_value. rewrite Hget. f_equal. now apply (Hsens header). }
  unfold Logging.sensitiveHeaders in *. cbn [fold_left].
  rewrite !Hstep; trivial; cbn; tauto.
Qed.

Lemma prefix_starts_with (start text : string) :
  String.prefix start text = true <-> starts_with start text.
Proof.
  unfold starts_with. revert text.
  induction start as [| c start IH]; intros text.
  - split; [intros _; now exists text | intros _; now destruct text].
  - destruct text as [| d text]; simpl.
    + split; [discriminate | intros [rest H]; discriminate H].
    + destruct (Ascii.ascii_dec c d) as [-> | Hne].
      * rewrite IH. split; intros [rest H]; exists rest;
          [now rewrite H | now inversion H].
      * split; [discriminate | intros [rest H]; inversion H; congruence].
Qed.

(** X14. A request is audited exactly when its method is not GET and its
    path starts with /api/v1/payments or with
    /api/v1/webhooks/simulate; the batch endpoint of the list adds
    nothing, since its path starts with /api/v1/payments. *)
Theorem shouldAuditRequest_spec (path method : string) :
  Logging.shouldAuditRequest path method = true
  <-> method <> "GET"
      /\ (starts_with "/api/v1/payments" path
          \/ starts_with "/api/v1/webhooks/simulate" path).
Proof.
  unfold Logging.shouldAuditRequest, Logging.auditEndpoints. cbn [existsb].
  rewrite orb_false_r, !orb_true_iff, !andb_true_iff, !negb_true_iff,
    !String.eqb_neq, !prefix_starts_with.
  split.
  - intros [[H M] | [[H M] | [H M]]]; (split; [exact M |]); auto.
    left. destruct H as [rest ->]. now exists ("/batch" ++ rest).
  - intros [M [H | H]]; auto.
Qed.

Lemma includes_comma_cons (c : ascii) (s : string) :
  JS.includes (String c s) "," = Ascii.eqb c "," || JS.includes s ",".
Proof.
  cbn [JS.includes String.prefix].
  destruct (Ascii.ascii_dec "," c) as [<- | Hne].
  - now destruct s.
  - assert (E : Ascii.eqb c "," = false) by (apply Ascii.eqb_neq; congruence).
    now rewrite E.
Qed.

Lemma before_comma_spec (text : string) :
  (exists rest, text = Logging.before_comma text ++ rest)
  /\ JS.includes (Logging.before_comma text) "," = false.
Proof.
  induction text as [| c text [[rest IH1] IH2]]; cbn [Logging.before_comma].
  - split; [now exists "" | reflexivity].
  - destruct (Ascii.eqb c ",") eqn:E.
    + split; [now exists (String c text) | reflexivity].
    + split; [exists rest; cbn [append]; now rewrite <- IH1 |].
      now rewrite includes_comma_cons, E, IH2.
Qed.

(** X15. [getClientIP] never answers the empty string. The first entry
    of X-Forwarded-For (the text before its first comma, itself without
    a comma) wins when it is not empty; then X-Real-IP, the remote address
    of the connection and that of the socket, the first of them that is
    there and not empty; and "unknown" when none is. *)
Theorem getClientIP_spec (req : Logging.Peer) :
  Logging.getClientIP req <> ""
  /\ (forall text,
         Logging.x_forwarded_for req = Some text ->
         Logging.before_comma text <> "" ->
         Logging.getClientIP req = Logging.before_comma text
         /\ starts_with (Logging.getClientIP req) text
         /\ JS.includes (Logging.getClientIP req) "," = false)
  /\ ((forall text, Logging.x_forwarded_for req = Some text ->
                    Logging.before_comma text = "") ->
      Logging.getClientIP req
      = JS.or_default (Logging.x_real_ip req)
          (JS.or_default (Logging.connection_remoteAddress req)
             (JS.or_default (Logging.socket_remoteAddress req) "unknown"))).
Proof.
  unfold Logging.getClientIP. split; [| split].
  - destruct (Logging.x_forwarded_for req) as [text |]; cbn [option_map];
      [destruct (Logging.before_comma text) |];
      destruct (Logging.x_real_ip req) as [[] |];
      destruct (Logging.connection_remoteAddress req) as [[] |];
      destruct (Logging.socket_remoteAddress req) as [[] |]; discriminate.
  - intros text -> Hne. cbn [option_map].
    destruct (before_comma_spec text) as [Hstart Hcomma].
    destruct (Logging.before_comma text) as [| c first] eqn:E; [congruence |].
    cbn. split; [reflexivity |]. split; [exact Hstart | exact Hcomma].
  - intros Hempty. destruct (Logging.x_forwarded_for req) as [text |]; cbn [option_map].
    + rewrite (Hempty text eq_refl). cbn [Logging.or_else].
      destruct (Logging.x_real_ip req) as [[] |];
        destruct (Logging.connection_remoteAddress req) as [[] |];
        destruct (Logging.socket_remoteAddress req) as [[] |]; reflexivity.
    + cbn [Logging.or_else].
      destruct (Logging.x_real_ip req) as [[] |];
        destruct (Logging.connection_remoteAddress req) as [[] |];
        destruct (Logging.socket_remoteAddress req) as [[] |]; reflexivity.
Qed.

(* ================================================================== *)
(** * Dates: the cursor is read back as it was written                 *)
(* ================================================================== *)

Lemma all_from_spec (check : Z -> bool) (count : nat) :
  forall from,
    all_from count from check = true ->
    forall j, from <= j < from + Z.of_nat count -> check j = true.
Proof.
  induction count as [| count IH]; intros from H j Hj; [lia |].
  cbn [all_from] in H. destruct (check from) eqn:E; [| discriminate].
  destruct (Z.eq_dec j from) as [-> | Hne]; [exact E |].
  apply (IH (from + 1) H). lia.
Qed.

Lemma era_days_ok : all_from (Z.to_nat 146097) 0 era_day_ok = true.
Proof. vm_cast_no_check (eq_refl true). Qed.

Lemma padded_2_ok : all_from 100 0 (padded_ok 2) = true.
Proof. vm_cast_no_check (eq_refl true). Qed.

Lemma padded_3_ok : all_from 1000 0 (padded_ok 3) = true.
Proof. vm_cast_no_check (eq_refl true). Qed.

Lemma padded_4_ok : all_from (Z.to_nat 10000) 0 (padded_ok 4) = true.
Proof. vm_cast_no_check (eq_refl true). Qed.

(** The calendar date of a day number is the date of that day: month and
    day of the month are in range, [JS.days_of_civil] gives the day
    number back, and the days from 1970-01-01 to 9999-12-31 fall in the
    years 0 to 9999. *)
Lemma civil_round_trip (n : Z) :
  let '(y, m, d) := JS.civil_of_days n in
  1 <= m <= 12 /\ 1 <= d <= 31 /\ JS.days_of_civil y m d = n
  /\ (0 <= n <= 2932896 -> 0 <= y <= 9999).
Proof.
  unfold JS.civil_of_days. cbv zeta.
  set (z := n + 719468). set (era := z / 146097). set (doe := z - era * 146097).
  assert (Hdoe : 0 <= doe < 146097).
  { subst doe era. pose proof (Z.div_mod z 146097 ltac:(lia)).
    pose proof (Z.mod_pos_bound z 146097 ltac:(lia)). lia. }
  pose proof (all_from_spec era_day_ok _ 0 era_days_ok doe ltac:(lia)) as Hok.
  unfold era_day_ok in Hok. cbv zeta in Hok.
  set (yoe := (doe - doe / 1460 + doe / 36524 - doe / 146096) / 365) in *.
  set (doy := doe - (365 * yoe + yoe / 4 - yoe / 100)) in *.
  set (mp := (5 * doy + 2) / 153) in *.
  set (d := doy - (153 * mp + 2) / 5 + 1) in *.
  set (m := if mp <? 10 then mp + 3 else mp - 9) in *.
  rewrite !andb_true_iff, orb_true_iff in Hok.
  destruct Hok as (((((((H1 & H2) & H3) & H4) & H5) & H6) & H7) & H8).
  apply Z.leb_le in H1, H2, H3, H4, H5, H6. apply Z.eqb_eq in H7.
  split; [lia |]. split; [lia |].
  assert (Hy : (if m <=? 2 then yoe + era * 400 + (if m <=? 2 then 1 else 0) - 1
                else yoe + era * 400 + (if m <=? 2 then 1 else 0))
               = yoe + era * 400)
    by (destruct (m <=? 2); lia).
  split.
  - unfold JS.days_of_civil. cbv zeta. rewrite Hy.
    rewrite Z.div_add by lia. rewrite (Z.div_small yoe 400) by lia.
    replace (yoe + era * 400 - (0 + era) * 400) with yoe by lia.
    subst doe z. lia.
  - intros Hn.
    assert (4 <= era <= 24).
    { subst doe z era.
      pose proof (Z.div_mod (n + 719468) 146097 ltac:(lia)).
      pose proof (Z.mod_pos_bound (n + 719468) 146097 ltac:(lia)). lia. }
    destruct H8 as [H8 | H8].
    + apply Z.ltb_lt in H8. assert (era <= 23) by (subst doe z; lia).
      destruct (m <=? 2); lia.
    + apply Z.leb_le in H8. destruct (m <=? 2); lia.
Qed.

Lemma string_length_2 (s : string) :
  String.length s = 2%nat -> exists a b, s = String a (String b "").
Proof. destruct s as [| a [| b [| c s]]]; try discriminate. eauto. Qed.

Lemma string_length_3 (s : string) :
  String.length s = 3%nat -> exists a b c, s = String a (String b (String c "")).
Proof. destruct s as [| a [| b [| c [| d s]]]]; try discriminate. eauto. Qed.

Lemma string_length_4 (s : string) :
  String.length s = 4%nat ->
  exists a b c d, s = String a (String b (String c (String d ""))).
Proof. destruct s as [| a [| b [| c [| d [| e s]]]]]; try discriminate. eauto. Qed.

Lemma padded_ok_spec (width : nat) (n : Z) :
  padded_ok width n = true ->
  String.length (JS.zero_padded width n) = width
  /\ JS.digits_value 0 (JS.zero_padded width n) = Some n.
Proof.
  unfold padded_ok. rewrite andb_true_iff. intros [Hlen Hval].
  apply Nat.eqb_eq in Hlen. split; [exact Hlen |].
  destruct (JS.digits_value 0 (JS.zero_padded width n)); [| discriminate].
  apply Z.eqb_eq in Hval. now subst.
Qed.

Lemma zero_padded_2 (n : Z) :
  0 <= n < 100 ->
  String.length (JS.zero_padded 2 n) = 2%nat
  /\ JS.digits_value 0 (JS.zero_padded 2 n) = Some n.
Proof.
  intros H. apply padded_ok_spec.
  apply (all_from_spec (padded_ok 2) _ 0 padded_2_ok). cbn. lia.
Qed.

Lemma zero_padded_3 (n : Z) :
  0 <= n < 1000 ->
  String.length (JS.zero_padded 3 n) = 3%nat
  /\ JS.digits_value 0 (JS.zero_padded 3 n) = Some n.
Proof.
  intros H. apply padded_ok_spec.
  apply (all_from_spec (padded_ok 3) _ 0 padded_3_ok). cbn. lia.
Qed.

Lemma zero_padded_4 (n : Z) :
  0 <= n < 10000 ->
  String.length (JS.zero_padded 4 n) = 4%nat
  /\ JS.digits_value 0 (JS.zero_padded 4 n) = Some n.
Proof.
  intros H. apply padded_ok_spec.
  apply (all_from_spec (padded_ok 4) _ 0 padded_4_ok). rewrite Z2Nat.id; lia.
Qed.

(** Reading a text of the shape [YYYY-MM-DDTHH:mm:ss.sssZ]. *)
Lemma Date_parse_shape (Y M D h mi s ms : string) (vy vm vd vh vmi vs vms : Z) :
  String.length Y = 4%nat -> String.length M = 2%nat -> String.length D = 2%nat ->
  String.length h = 2%nat -> String.length mi = 2%nat -> String.length s = 2%nat ->
  String.length ms = 3%nat ->
  JS.digits_value 0 Y = Some vy -> JS.digits_value 0 M = Some vm ->
  JS.digits_value 0 D = Some vd -> JS.digits_value 0 h = Some vh ->
  JS.digits_value 0 mi = Some vmi -> JS.digits_value 0 s = Some vs ->
  JS.digits_value 0 ms = Some vms ->
  1 <= vm <= 12 -> 1 <= vd <= 31 -> vh <= 23 -> vmi <= 59 -> vs <= 59 ->
  JS.Date_parse (Y ++ "-" ++ M ++ "-" ++ D ++ "T" ++ h ++ ":" ++ mi ++ ":" ++ s
                   ++ "." ++ ms ++ "Z")
  = Some (JS.days_of_civil vy vm vd * JS.ms_per_day
          + (vh * 3600000 + vmi * 60000 + vs * 1000 + vms)).
Proof.
  intros LY LM LD Lh Lmi Ls Lms.
  destruct (string_length_4 Y LY) as (y1 & y2 & y3 & y4 & ->).
  destruct (string_length_2 M LM) as (m1 & m2 & ->).
  destruct (string_length_2 D LD) as (d1 & d2 & ->).
  destruct (string_length_2 h Lh) as (h1 & h2 & ->).
  destruct (string_length_2 mi Lmi) as (i1 & i2 & ->).
  destruct (string_length_2 s Ls) as (s1 & s2 & ->).
  destruct (string_length_3 ms Lms) as (f1 & f2 & f3 & ->).
  intros HY HM HD Hh Hmi Hs Hms Rm Rd Rh Rmi Rs.
  unfold JS.Date_parse, JS.date_part, JS.time_part, JS.field.
  cbn [append String.length Nat.eqb String.substring].
  rewrite HY, HM, HD, Hh, Hmi, Hs, Hms.
  cbn [String.eqb Ascii.eqb Bool.eqb andb].
  replace (1 <=? vm) with true by (symmetry; apply Z.leb_le; lia).
  replace (vm <=? 12) with true by (symmetry; apply Z.leb_le; lia).
  replace (1 <=? vd) with true by (symmetry; apply Z.leb_le; lia).
  replace (vd <=? 31) with true by (symmetry; apply Z.leb_le; lia).
  replace (vh <=? 23) with true by (symmetry; apply Z.leb_le; lia).
  replace (vmi <=? 59) with true by (symmetry; apply Z.leb_le; lia).
  replace (vs <=? 59) with true by (symmetry; apply Z.leb_le; lia).
  reflexivity.
Qed.

(** A time of the years 1970 to 9999, written by [toISOString] and read
    back by [new Date], is the same time. *)
Lemma Date_parse_toISOString (t : Z) :
  0 <= t <= max_four_digit_year_time -> JS.Date_parse (JS.toISOString t) = Some t.
Proof.
  unfold max_four_digit_year_time. intros Ht. unfold JS.toISOString.
  pose proof (civil_round_trip (t / JS.ms_per_day)) as Hcivil.
  assert (Hday : 0 <= t / JS.ms_per_day <= 2932896).
  { unfold JS.ms_per_day. pose proof (Z.div_mod t 86400000 ltac:(lia)).
    pose proof (Z.mod_pos_bound t 86400000 ltac:(lia)). lia. }
  destruct (JS.civil_of_days (t / JS.ms_per_day)) as [[y m] d].
  destruct Hcivil as (Hm & Hd & Hdays & Hy). specialize (Hy Hday).
  replace ((0 <=? y) && (y <=? 9999)) with true
    by (symmetry; apply andb_true_iff; split; apply Z.leb_le; lia).
  set (ms := t mod JS.ms_per_day).
  assert (Hms : 0 <= ms < 86400000)
    by (subst ms; unfold JS.ms_per_day; apply Z.mod_pos_bound; lia).
  assert (H1 : 0 <= ms / 3600000 < 24).
  { pose proof (Z.div_mod ms 3600000 ltac:(lia)).
    pose proof (Z.mod_pos_bound ms 3600000 ltac:(lia)). lia. }
  assert (H2 : 0 <= ms / 60000 mod 60 < 60) by (apply Z.mod_pos_bound; lia).
  assert (H3 : 0 <= ms / 1000 mod 60 < 60) by (apply Z.mod_pos_bound; lia).
  assert (H4 : 0 <= ms mod 1000 < 1000) by (apply Z.mod_pos_bound; lia).
  destruct (zero_padded_4 y ltac:(lia)) as [LY VY].
  destruct (zero_padded_2 m ltac:(lia)) as [LM VM].
  destruct (zero_padded_2 d ltac:(lia)) as [LD VD].
  destruct (zero_padded_2 (ms / 3600000) ltac:(lia)) as [Lh Vh].
  destruct (zero_padded_2 (ms / 60000 mod 60) ltac:(lia)) as [Lmi Vmi].
  destruct (zero_padded_2 (ms / 1000 mod 60) ltac:(lia)) as [Ls Vs].
  destruct (zero_padded_3 (ms mod 1000) ltac:(lia)) as [Lf Vf].
  rewrite (Date_parse_shape _ _ _ _ _ _ _ _ _ _ _ _ _ _
             LY LM LD Lh Lmi Ls Lf VY VM VD Vh Vmi Vs Vf) by lia.
  f_equal. rewrite Hdays.
  assert (Htime : ms / 3600000 * 3600000 + ms / 60000 mod 60 * 60000
                  + ms / 1000 mod 60 * 1000 + ms mod 1000 = ms).
  { pose proof (Z.div_mod ms 1000 ltac:(lia)).
    pose proof (Z.div_mod (ms / 1000) 60 ltac:(lia)).
    pose proof (Z.div_mod (ms / 60000) 60 ltac:(lia)).
    assert (ms / 60000 = ms / 1000 / 60) by (rewrite Z.div_div; trivial; lia).
    assert (ms / 3600000 = ms / 60000 / 60) by (rewrite Z.div_div; trivial; lia).
    lia. }
  rewrite Htime. subst ms. unfold JS.ms_per_day.
  pose proof (Z.div_mod t 86400000 ltac:(lia)). lia.
Qed.

(** X16. The cursor of a page is read back as it was written: with the
    payments of the table created between 1970 and the end of the year
    9999, the next cursor of a fulfilled listing is the ISO text of the
    creation time of a payment of the table, [new Date] gives this very
    time back, and the query continued from the cursor asks the store
    for the payments of the same status created strictly before it, with
    the same limit. *)
Theorem nextCursor_round_trip (query : ListPaymentsQuery) (w w' : World)
    (page : ListPaymentsResponse) (cursor : string) :
  (forall n, q_limit query = Some n -> 0 <= n) ->
  (forall p, In p (payments w) ->
             0 <= Payment.createdAt p <= max_four_digit_year_time) ->
  Async.run (PaymentService.listPayments query) w = (Fulfilled page, w') ->
  nextCursor page = Some cursor ->
  exists last,
    In last (payments w)
    /\ cursor = JS.toISOString (Payment.createdAt last)
    /\ JS.Date_parse cursor = Some (Payment.createdAt last)
    /\ PaymentService.find_options (continued query cursor)
       = Some {| where_status := q_status query;
                 where_createdAt_lt := Some (Payment.createdAt last);
                 limit := PaymentService.effective_limit query + 1 |}
    /\ forall p,
        asked_for (continued query cursor) p
        <-> (forall s, q_status query = Some s -> Payment.status p = s)
            /\ Payment.createdAt p < Payment.createdAt last.
Proof.
  intros Hlimit Hrange Hrun Hnext.
  destruct (listPayments_page query w w' page Hlimit Hrun)
    as (_ & _ & rows & _ & _ & Hrows & Hcursor).
  rewrite Hnext in Hcursor. destruct Hcursor as (last & Hlast & -> & _).
  apply nth_error_In in Hlast. destruct (Hrows last Hlast) as [Hin _].
  pose proof (Date_parse_toISOString _ (Hrange last Hin)) as Hparse.
  destruct (toISOString_not_empty (Payment.createdAt last)) as (c & rest & Htext).
  exists last. split; [exact Hin |]. split; [reflexivity |]. split; [exact Hparse |].
  assert (Hopt : PaymentService.find_options
                   (continued query (JS.toISOString (Payment.createdAt last)))
                 = Some {| where_status := q_status query;
                           where_createdAt_lt := Some (Payment.createdAt last);
                           limit := PaymentService.effective_limit query + 1 |}).
  { unfold PaymentService.find_options, continued. cbn [q_cursor q_status].
    rewrite Htext in *. now rewrite Hparse. }
  split; [exact Hopt |].
  intros p. rewrite <- (matches_asked_for _ _ p Hopt).
  unfold Store.matches. cbn [where_status where_createdAt_lt].
  rewrite andb_true_iff, Z.ltb_lt. split.
  - intros [Hs Hc]. split; [| exact Hc]. intros s E. rewrite E in Hs.
    now apply Status_eqb_eq.
  - intros [Hs Hc]. split; [| exact Hc].
    destruct (q_status query) as [s |]; [| reflexivity].
    apply Status_eqb_eq. now apply Hs.
Qed.

Lemma nextCursor_round_trip_witness :
  exists last,
    In last (payments Example.five_world)
    /\ JS.Date_parse "2025-08-25T00:00:03.000Z" = Some (Payment.createdAt last).
Proof.
  destruct (nextCursor_round_trip Example.first_two Example.five_world
              (Store.tick Example.five_world)
              (PaymentService.page_of Example.first_two
                 (Store.findAll Example.first_two_options
                    (payments Example.five_world)))
              "2025-08-25T00:00:03.000Z")
    as (last & Hin & _ & Hparse & _).
  - intros n E. inversion E. lia.
  - intros p Hp. unfold max_four_digit_year_time.
    repeat (destruct Hp as [Hp | Hp]; [subst p; vm_compute; split; discriminate |]).
    destruct Hp.
  - reflexivity.
  - vm_compute. reflexivity.
  - exists last. split; [exact Hin | exact Hparse].
Defined.

(* ================================================================== *)
(** * The idempotency records of the items of a batch                  *)
(* ================================================================== *)

Lemma hex_digit_lower (n : N) : In (JS.hex_digit n) lower_hex.
Proof.
  unfold lower_hex.
  destruct n as [| p]; [| do 4 (try destruct p as [p | p |])];
    cbn; repeat ((left; reflexivity) || right).
Qed.

Lemma digest_hex_shape (s : string) :
  String.length (Sha256.digest_hex s) = 64%nat
  /\ Forall (fun c => In c lower_hex) (list_ascii_of_string (Sha256.digest_hex s)).
Proof.
  unfold Sha256.digest_hex.
  destruct (Sha256.blocks _ _ _) as [[[[[[[a b] c] d] e] f] g] h].
  cbn [map String.concat Sha256.hex_word Sha256.be_bytes Sha256.hex_byte append].
  split; [reflexivity |].
  cbn [list_ascii_of_string]. repeat (constructor; [apply hex_digit_lower |]).
  constructor.
Qed.

Lemma of_nat_short (j : nat) :
  (j < 100)%nat ->
  String.length (JS.of_nat j) = 1%nat \/ String.length (JS.of_nat j) = 2%nat.
Proof.
  intros Hj.
  do 100 (destruct j as [| j]; [vm_compute; auto |]). lia.
Qed.

Lemma get_app_here (u : string) (c : ascii) (rest : string) :
  String.get (String.length u) (u ++ String c rest) = Some c.
Proof. induction u as [| a u IH]; simpl; [reflexivity | exact IH]. Qed.

Lemma length_append (a b : string) :
  String.length (a ++ b) = (String.length a + String.length b)%nat.
Proof. induction a as [| c a IH]; simpl; [reflexivity | now rewrite IH]. Qed.

(** The key of a batch item is not a key that [checkIdempotency]
    accepts. *)
Lemma item_key_not_uuid (uuid : string) (index : nat) :
  (index < 100)%nat -> Idempotency.uuidRegex_test (item_key uuid index) = false.
Proof.
  intros Hj. destruct (Idempotency.uuidRegex_test (item_key uuid index)) eqn:E; trivial.
  exfalso. apply uuidRegex_test_shape in E. destruct E as [Hlen Hall].
  unfold item_key in *. cbn [append] in *.
  pose proof (Hall (String.length uuid) "-"%char (get_app_here uuid "-" _)) as Hdash.
  rewrite length_append in Hlen. cbn [String.length] in Hlen.
  destruct (of_nat_short index Hj) as [H | H]; rewrite H in Hlen.
  - replace (String.length uuid) with 34%nat in Hdash by lia.
    cbn in Hdash. repeat (destruct Hdash as [Hdash | Hdash]; [discriminate Hdash |]).
    exact Hdash.
  - replace (String.length uuid) with 33%nat in Hdash by lia.
    cbn in Hdash. repeat (destruct Hdash as [Hdash | Hdash]; [discriminate Hdash |]).
    exact Hdash.
Qed.

(** X17. The idempotency records that a batch writes for its items can
    never be used by a request. The key of an item, [<uuid>-<index>]
    with an index below 100, is not of the shape [checkIdempotency]
    accepts, whatever [uuidv4] answered: a request with this key is
    answered 400 without a store call. And the request hash of a body is
    always 64 lower-case hexadecimal digits, so it is never the
    "batch-payment" that the items are recorded with. *)
Theorem batch_item_records_unreachable (JSON_parse : string -> option JS.json)
    (uuid : string) (index : nat) :
  (index < 100)%nat ->
  ~ uuid_shape (item_key uuid index)
  /\ (forall req w,
         Http.header_idempotency_key req = Some (item_key uuid index) ->
         exists r,
           Async.run (Idempotency.checkIdempotency JSON_parse req) w
           = (Fulfilled (Http.Responded r), w)
           /\ Http.status_code r = 400)
  /\ (forall body,
         String.length (Idempotency.requestHash_of body) = 64%nat
         /\ Forall (fun c => In c lower_hex)
                   (list_ascii_of_string (Idempotency.requestHash_of body))
         /\ Idempotency.requestHash_of body <> "batch-payment").
Proof.
  intros Hj. pose proof (item_key_not_uuid uuid index Hj) as Hkey.
  split; [| split].
  - intros H. apply uuidRegex_test_shape in H. congruence.
  - intros req w Hheader. unfold Idempotency.checkIdempotency. rewrite Hheader.
    destruct (item_key uuid index) as [| c key]; [eexists; split; reflexivity |].
    rewrite Hkey. eexists. split; reflexivity.
  - intros body. unfold Idempotency.requestHash_of.
    destruct (digest_hex_shape (JS.JSON_stringify body)) as [Hlen Hhex].
    split; [exact Hlen |]. split; [exact Hhex |].
    intros E. rewrite E in Hlen. discriminate Hlen.
Qed.

Lemma batch_item_records_unreachable_witness :
  exists r,
    Async.run (Idempotency.checkIdempotency (fun _ => None)
                 (Example.request_of (item_key (Example.uuid_of 0) 7)
                    (Example.body_of 50000)))
              Example.empty_world
    = (Fulfilled (Http.Responded r), Example.empty_world)
    /\ Http.status_code r = 400.
Proof.
  destruct (batch_item_records_unreachable (fun _ => None) (Example.uuid_of 0) 7)
    as (_ & H & _); [lia |].
  apply H. reflexivity.
Defined.

(* ================================================================== *)
(** * What the calls of a batch can do to the store                    *)
(* ================================================================== *)

Section Issues.

Context {A : Type}.
Variable allowed : Op -> Prop.

Lemma moves_trans (w1 w2 w3 : World) :
  moves allowed w1 w2 -> moves allowed w2 w3 -> moves allowed w1 w3.
Proof.
  induction 1 as [w | op w w' Hop _ IH]; trivial.
  intros H. apply moves_call with op; [exact Hop | now apply IH].
Qed.

Lemma moves_one (op : Op) (w : World) :
  allowed op -> moves allowed w (snd (Store.handle op w)).
Proof. intros H. apply moves_call with op; [exact H | constructor]. Qed.

Lemma moves_keep (Q : World -> Prop) (w w' : World) :
  (forall op w0, allowed op -> Q w0 -> Q (snd (Store.handle op w0))) ->
  Q w -> moves allowed w w' -> Q w'.
Proof. intros HQ Hw H. induction H as [w | op w w' Hop _ IH]; auto. Qed.

Lemma step_moves (t : Task A) (w : World) :
  issues allowed t ->
  issues allowed (fst (Async.step t w)) /\ moves allowed w (snd (Async.step t w)).
Proof.
  destruct t as [a | e | op k]; simpl; try (split; [trivial | constructor]).
  intros [Hop Hk]. pose proof (moves_one op w Hop) as H.
  destruct (Store.handle op w) as [x w']. split; [apply Hk | exact H].
Qed.

Lemma run_moves (t : Task A) (w : World) :
  issues allowed t -> moves allowed w (snd (Async.run t w)).
Proof.
  revert w. induction t as [a | e | op k IH]; simpl; intros w; try constructor.
  intros [Hop Hk]. pose proof (moves_one op w Hop) as H.
  destruct (Store.handle op w) as [x w'].
  eapply moves_trans; [exact H | now apply IH].
Qed.

Lemma resume_moves (picks : list nat) :
  forall (ts : list (Task A)) (w : World),
    Forall (issues allowed) ts ->
    Forall (issues allowed) (fst (Async.resume picks ts w))
    /\ moves allowed w (snd (Async.resume picks ts w)).
Proof.
  induction picks as [| j picks IH]; intros ts w H; simpl.
  - split; [exact H | constructor].
  - destruct (nth_error ts j) as [t |] eqn:Ht; [| now apply IH].
    assert (Hissues : issues allowed t)
      by (rewrite Forall_forall in H; apply H; now apply nth_error_In with j).
    destruct (step_moves t w Hissues) as [Hstep Hmoves].
    destruct (Async.step t w) as [t' w']. cbn [fst snd] in Hstep, Hmoves.
    assert (Hnext : Forall (issues allowed) (Async.replace j t' ts)).
    { clear - H Hstep. revert j. induction H as [| u ts Hu Hts IHts]; intros j.
      - destruct j; constructor.
      - destruct j; simpl; constructor; auto. }
    destruct (IH (Async.replace j t' ts) w' Hnext) as [IH1 IH2].
    split; [exact IH1 | now apply moves_trans with w'].
Qed.

Lemma drain_moves (ts : list (Task A)) :
  forall w, Forall (issues allowed) ts -> moves allowed w (snd (Async.drain ts w)).
Proof.
  induction ts as [| t ts IH]; intros w H; simpl; [constructor |].
  inversion H as [| t0 ts0 Ht Hts]; subst.
  pose proof (run_moves t w Ht) as Hrun.
  destruct (Async.run t w) as [s w1]. cbn [snd] in Hrun.
  specialize (IH w1 Hts). destruct (Async.drain ts w1) as [ss w2].
  cbn [snd] in *. now apply moves_trans with w1.
Qed.

Lemma allSettled_moves (picks : list nat) (ts : list (Task A)) (w : World) :
  Forall (issues allowed) ts -> moves allowed w (snd (Async.allSettled picks ts w)).
Proof.
  intros H. unfold Async.allSettled.
  destruct (resume_moves picks ts w H) as [Hts Hmoves].
  destruct (Async.resume picks ts w) as [ts' w']. cbn [fst snd] in *.
  pose proof (drain_moves ts' w' Hts) as Hdrain.
  destruct (Async.drain ts' w') as [ss w'']. cbn [snd] in *.
  now apply moves_trans with w'.
Qed.

End Issues.

Lemma issues_bind {A B : Type} (allowed : Op -> Prop) (t : Task A) (f : A -> Task B) :
  issues allowed t -> (forall a, issues allowed (f a)) ->
  issues allowed (Async.bind t f).
Proof.
  intros Ht Hf. induction t as [a | e | op k IH]; simpl; auto.
  destruct Ht as [Hop Hk]. split; [exact Hop |]. intros x. now apply IH.
Qed.

Lemma issues_try_catch {A : Type} (allowed : Op -> Prop) (t : Task A)
    (handler : JS.Error -> Task A) :
  issues allowed t -> (forall e, issues allowed (handler e)) ->
  issues allowed (Async.try_catch t handler).
Proof.
  intros Ht Hh. induction t as [a | e | op k IH]; simpl; auto.
  destruct Ht as [Hop Hk]. split; [exact Hop |]. intros x. now apply IH.
Qed.

Lemma storeIdempotencyResponse_issues (allowed : Op -> Prop)
    (key hash : string) (data : JS.json) :
  allowed Date_now ->
  (forall a, IdempotencyKey.a_key a = key -> allowed (IdempotencyKey_create a)) ->
  issues allowed (Idempotency.storeIdempotencyResponse key hash data).
Proof.
  intros Hnow Hcreate. unfold Idempotency.storeIdempotencyResponse.
  apply issues_try_catch; [| intros e; exact I].
  unfold Async.call, Async.await. cbn [Async.bind issues].
  split; [exact Hnow |]. intros x. split; [now apply Hcreate |].
  intros [r | e]; exact I.
Qed.

Lemma createPayment_issues (checkoutBaseUrl : string) (request : CreatePaymentRequest)
    (uuid : string) (index : nat) (hash : string) :
  (index < 100)%nat ->
  issues item_calls
         (PaymentService.createPayment checkoutBaseUrl request (item_key uuid index) hash).
Proof.
  intros Hj. unfold PaymentService.createPayment.
  apply issues_try_catch; [| intros e; exact I].
  unfold Async.call, Async.await. cbn [Async.bind issues].
  split; [exact I |]. intros id. split; [reflexivity |].
  intros [row | e]; cbn [Async.bind issues]; [| exact I].
  apply issues_bind; [| intros []; exact I].
  apply storeIdempotencyResponse_issues; [exact I |].
  intros a Ha. cbn. now exists uuid, index.
Qed.

Lemma attempts_from_issues (checkoutBaseUrl : string) (options : BatchProcessingOptions)
    (item : CreatePaymentRequest) (index : nat) :
  (index < 100)%nat ->
  forall remaining attempt lastError,
    issues item_calls
           (BatchPaymentService.attempts_from
              (PaymentService.createPayment checkoutBaseUrl) options
              remaining attempt lastError item index).
Proof.
  intros Hj. induction remaining as [| remaining IH]; intros attempt lastError.
  - exact I.
  - cbn [BatchPaymentService.attempts_from].
    apply issues_try_catch.
    + unfold Async.call. cbn [Async.bind issues]. split; [exact I |].
      intros uuid. apply issues_bind; [| intros result; exact I].
      now apply createPayment_issues.
    + intros e. apply issues_bind; [| intros []; apply IH].
      destruct (attempt <? maxRetryAttempts options)%nat; [| exact I].
      unfold BatchPaymentService.delay, Async.call. cbn. split; [exact I |].
      intros []. exact I.
Qed.

Lemma grown_by_items_refl (w : World) : grown_by_items w w.
Proof.
  split; [exists []; split; [now rewrite app_nil_r | constructor] |].
  split; [reflexivity |].
  split; [exists []; split; [now rewrite app_nil_r | constructor] | reflexivity].
Qed.

Lemma grown_by_items_kept (w0 : World) (op : Op) (w : World) :
  item_calls op -> grown_by_items w0 w -> grown_by_items w0 (snd (Store.handle op w)).
Proof.
  intros Hop ((added & Hp & Hpending) & Hh & (keys & Hk & Hkeys) & Hf).
  unfold grown_by_items. rewrite handle_db_fault.
  destruct op; cbn [item_calls] in Hop; try contradiction;
    cbn [Store.handle snd Store.draw_uuid Store.sleep];
    try (split; [now exists added |]; split; [exact Hh |];
         split; [now exists keys | exact Hf]).
  - unfold Store.guarded. destruct (db_fault w (db_calls w)); cbn [snd].
    + split; [now exists added |]. split; [exact Hh |].
      split; [now exists keys | exact Hf].
    + destruct (existsb _ _); cbn [snd].
      * split; [now exists added |]. split; [exact Hh |].
        split; [now exists keys | exact Hf].
      * split.
        { exists (added ++ [Payment.build a (now (Store.tick w))])%list.
          cbn. rewrite Hp, <- app_assoc. split; [reflexivity |].
          apply Forall_app. split; [exact Hpending |].
          constructor; [exact Hop | constructor]. }
        split; [exact Hh |]. split; [now exists keys | exact Hf].
  - unfold Store.guarded. destruct (db_fault w (db_calls w)); cbn [snd].
    + split; [now exists added |]. split; [exact Hh |].
      split; [now exists keys | exact Hf].
    + destruct (existsb _ _); cbn [snd].
      * split; [now exists added |]. split; [exact Hh |].
        split; [now exists keys | exact Hf].
      * split; [now exists added |]. split; [exact Hh |]. split; [| exact Hf].
        eexists. cbn. rewrite Hk, <- app_assoc. split; [reflexivity |].
        apply Forall_app. split; [exact Hkeys |].
        constructor; [exact Hop | constructor].
Qed.

Lemma moves_grown_by_items (w w' : World) : moves item_calls w w' -> grown_by_items w w'.
Proof.
  intros H. apply (moves_keep item_calls (grown_by_items w) w w'); trivial.
  - intros op w0. apply grown_by_items_kept.
  - apply grown_by_items_refl.
Qed.

Lemma chunk_tasks_issue (checkoutBaseUrl : string) (options : BatchProcessingOptions)
    (chunk : list CreatePaymentRequest) :
  forall i,
    (i + List.length chunk <= 100)%nat ->
    Forall (issues item_calls)
           (BatchPaymentService.map_indexed
              (BatchPaymentService.processPaymentWithRetry
                 (PaymentService.createPayment checkoutBaseUrl) options) i chunk).
Proof.
  induction chunk as [| item chunk IH]; intros i Hi; simpl; constructor.
  - apply attempts_from_issues. simpl in Hi. lia.
  - apply IH. simpl in Hi. lia.
Qed.

Lemma chunks_from_moves (checkoutBaseUrl : string) (options : BatchProcessingOptions)
    (sched : nat -> list nat) (payments : list CreatePaymentRequest) :
  (List.length payments <= 100)%nat ->
  forall fuel i totals w totals' w',
    BatchPaymentService.chunks_from (PaymentService.createPayment checkoutBaseUrl)
      options fuel sched payments i totals w = Some (totals', w') ->
    moves item_calls w w'.
Proof.
  intros Hmax. induction fuel as [| fuel IH]; intros i totals w totals' w' H;
    [discriminate H |].
  cbn [BatchPaymentService.chunks_from] in H.
  destruct (i <? List.length payments)%nat eqn:Hi.
  - apply Nat.ltb_lt in Hi.
    match type of H with
    | context [Async.allSettled (sched i) ?ts w] =>
        pose proof (allSettled_moves item_calls (sched i) ts w) as Hchunk
    end.
    destruct (Async.allSettled (sched i) _ w) as [chunkResults w1].
    cbn [snd] in Hchunk. apply moves_trans with w1.
    + apply Hchunk. apply chunk_tasks_issue.
      rewrite slice_length. lia.
    + exact (IH _ _ _ _ _ H).
  - inversion H; subst. constructor.
Qed.

Lemma findKey_app_list (key : string) (rows more : list IdempotencyKey.t) :
  Store.findKey key (rows ++ more)
  = match Store.findKey key rows with
    | Some found => Some found
    | None => Store.findKey key more
    end.
Proof.
  unfold Store.findKey. induction rows as [| q rows IH]; simpl; trivial.
  destruct (String.eqb (IdempotencyKey.key q) key); trivial.
Qed.

(** What a batch over the payment service has done to the store when it
    settles, whatever the schedule and the failures. *)
Lemma processBatch_grown (checkoutBaseUrl : string) (options : BatchProcessingOptions)
    (sched : nat -> list nat) (payments : list CreatePaymentRequest)
    (key hash : string) (w : World) (s : Settled BatchPaymentResponse) (w' : World) :
  BatchPaymentService.processBatch (PaymentService.createPayment checkoutBaseUrl)
    options sched payments key hash w = Some (s, w') ->
  (100 < List.length payments)%nat /\ w' = w
  \/ (List.length payments <= 100)%nat
     /\ exists response w1,
         s = Fulfilled response
         /\ grown_by_items w w1
         /\ Async.run (Idempotency.storeIdempotencyResponse key hash
                         (BatchPaymentResponse_json response)) w1
            = (Fulfilled tt, w').
Proof.
  unfold BatchPaymentService.processBatch. intros H.
  destruct (100 <? List.length payments)%nat eqn:Hmax.
  - apply Nat.ltb_lt in Hmax. inversion H. now left.
  - apply Nat.ltb_ge in Hmax. right. split; [exact Hmax |].
    destruct (BatchPaymentService.chunks_from _ _ _ _ _ _ _ _) as [[totals w1] |] eqn:Hchunks;
      [| discriminate H].
    apply chunks_from_moves in Hchunks; [| exact Hmax].
    apply moves_grown_by_items in Hchunks.
    match type of H with
    | context [Async.run (Idempotency.storeIdempotencyResponse ?k ?h ?d) w1] =>
        destruct (storeIdempotencyResponse_cases k h d w1) as (w2 & Hrun & _)
    end.
    rewrite Hrun in H. inversion H; subst.
    eexists; exists w1. split; [reflexivity |]. split; [exact Hchunks | exact Hrun].
Qed.

(** X18. A batch over the payment service, whatever its schedule and
    whatever fails, only adds to the store: the payments that were there
    are untouched and the ones added after them are pending; the
    history is not written; idempotency records are only added, under
    keys of items or under the key of the batch, so that the record a key
    had before the batch is the record it has after it. *)
Theorem processBatch_only_appends (checkoutBaseUrl : string)
    (options : BatchProcessingOptions) (sched : nat -> list nat)
    (batch : list CreatePaymentRequest) (key hash : string) (w : World)
    (s : Settled BatchPaymentResponse) (w' : World) :
  BatchPaymentService.processBatch (PaymentService.createPayment checkoutBaseUrl)
    options sched batch key hash w = Some (s, w') ->
  (exists added,
      payments w' = (payments w ++ added)%list
      /\ Forall (fun p => Payment.status p = pending) added)
  /\ payment_histories w' = payment_histories w
  /\ (exists records,
         idempotency_keys w' = (idempotency_keys w ++ records)%list
         /\ Forall (fun r => IdempotencyKey.key r = key
                             \/ exists uuid index,
                                 (index < 100)%nat
                                 /\ IdempotencyKey.key r = item_key uuid index)
                   records)
  /\ (forall k r,
         Store.findKey k (idempotency_keys w) = Some r ->
         Store.findKey k (idempotency_keys w') = Some r).
Proof.
  intros H.
  assert (Hgoal :
            (exists added,
                payments w' = (payments w ++ added)%list
                /\ Forall (fun p => Payment.status p = pending) added)
            /\ payment_histories w' = payment_histories w
            /\ (exists records,
                   idempotency_keys w' = (idempotency_keys w ++ records)%list
                   /\ Forall (fun r => IdempotencyKey.key r = key
                                       \/ exists uuid index,
                                           (index < 100)%nat
                                           /\ IdempotencyKey.key r = item_key uuid index)
                             records)).
  { destruct (processBatch_grown _ _ _ _ _ _ _ _ _ H)
      as [[_ ->] | (_ & response & w1 & _ & Hgrown & Hrun)].
    - split; [exists []; split; [now rewrite app_nil_r | constructor] |].
      split; [reflexivity |].
      exists []. split; [now rewrite app_nil_r | constructor].
    - destruct Hgrown as ((added & Hp & Hpending) & Hh & (records & Hk & Hitems) & _).
      destruct (storeIdempotencyResponse_cases key hash
                  (BatchPaymentResponse_json response) w1)
        as (w2 & Hrun2 & Hp2 & Hh2 & _ & _ & _ & _ & Hk2).
      rewrite Hrun in Hrun2. inversion Hrun2; subst w2.
      split; [exists added; now rewrite Hp2 |].
      split; [now rewrite Hh2 |].
      assert (Hitems' : Forall (fun r => IdempotencyKey.key r = key
                                         \/ exists uuid index,
                                             (index < 100)%nat
                                             /\ IdempotencyKey.key r
                                                = item_key uuid index) records)
        by (eapply Forall_impl; [| exact Hitems]; intros r Hr; now right).
      destruct (db_fault w1 (db_calls w1));
        [exists records; split; [now rewrite (proj1 Hk2) | exact Hitems'] |].
      destruct (Store.findKey key (idempotency_keys w1));
        [exists records; split; [now rewrite (proj1 Hk2) | exact Hitems'] |].
      eexists. rewrite (proj1 Hk2), Hk, <- app_assoc. split; [reflexivity |].
      apply Forall_app. split; [exact Hitems' |].
      constructor; [now left | constructor]. }
  destruct Hgoal as (Hp & Hh & records & Hk & Hrecords).
  split; [exact Hp |]. split; [exact Hh |].
  split; [now exists records |].
  intros k r Hfind. now rewrite Hk, findKey_app_list, Hfind.
Qed.

Lemma processBatch_only_appends_witness :
  exists s w' added,
    BatchPaymentService.processBatch (PaymentService.createPayment Example.base_url)
      Example.two_workers Example.second_first Example.three_payments
      Example.key_1 "batch-hash" Example.one_pending = Some (s, w')
    /\ payments w' = (Example.pending_payment :: added)%list.
Proof.
  destruct (BatchPaymentService.processBatch
              (PaymentService.createPayment Example.base_url)
              Example.two_workers Example.second_first Example.three_payments
              Example.key_1 "batch-hash" Example.one_pending) as [[s w'] |] eqn:E.
  - destruct (processBatch_only_appends _ _ _ _ _ _ _ s w' E) as ((added & Hp & _) & _).
    exists s, w', added. split; [reflexivity | exact Hp].
  - vm_compute in E. discriminate E.
Defined.

Lemma findKey_absent (key : string) (rows : list IdempotencyKey.t) :
  Forall (fun r => IdempotencyKey.key r <> key) rows -> Store.findKey key rows = None.
Proof.
  unfold Store.findKey. induction 1 as [| r rows Hr _ IH]; simpl; trivial.
  apply String.eqb_neq in Hr. now rewrite Hr.
Qed.

(** X19. A batch request that is sent again is not processed again. For
    a request with a well-formed key that has no record, a body the
    schema accepts with at most 100 payments, at least one worker and a
    store that answers: the first [POST /payments/batch] answers 200
    with the results, whatever the schedule of its tasks; the same
    request sent again is answered 200 with the very same body, from the
    record of the first, without writing anything. [JSON.parse] is
    assumed to read back what [JSON.stringify] wrote of the first
    answer. *)
Theorem post_batch_replay (JSON_parse : string -> option JS.json)
    (schema_errors : JS.json -> list string) (checkoutBaseUrl : string)
    (options : BatchProcessingOptions) (sched : nat -> list nat)
    (req : Http.Request) (w : World) (key : string)
    (batch : list CreatePaymentRequest) :
  Http.header_idempotency_key req = Some key ->
  uuid_shape key ->
  schema_errors (Http.body req) = [] ->
  BatchRoute.body_batch (Http.body req) = Some batch ->
  (1 <= maxConcurrentWorkers options)%nat ->
  (List.length batch <= 100)%nat ->
  (forall n, db_fault w n = None) ->
  Store.findKey key (idempotency_keys w) = None ->
  let post := BatchRoute.post_batch JSON_parse schema_errors checkoutBaseUrl
                options sched req in
  (forall r w1, post w = Some (r, w1) ->
                JSON_parse (JS.JSON_stringify (Http.payload r)) = Some (Http.payload r)) ->
  exists r w1 w2,
    post w = Some (r, w1)
    /\ Http.status_code r = 200
    /\ post w1 = Some (r, w2)
    /\ same_tables w1 w2.
Proof.
  intros Hkey Hshape Hschema Hbody HW Hmax Hstore Hnone post Hparse.
  apply uuidRegex_test_shape in Hshape.
  destruct (uuid_not_empty key Hshape) as (c & rest & Ekey).
  destruct (digest_hex_not_empty (JS.JSON_stringify (Http.body req))) as (c' & h & Ehash).
  fold (Idempotency.requestHash_of (Http.body req)) in Ehash.
  (* the first request *)
  destruct (processBatch_good (PaymentService.createPayment checkoutBaseUrl) options
              (fun _ => True) anything_invariant (fun j item r => index r = j)
              (fun j item =>
                 always_in_mono _ _ _ _
                   (fun s H => match H with
                               | ex_intro _ r (conj Hs (conj Hi _)) =>
                                   ex_intro _ r (conj Hs Hi)
                               end)
                   (processPaymentWithRetry_fulfills
                      (PaymentService.createPayment checkoutBaseUrl) options _ item j))
              batch sched key (Idempotency.requestHash_of (Http.body req))
              (Store.tick w) I HW Hmax)
    as (response & w1 & Hrun & _).
  assert (Hfirst : post w
                   = Some ({| Http.status_code := 200;
                              Http.payload := BatchPaymentResponse_json response |}, w1)).
  { unfold post, BatchRoute.post_batch.
    rewrite (checkIdempotency_run JSON_parse req w key Hkey Hshape (Hstore _)), Hnone.
    cbn [Http.body Http.idempotencyKey Http.requestHash]. rewrite Hschema, Hbody.
    unfold BatchPaymentController.processBatch.
    cbn [BatchPaymentController.idempotencyKey BatchPaymentController.requestHash
         BatchPaymentController.body_payments].
    rewrite Ehash, Ekey in *. now rewrite Hrun. }
  (* the record it left *)
  destruct (processBatch_grown _ _ _ _ _ _ _ _ _ Hrun)
    as [[Hover _] | (_ & response' & wc & E & Hgrown & Hstored)]; [lia |].
  inversion E; subst response'. clear E.
  destruct Hgrown as (_ & _ & (records & Hk & Hitems) & Hfault).
  destruct (storeIdempotencyResponse_cases key
              (Idempotency.requestHash_of (Http.body req))
              (BatchPaymentResponse_json response) wc)
    as (w1' & Hrun' & _ & _ & Hfault1 & _ & _ & _ & Hkeys).
  rewrite Hstored in Hrun'. inversion Hrun'; subst w1'. clear Hrun'.
  assert (Hhealthy : forall n, db_fault wc n = None)
    by (intros n; rewrite Hfault; apply Hstore).
  assert (Habsent : Store.findKey key (idempotency_keys wc) = None).
  { rewrite Hk. cbn [idempotency_keys Store.tick]. rewrite findKey_app_list, Hnone.
    apply findKey_absent. eapply Forall_impl; [| exact Hitems].
    intros r (uuid & j & Hj & Hr) E. rewrite Hr in E.
    pose proof (item_key_not_uuid uuid j Hj) as Hno. rewrite E in Hno. congruence. }
  rewrite Hhealthy, Habsent in Hkeys. destruct Hkeys as [Hkeys _].
  (* the second request *)
  exists {| Http.status_code := 200;
            Http.payload := BatchPaymentResponse_json response |}, w1, (Store.tick w1).
  split; [exact Hfirst |]. split; [reflexivity |]. split; [| apply tick_same_tables].
  unfold post, BatchRoute.post_batch.
  rewrite (checkIdempotency_run JSON_parse req w1 key Hkey Hshape)
    by (rewrite Hfault1; apply Hhealthy).
  rewrite Hkeys, findKey_app_list, Habsent. cbn [Store.findKey find IdempotencyKey.key].
  rewrite String.eqb_refl. cbn [IdempotencyKey.requestHash IdempotencyKey.responseData].
  rewrite String.eqb_refl.
  pose proof (Hparse _ _ Hfirst) as Hread. cbn [Http.payload] in Hread.
  now rewrite Hread.
Qed.

Lemma post_batch_replay_witness :
  exists r w1 w2,
    BatchRoute.post_batch (Example.parse_only Example2.batch_answer) Example.no_errors
      Example.base_url Example.two_workers Example.second_first
      Example2.batch_request Example.empty_world = Some (r, w1)
    /\ Http.status_code r = 200
    /\ BatchRoute.post_batch (Example.parse_only Example2.batch_answer)
         Example.no_errors Example.base_url Example.two_workers Example.second_first
         Example2.batch_request w1 = Some (r, w2)
    /\ same_tables w1 w2.
Proof.
  eapply (post_batch_replay (Example.parse_only Example2.batch_answer)
            Example.no_errors Example.base_url Example.two_workers
            Example.second_first Example2.batch_request Example.empty_world
            Example.key_1).
  - reflexivity.
  - apply uuidRegex_test_shape. vm_compute. reflexivity.
  - reflexivity.
  - vm_compute. reflexivity.
  - cbn. lia.
  - cbn. lia.
  - intros n. reflexivity.
  - reflexivity.
  - intros r w1 H. vm_compute in H. inversion H; subst r. vm_compute. reflexivity.
Defined.

(* ================================================================== *)
(** * Webhook requests that overlap                                    *)
(* ================================================================== *)

Lemma store_up_handle (op : Op) (w : World) :
  store_up w -> store_up (snd (Store.handle op w)).
Proof. intros H n. rewrite handle_db_fault. apply H. Qed.

Lemma store_up_run {A : Type} (t : Task A) (w : World) :
  store_up w -> store_up (snd (Async.run t w)).
Proof.
  revert w. induction t as [a | e | op k IH]; simpl; trivial.
  intros w H. pose proof (store_up_handle op w H) as H'.
  destruct (Store.handle op w) as [x w']. now apply IH.
Qed.

Lemma findByPk_map_status (id : string) (s : Status) (t : Z) (rows : list Payment.t)
    (p : Payment.t) :
  Store.findByPk id rows = Some p ->
  Store.findByPk id (map (fun q => if String.eqb (Payment.id q) id
                                   then Payment.with_status q s t else q) rows)
  = Some (Payment.with_status p s t).
Proof.
  unfold Store.findByPk.
  induction rows as [| q rows IH]; simpl; [discriminate |].
  destruct (String.eqb (Payment.id q) id) eqn:E; simpl.
  - rewrite E. intros H. now inversion H.
  - rewrite E. exact IH.
Qed.

(** The first step of [updatePaymentStatus]: the payment is read. *)
Lemma updatePaymentStatus_reads (request : WebhookUpdateRequest) (w : World)
    (p : Payment.t) :
  db_fault w (db_calls w) = None ->
  Store.findByPk (u_paymentId request) (payments w) = Some p ->
  PaymentService.isValidStatusTransition (Payment.status p) (u_newStatus request) = true ->
  Async.step (PaymentService.updatePaymentStatus request) w
  = (writes_after_read p request, Store.tick w).
Proof.
  intros Hf Hp Hv. unfold PaymentService.updatePaymentStatus, Async.await, Async.call.
  cbn [Async.bind Async.step Store.handle].
  rewrite guarded_answers by exact Hf. cbn [payments Store.tick].
  rewrite Hp. cbn [Async.bind]. now rewrite Hv.
Qed.

(** The two writes, made with what was read earlier, whatever the
    payment has become since. *)
Lemma writes_after_read_run (payment : Payment.t) (request : WebhookUpdateRequest)
    (w : World) :
  store_up w ->
  exists w' h,
    Async.run (writes_after_read payment request) w = (Fulfilled tt, w')
    /\ payments w'
       = map (fun q => if String.eqb (Payment.id q) (Payment.id payment)
                       then Payment.with_status q (u_newStatus request) (now w) else q)
             (payments w)
    /\ payment_histories w' = (payment_histories w ++ [h])%list
    /\ PaymentHistory.paymentId h = Payment.id payment
    /\ PaymentHistory.oldStatus h = Payment.status payment
    /\ PaymentHistory.newStatus h = u_newStatus request
    /\ store_up w' /\ now w' = now w.
Proof.
  intros Hup. unfold writes_after_read.
  rewrite run_bind, run_await. unfold Async.call. cbn [Async.run Store.handle].
  rewrite guarded_answers by apply Hup. cbn [fst snd].
  rewrite run_bind, run_await. cbn [Async.run Store.handle].
  rewrite guarded_answers by apply Hup. cbn.
  eexists; eexists. split; [reflexivity |]. cbn. repeat split. exact Hup.
Qed.

(** X20. [updatePaymentStatus] does not look at the payment again when
    it writes. For a pending payment and a store that answers, three
    webhook requests that overlap (two deliveries of "paid" and one
    "reversed", the second delivery of "paid" having read the payment
    before the others ran) are all fulfilled, the history gets the rows
    pending -> paid, paid -> reversed and pending -> paid, and the
    payment, whose reversal is recorded, ends up paid again. *)
Theorem overlapping_updates_move_back (w : World) (p : Payment.t)
    (reason1 reason2 reason3 : option string) :
  store_up w ->
  Store.findByPk (Payment.id p) (payments w) = Some p ->
  Payment.status p = pending ->
  let first_paid := PaymentService.updatePaymentStatus (paid_request (Payment.id p) reason1) in
  let reversal := PaymentService.updatePaymentStatus
                    (reversed_request (Payment.id p) reason2) in
  let second_paid := PaymentService.updatePaymentStatus
                       (paid_request (Payment.id p) reason3) in
  let started := Async.resume [2%nat] [first_paid; reversal; second_paid] w in
  let finished := Async.drain (fst started) (snd started) in
  fst finished = [Fulfilled tt; Fulfilled tt; Fulfilled tt]
  /\ option_map Payment.status (Store.findByPk (Payment.id p) (payments (snd finished)))
     = Some paid
  /\ exists h1 h2 h3,
      payment_histories (snd finished) = (payment_histories w ++ [h1; h2; h3])%list
      /\ map transition_of [h1; h2; h3]
         = [(Payment.id p, paid); (Payment.id p, reversed); (Payment.id p, paid)]
      /\ map PaymentHistory.oldStatus [h1; h2; h3] = [pending; paid; pending].
Proof.
  intros Hup Hp Hpending. cbv zeta. cbn [Async.resume nth_error].
  rewrite (updatePaymentStatus_reads (paid_request (Payment.id p) reason3) w p);
    [| apply Hup | exact Hp | now rewrite Hpending].
  cbn [Async.replace fst snd Async.drain].
  (* the first delivery of "paid" *)
  set (w1 := Store.tick w).
  assert (Hup1 : store_up w1) by exact Hup.
  destruct (updatePaymentStatus_cases (paid_request (Payment.id p) reason1) w1)
    as [_ Hcase1].
  rewrite !Hup1 in Hcase1. cbn [u_paymentId paid_request u_newStatus] in Hcase1.
  change (payments w1) with (payments w) in Hcase1. rewrite Hp, Hpending in Hcase1.
  cbn [PaymentService.isValidStatusTransition PaymentService.validTransitions
       existsb Status_eqb orb] in Hcase1.
  destruct Hcase1 as (Hs1 & Hrows1 & h1 & Hhist1 & Hh1).
  pose proof (store_up_run (PaymentService.updatePaymentStatus
                              (paid_request (Payment.id p) reason1)) w1 Hup1) as Hup2.
  destruct (Async.run (PaymentService.updatePaymentStatus
                         (paid_request (Payment.id p) reason1)) w1) as [s1 w2].
  cbn [fst snd] in Hs1, Hrows1, Hhist1, Hup2. subst s1.
  (* the reversal *)
  assert (Hp2 : Store.findByPk (Payment.id p) (payments w2)
                = Some (Payment.with_status p paid (now w1))).
  { rewrite Hrows1. apply findByPk_after_update. exact Hp. }
  destruct (updatePaymentStatus_cases (reversed_request (Payment.id p) reason2) w2)
    as [_ Hcase2].
  rewrite !Hup2 in Hcase2. cbn [u_paymentId reversed_request u_newStatus] in Hcase2.
  rewrite Hp2 in Hcase2.
  cbn [Payment.status Payment.with_status PaymentService.isValidStatusTransition
       PaymentService.validTransitions existsb Status_eqb orb] in Hcase2.
  destruct Hcase2 as (Hs2 & Hrows2 & h2 & Hhist2 & Hh2).
  pose proof (store_up_run (PaymentService.updatePaymentStatus
                              (reversed_request (Payment.id p) reason2)) w2 Hup2) as Hup3.
  destruct (Async.run (PaymentService.updatePaymentStatus
                         (reversed_request (Payment.id p) reason2)) w2) as [s2 w3].
  cbn [fst snd] in Hs2, Hrows2, Hhist2, Hup3. subst s2.
  assert (Hp3 : Store.findByPk (Payment.id p) (payments w3)
                = Some (Payment.with_status (Payment.with_status p paid (now w1))
                          reversed (now w2))).
  { rewrite Hrows2. apply (findByPk_after_update w2 (Payment.id p)). exact Hp2. }
  (* the second delivery of "paid", with what it read at the start *)
  destruct (writes_after_read_run p (paid_request (Payment.id p) reason3) w3 Hup3)
    as (w4 & h3 & Hrun3 & Hrows3 & Hhist3 & Hid3 & Hold3 & Hnew3 & _).
  rewrite Hrun3. cbn [fst snd].
  split; [reflexivity |]. split.
  - rewrite Hrows3. cbn [u_newStatus paid_request].
    now rewrite (findByPk_map_status _ _ _ _ _ Hp3).
  - exists h1, h2, h3. split.
    + rewrite Hhist3, Hhist2, Hhist1. cbn [payment_histories w1 Store.tick].
      now rewrite <- !app_assoc.
    + destruct Hh1 as (Hid1 & Hold1 & Hnew1 & _). destruct Hh2 as (Hid2 & Hold2 & Hnew2 & _).
      unfold transition_of. cbn [map].
      rewrite Hid1, Hid2, Hid3, Hnew1, Hnew2, Hnew3, Hold1, Hold2, Hold3, Hpending.
      split; reflexivity.
Qed.

Lemma overlapping_updates_move_back_witness :
  option_map Payment.status
    (Store.findByPk (Payment.id Example.pending_payment)
       (payments
          (snd (Async.drain
                  (fst (Async.resume [2%nat]
                          [PaymentService.updatePaymentStatus
                             (paid_request (Payment.id Example.pending_payment) None);
                           PaymentService.updatePaymentStatus
                             (reversed_request (Payment.id Example.pending_payment) None);
                           PaymentService.updatePaymentStatus
                             (paid_request (Payment.id Example.pending_payment) None)]
                          Example.one_pending))
                  (snd (Async.resume [2%nat]
                          [PaymentService.updatePaymentStatus
                             (paid_request (Payment.id Example.pending_payment) None);
                           PaymentService.updatePaymentStatus
                             (reversed_request (Payment.id Example.pending_payment) None);
                           PaymentService.updatePaymentStatus
                             (paid_request (Payment.id Example.pending_payment) None)]
                          Example.one_pending))))))
  = Some paid.
Proof.
  apply (overlapping_updates_move_back Example.one_pending Example.pending_payment
           None None None).
  - intros n. reflexivity.
  - reflexivity.
  - reflexivity.
Defined.
